(** * zvec C boundary layer: a shallow embedding of the wrapper sources

    The development follows the translation units of [zvec-c-wrapper]:
    [zvec_c.h] and [zvec_c_internal.h] (data), [status.cpp], [doc.cpp],
    [query.cpp], [collection.cpp] and [init.cpp].

    Conventions of the embedding.
    - A C pointer is an [option]: [None] is the null pointer.
    - [zvec_doc_t] objects, and the arrays the wrapper obtains from
      [malloc], live in an explicit heap ([gmap loc object]); [new] and
      [malloc] allocate a fresh location, [delete] and [free] remove it.
    - [zvec::Doc] objects are reached through [Doc::Ptr] (a
      [std::shared_ptr]); they live in a second store so that two handles
      holding the same pointer alias.  Use counts are not tracked: part of
      them is held inside the engine, out of sight of this layer.
    - A pointer to a caller-side struct whose aliasing does not matter
      (an out-parameter, a query handle) is passed as its current content
      and the function returns the content after the call.
    - C strings are carried by value; [strdup] is the identity on them.
      The one exception is the pointer [zvec_doc_get_string] stores for its
      caller, a [c_str], which records whether its characters are alive.
    - Dereferencing a null or dangling pointer, reading past an array and
      building a [std::string] from a null pointer are undefined behaviour:
      the computation ends in [Undefined].
    - [size_t] counts are [nat]; fixed-width integers and floating-point
      payloads are [Z] (for floats: the bit pattern, which this layer only
      copies). *)

From Stdlib Require Import ZArith.
From stdpp Require Import base option list gmap strings fin_maps.

Local Open Scope Z_scope.

(** ** zvec_c.h: status codes and the status struct *)

Definition zvec_status_code_t := Z.

Definition ZVEC_STATUS_OK : zvec_status_code_t := 0.
Definition ZVEC_STATUS_NOT_FOUND : zvec_status_code_t := 1.
Definition ZVEC_STATUS_ALREADY_EXISTS : zvec_status_code_t := 2.
Definition ZVEC_STATUS_INVALID_ARGUMENT : zvec_status_code_t := 3.
Definition ZVEC_STATUS_NOT_SUPPORTED : zvec_status_code_t := 4.
Definition ZVEC_STATUS_INTERNAL_ERROR : zvec_status_code_t := 5.
Definition ZVEC_STATUS_PERMISSION_DENIED : zvec_status_code_t := 6.
Definition ZVEC_STATUS_FAILED_PRECONDITION : zvec_status_code_t := 7.
Definition ZVEC_STATUS_UNKNOWN : zvec_status_code_t := 8.

Record zvec_status_t := mk_status {
  code : zvec_status_code_t;
  message : option string
}.

(** The engine's own [zvec::Status]: an enum code (as its [int] value) and a
    message. *)
Record Status := mk_Status {
  Status_code : Z;
  Status_message : string
}.

(** [tl::expected]-style result of an engine call. *)
Inductive Result (A : Type) : Type :=
| RValue (a : A)
| RError (e : Status).
Arguments RValue {A} a.
Arguments RError {A} e.

Definition has_value {A} (r : Result A) : bool :=
  match r with RValue _ => true | RError _ => false end.

(** ** zvec_c_internal.h: status helpers *)

Definition ok_status : zvec_status_t :=
  {| code := ZVEC_STATUS_OK; message := None |}.

Definition to_c_status (status : Status) : zvec_status_t :=
  {| code := Status_code status;
     message := if decide (Status_message status = EmptyString) then None
                else Some (Status_message status) |}.

(** The argument-validation failure every boundary function builds inline. *)
Definition invalid_argument (msg : string) : zvec_status_t :=
  {| code := ZVEC_STATUS_INVALID_ARGUMENT; message := Some msg |}.

(** ** The document value model *)

Definition c_float := Z.
Definition c_double := Z.

(** The alternatives a field can hold, one per C++ type the wrapper passes to
    [Doc::set]; [zvec_doc_set_vector_int32] and [zvec_doc_set_array_int32]
    both pass a [std::vector<int32_t>], and so on. *)
Inductive Value : Type :=
| VNull
| VBool (b : bool)
| VInt32 (z : Z)
| VInt64 (z : Z)
| VUInt32 (z : Z)
| VUInt64 (z : Z)
| VFloat (x : c_float)
| VDouble (x : c_double)
| VString (s : string)
| VVecFloat (v : list c_float)
| VVecDouble (v : list c_double)
| VVecInt8 (v : list Z)
| VVecInt16 (v : list Z)
| VVecInt32 (v : list Z)
| VVecInt64 (v : list Z)
| VSparse (idx : list Z) (vals : list c_float)
| VVecString (v : list string).

(** Modelled from the spec: [zvec::Doc] is the engine's class and its header
    is not part of the wrapper sources.  The spec gives a document a primary
    key, a numeric id, a score and a mapping from field names to tagged
    values. *)
Record Doc := mk_Doc {
  pk_ : string;
  doc_id_ : Z;
  score_ : c_float;
  fields_ : gmap string Value
}.

(** Modelled from the spec: the default-constructed [zvec::Doc] has no field
    (an unset field has [has(f) == false]). *)
Definition Doc_new : Doc :=
  {| pk_ := EmptyString; doc_id_ := 0; score_ := 0; fields_ := ∅ |}.

(** Modelled from the spec: [Doc::set<T>(name, value)] overwrites
    unconditionally and changes the field's tag to [T]. *)
Definition Doc_set (d : Doc) (name : string) (v : Value) : Doc :=
  {| pk_ := pk_ d; doc_id_ := doc_id_ d; score_ := score_ d;
     fields_ := <[name := v]> (fields_ d) |}.

(** Modelled from the spec: [Doc::set_null(name)] marks the field
    present-but-null. *)
Definition Doc_set_null (d : Doc) (name : string) : Doc :=
  Doc_set d name VNull.

(** Modelled from the spec: [Doc::has(name)] holds when a field entry exists,
    with any tag including null. *)
Definition Doc_has (d : Doc) (name : string) : bool :=
  bool_decide (is_Some (fields_ d !! name)).


Definition Doc_get_int32 (d : Doc) (name : string) : option Z :=
  match fields_ d !! name with Some (VInt32 z) => Some z | _ => None end.





Definition Doc_get_vector_float (d : Doc) (name : string)
  : option (list c_float) :=
  match fields_ d !! name with Some (VVecFloat v) => Some v | _ => None end.

(** ** zvec_c_internal.h and zvec_c.h: handles and result structs *)

Definition loc := positive.
Definition dref := positive.
Definition cref := positive.

(** [struct zvec_doc]: the [Doc::Ptr], the ownership flag and the (unused)
    string cache. *)
Record zvec_doc_t := mk_doc {
  ptr : option dref;
  owned : bool;
  string_cache : string
}.

(** [struct zvec_collection]. *)
Record zvec_collection_t := mk_collection {
  collection_ptr : option cref
}.

(** [zvec_doc_list_t]: the array pointer and the count. *)
Record zvec_doc_list_t := mk_doc_list {
  list_docs : option loc;
  list_count : nat
}.

Record zvec_write_results_t := mk_write_results {
  statuses : option loc;
  results_count : nat
}.

Record zvec_doc_map_t := mk_doc_map {
  map_keys : option loc;
  map_docs : option loc;
  map_count : nat
}.

Record zvec_group_result_t := mk_group_result {
  group_by_value : option string;
  group_docs : zvec_doc_list_t
}.

Record zvec_group_results_t := mk_group_results {
  groups : option loc;
  groups_count : nat
}.

Record zvec_collection_stats_t := mk_stats {
  doc_count : Z;
  memory_usage : Z;
  json_details : option string
}.

(** ** The engine, an external collaborator *)

(** [zvec::VectorQuery], with the members the wrapper assigns.  The three
    buffers are [std::string]s used as byte arrays. *)
Record VectorQuery := mk_VectorQuery {
  field_name_ : string;
  topk_ : Z;
  filter_ : string;
  include_vector_ : bool;
  include_doc_id_ : bool;
  output_fields_ : list string;
  query_params_ : option positive;
  query_vector_ : list Z;
  query_sparse_indices_ : list Z;
  query_sparse_values_ : list Z
}.

(** [struct zvec_vector_query]. *)
Record zvec_vector_query_t := mk_vector_query {
  query : VectorQuery
}.

(** One group of a group-by answer: the group value and the documents, held
    by value. *)
Record GroupResult := mk_GroupResult {
  group_by_value_ : string;
  docs_ : list Doc
}.

(** [zvec::CollectionStats], of which the wrapper reads [doc_count]. *)
Record CollectionStats := mk_CollectionStats {
  stats_doc_count : Z
}.

(** What the wrapper consumes from [zvec::Collection].  Every method takes
    the engine's state and returns the next one; the two methods that answer
    with [Doc::Ptr]s also see and extend the document store. *)
Class Engine := {
  engine_state : Type;
  CollectionSchema : Type;
  CollectionOptions : Type;
  GroupByVectorQuery : Type;
  Collection_Path : cref → engine_state → Result string * engine_state;
  Collection_Schema :
    cref → engine_state → Result CollectionSchema * engine_state;
  Collection_Options :
    cref → engine_state → Result CollectionOptions * engine_state;
  Collection_Stats :
    cref → engine_state → Result CollectionStats * engine_state;
  Collection_Insert :
    cref → list Doc → engine_state → Result (list Status) * engine_state;
  Collection_Upsert :
    cref → list Doc → engine_state → Result (list Status) * engine_state;
  Collection_Update :
    cref → list Doc → engine_state → Result (list Status) * engine_state;
  Collection_Delete :
    cref → list string → engine_state →
    Result (list Status) * engine_state;
  Collection_Query :
    cref → VectorQuery → engine_state → gmap dref Doc →
    Result (list (option dref)) * engine_state * gmap dref Doc;
  Collection_GroupByQuery :
    cref → GroupByVectorQuery → engine_state →
    Result (list GroupResult) * engine_state;
  Collection_Fetch :
    cref → list string → engine_state → gmap dref Doc →
    Result (list (string * option dref)) * engine_state * gmap dref Doc
}.

(** A small engine to run the wrapper against: collection [1] exists and
    every other one is reported missing; a write answers with one OK status
    per element it was given; query and fetch answer with the document
    behind pointer [1]; a group-by query answers with one group of one
    document. *)
Definition OK_Status : Status :=
  {| Status_code := 0; Status_message := "" |}.

Definition NOT_FOUND_Status : Status :=
  {| Status_code := 1; Status_message := "collection not found" |}.

Definition example_answer {A E} (c : cref) (a : A) (e : E) : Result A * E :=
  if decide (c = 1%positive) then (RValue a, e)
  else (RError NOT_FOUND_Status, e).

Definition example_engine : Engine :=
  {| engine_state := unit;
     CollectionSchema := unit;
     CollectionOptions := unit;
     GroupByVectorQuery := unit;
     Collection_Path := λ c, example_answer c "/tmp/c";
     Collection_Schema := λ c, example_answer c ();
     Collection_Options := λ c, example_answer c ();
     Collection_Stats := λ c, example_answer c {| stats_doc_count := 1 |};
     Collection_Insert := λ c ds,
       example_answer c ((λ _, OK_Status) <$> ds);
     Collection_Upsert := λ c ds,
       example_answer c ((λ _, OK_Status) <$> ds);
     Collection_Update := λ c ds,
       example_answer c ((λ _, OK_Status) <$> ds);
     Collection_Delete := λ c pks,
       example_answer c ((λ _, OK_Status) <$> pks);
     Collection_Query := λ c _ e ds,
       (example_answer c [Some 1%positive] e, ds);
     Collection_GroupByQuery := λ c _,
       example_answer c
         [{| group_by_value_ := "g"; docs_ := [Doc_new] |}];
     Collection_Fetch := λ c _ e ds,
       (example_answer c [("k", Some 1%positive)] e, ds) |}.

Section Boundary.

Context {Eng : Engine}.

(** [struct zvec_collection_schema], [struct zvec_collection_options] and
    [struct zvec_group_by_vector_query], under their typedef names. *)
Record zvec_collection_schema_t := mk_collection_schema {
  schema_ptr : option CollectionSchema;
  schema_owned : bool
}.

Record zvec_collection_options_t := mk_collection_options {
  opts : CollectionOptions
}.

Record zvec_group_by_vector_query_t := mk_group_by_vector_query {
  group_query : GroupByVectorQuery
}.

(** What [new] and [malloc] hand out. *)
Inductive object : Type :=
| ODoc (d : zvec_doc_t)
| OSchema (s : zvec_collection_schema_t)
| OOptions (o : zvec_collection_options_t)
| OStats (s : zvec_collection_stats_t)
| ODocArray (a : list (option loc))
| OStatusArray (a : list zvec_status_t)
| OKeyArray (a : list (option string))
| OGroupArray (a : list zvec_group_result_t).

(** The engine methods, as the log of a run records them. *)
Inductive engine_call : Type :=
| CallPath (c : cref)
| CallSchema (c : cref)
| CallOptions (c : cref)
| CallStats (c : cref)
| CallInsert (c : cref) (ds : list Doc)
| CallUpsert (c : cref) (ds : list Doc)
| CallUpdate (c : cref) (ds : list Doc)
| CallDelete (c : cref) (pks : list string)
| CallQuery (c : cref) (q : VectorQuery)
| CallGroupByQuery (c : cref) (q : GroupByVectorQuery)
| CallFetch (c : cref) (pks : list string).

Record world := mk_world {
  heap : gmap loc object;
  docs : gmap dref Doc;
  engine : engine_state;
  calls : list engine_call
}.

Definition set_heap (f : gmap loc object → gmap loc object) (w : world) :=
  {| heap := f (heap w); docs := docs w; engine := engine w;
     calls := calls w |}.

Definition set_docs (f : gmap dref Doc → gmap dref Doc) (w : world) :=
  {| heap := heap w; docs := f (docs w); engine := engine w;
     calls := calls w |}.

(** The state an engine method leaves behind, with the call logged. *)
Definition after_call (c : engine_call) (e : engine_state) (w : world) :=
  {| heap := heap w; docs := docs w; engine := e;
     calls := calls w ++ [c] |}.

(** *** The computation monad: state, and undefined behaviour *)

Inductive outcome (A : Type) : Type :=
| Done (a : A) (w : world)
| Undefined.
Arguments Done {A} a w.
Arguments Undefined {A}.

Definition M (A : Type) : Type := world → outcome A.

#[global] Instance M_ret : MRet M := λ A a w, Done a w.

#[global] Instance M_bind : MBind M := λ A B f m w,
  match m w with
  | Done a w' => f a w'
  | Undefined => Undefined
  end.

Definition undefined {A} : M A := λ _, Undefined.

(** [new T] and [malloc]: a location that is not in use. *)
Definition alloc (o : object) : M loc := λ w,
  let l := fresh (dom (heap w)) in Done l (set_heap (insert l o) w).

Definition load (l : loc) : M object := λ w,
  match heap w !! l with
  | Some o => Done o w
  | None => Undefined
  end.

Definition store (l : loc) (o : object) : M unit := λ w,
  match heap w !! l with
  | Some _ => Done () (set_heap (insert l o) w)
  | None => Undefined
  end.

(** [delete p] for a non-null [p]. *)
Definition dealloc (l : loc) : M unit := λ w,
  match heap w !! l with
  | Some _ => Done () (set_heap (delete l) w)
  | None => Undefined
  end.

(** [free(p)]: nothing for the null pointer. *)
Definition c_free (p : option loc) : M unit :=
  match p with
  | Some l => dealloc l
  | None => mret ()
  end.

Definition load_doc (l : loc) : M zvec_doc_t :=
  o ← load l;
  match o with
  | ODoc d => mret d
  | _ => undefined
  end.

(** [std::make_shared<zvec::Doc>(d)]. *)
Definition make_shared_Doc (d : Doc) : M dref := λ w,
  let r := fresh (dom (docs w)) in Done r (set_docs (insert r d) w).

(** [*p] for a non-null [Doc::Ptr]. *)
Definition read_Doc (r : dref) : M Doc := λ w,
  match docs w !! r with
  | Some d => Done d w
  | None => Undefined
  end.

Definition write_Doc (r : dref) (d : Doc) : M unit := λ w,
  match docs w !! r with
  | Some _ => Done () (set_docs (insert r d) w)
  | None => Undefined
  end.

(** [a[i]] on an array of the caller. *)
Definition index {A} (a : list A) (i : nat) : M A :=
  match a !! i with
  | Some x => mret x
  | None => undefined
  end.

(** [std::string(p)]. *)
Definition std_string (p : option string) : M string :=
  match p with
  | Some s => mret s
  | None => undefined
  end.

(** [std::vector<T>(data, data + len)]. *)
Definition vector_of {A} (data : list A) (len : nat) : M (list A) :=
  if decide (len ≤ length data)%nat then mret (take len data) else undefined.

(** [for (size_t i = 0; i < n; i++) body(i)], started at index [i]. *)
Fixpoint for_loop (n i : nat) (body : nat → M unit) : M unit :=
  match n with
  | O => mret ()
  | S n' => body i;; for_loop n' (S i) body
  end.

(** [std::memcpy(dst, src, n * sizeof(T))] on arrays of [T]. *)
Definition memcpy {A} (dst src : list A) (n : nat) : M (list A) :=
  if decide (n ≤ length dst ∧ n ≤ length src)%nat
  then mret (take n src ++ drop n dst)
  else undefined.

(** ** doc.cpp *)

Definition set_field_helper (doc : option dref) (field : option string)
    (value : Value) : M zvec_status_t :=
  match doc, field with
  | Some r, Some f =>
      d ← read_Doc r;
      write_Doc r (Doc_set d f value);;
      mret ok_status
  | _, _ => mret (invalid_argument "Invalid doc or field")
  end.

(** [new zvec_doc_t] followed by the two member assignments. *)
Definition zvec_doc_new : M loc :=
  r ← make_shared_Doc Doc_new;
  alloc (ODoc {| ptr := Some r; owned := true; string_cache := "" |}).

Definition zvec_doc_free (doc : option loc) : M unit :=
  match doc with
  | Some l =>
      d ← load_doc l;
      if owned d then dealloc l else mret ()
  | None => mret ()
  end.

(** [doc->ptr.get()], with no test of [doc] before it. *)
Definition doc_ptr_get (doc : option loc) : M (option dref) :=
  match doc with
  | Some l => d ← load_doc l; mret (ptr d)
  | None => undefined
  end.

Definition zvec_doc_set_bool (doc : option loc) (field : option string)
    (value : bool) : M zvec_status_t :=
  p ← doc_ptr_get doc; set_field_helper p field (VBool value).

Definition zvec_doc_set_int32 (doc : option loc) (field : option string)
    (value : Z) : M zvec_status_t :=
  p ← doc_ptr_get doc; set_field_helper p field (VInt32 value).

Definition zvec_doc_set_int64 (doc : option loc) (field : option string)
    (value : Z) : M zvec_status_t :=
  p ← doc_ptr_get doc; set_field_helper p field (VInt64 value).

Definition zvec_doc_set_uint32 (doc : option loc) (field : option string)
    (value : Z) : M zvec_status_t :=
  p ← doc_ptr_get doc; set_field_helper p field (VUInt32 value).

Definition zvec_doc_set_uint64 (doc : option loc) (field : option string)
    (value : Z) : M zvec_status_t :=
  p ← doc_ptr_get doc; set_field_helper p field (VUInt64 value).

Definition zvec_doc_set_float (doc : option loc) (field : option string)
    (value : c_float) : M zvec_status_t :=
  p ← doc_ptr_get doc; set_field_helper p field (VFloat value).

Definition zvec_doc_set_double (doc : option loc) (field : option string)
    (value : c_double) : M zvec_status_t :=
  p ← doc_ptr_get doc; set_field_helper p field (VDouble value).

(** The test [doc && doc->ptr] that opens most functions: the [Doc::Ptr] when
    both are non-null. *)
Definition doc_and_ptr (doc : option loc) : M (option dref) :=
  match doc with
  | Some l => d ← load_doc l; mret (ptr d)
  | None => mret None
  end.

(** [doc->ptr->set(std::string(field), value)]. *)
Definition Doc_ptr_set (r : dref) (f : string) (value : Value) : M unit :=
  d ← read_Doc r; write_Doc r (Doc_set d f value).

Definition zvec_doc_set_string (doc : option loc) (field : option string)
    (value : option string) : M zvec_status_t :=
  p ← doc_and_ptr doc;
  match p, field with
  | Some r, Some f =>
      v ← std_string value;
      Doc_ptr_set r f (VString v);;
      mret ok_status
  | _, _ => mret (invalid_argument "Invalid doc or field")
  end.

Definition zvec_doc_set_null (doc : option loc) (field : option string)
    : M unit :=
  p ← doc_and_ptr doc;
  match p, field with
  | Some r, Some f => d ← read_Doc r; write_Doc r (Doc_set_null d f)
  | _, _ => mret ()
  end.

(** The body shared, up to the element type, by the six vector setters and
    the four numeric array setters. *)
Definition set_vector_field {A} (tag : list A → Value) (doc : option loc)
    (field : option string) (data : option (list A)) (len : nat)
    : M zvec_status_t :=
  p ← doc_and_ptr doc;
  match p, field, data with
  | Some r, Some f, Some a =>
      vec ← vector_of a len;
      Doc_ptr_set r f (tag vec);;
      mret ok_status
  | _, _, _ => mret (invalid_argument "Invalid arguments")
  end.

Definition zvec_doc_set_vector_fp32 := set_vector_field VVecFloat.
Definition zvec_doc_set_vector_fp64 := set_vector_field VVecDouble.
Definition zvec_doc_set_vector_int8 := set_vector_field VVecInt8.
Definition zvec_doc_set_vector_int16 := set_vector_field VVecInt16.
Definition zvec_doc_set_vector_int32 := set_vector_field VVecInt32.
Definition zvec_doc_set_vector_int64 := set_vector_field VVecInt64.
Definition zvec_doc_set_array_int32 := set_vector_field VVecInt32.
Definition zvec_doc_set_array_int64 := set_vector_field VVecInt64.
Definition zvec_doc_set_array_float := set_vector_field VVecFloat.
Definition zvec_doc_set_array_double := set_vector_field VVecDouble.

Definition zvec_doc_set_sparse_vector_fp32 (doc : option loc)
    (field : option string) (indices : option (list Z)) (indices_count : nat)
    (values : option (list c_float)) (values_count : nat) : M zvec_status_t :=
  p ← doc_and_ptr doc;
  match p, field, indices, values with
  | Some r, Some f, Some ix, Some vs =>
      if decide (indices_count ≠ values_count)
      then mret (invalid_argument "Invalid arguments")
      else
        idx ← vector_of ix indices_count;
        vals ← vector_of vs values_count;
        Doc_ptr_set r f (VSparse idx vals);;
        mret ok_status
  | _, _, _, _ => mret (invalid_argument "Invalid arguments")
  end.

(** [vec.emplace_back(data[i])] for [i] below [len]. *)
Fixpoint strings_of (data : list (option string)) (len i : nat)
    : M (list string) :=
  match len with
  | O => mret []
  | S len' =>
      p ← index data i;
      s ← std_string p;
      rest ← strings_of data len' (S i);
      mret (s :: rest)
  end.

Definition zvec_doc_set_array_string (doc : option loc)
    (field : option string) (data : option (list (option string)))
    (len : nat) : M zvec_status_t :=
  p ← doc_and_ptr doc;
  match p, field, data with
  | Some r, Some f, Some a =>
      vec ← strings_of a len 0;
      Doc_ptr_set r f (VVecString vec);;
      mret ok_status
  | _, _, _ => mret (invalid_argument "Invalid arguments")
  end.

(** The body shared by the five getters that store the value itself;
    [out_value] is the content of the caller's variable and comes back with
    the result. *)
Definition get_field {A} (get : Doc → string → option A) (doc : option loc)
    (field : option string) (out_value : option A) : M (bool * option A) :=
  p ← doc_and_ptr doc;
  match p, field, out_value with
  | Some r, Some f, Some _ =>
      d ← read_Doc r;
      match get d f with
      | Some v => mret (true, Some v)
      | None => mret (false, out_value)
      end
  | _, _, _ => mret (false, out_value)
  end.

Definition zvec_doc_get_int32 := get_field Doc_get_int32.



Definition zvec_doc_get_vector_fp32 (doc : option loc)
    (field : option string) (out_data : option (list c_float))
    (max_len : nat) : M (nat * option (list c_float)) :=
  p ← doc_and_ptr doc;
  match p, field, out_data with
  | Some r, Some f, Some buf =>
      if decide (0 < max_len)%nat then
        d ← read_Doc r;
        match Doc_get_vector_float d f with
        | Some vec =>
            let copy_len := (length vec `min` max_len)%nat in
            buf' ← memcpy buf vec copy_len;
            mret (length vec, Some buf')
        | None => mret (O, out_data)
        end
      else mret (O, out_data)
  | _, _, _ => mret (O, out_data)
  end.

Definition zvec_doc_has (doc : option loc) (field : option string)
    : M bool :=
  p ← doc_and_ptr doc;
  match p, field with
  | Some r, Some f => d ← read_Doc r; mret (Doc_has d f)
  | _, _ => mret false
  end.

(** [list->docs[i]], the array being one the wrapper allocated. *)
Definition load_doc_array (p : option loc) : M (list (option loc)) :=
  match p with
  | Some l =>
      o ← load l;
      match o with
      | ODocArray a => mret a
      | _ => undefined
      end
  | None => undefined
  end.

(** [d->owned = false] on a non-null handle. *)
Definition clear_owned (l : loc) : M unit :=
  d ← load_doc l;
  store l (ODoc {| ptr := ptr d; owned := false;
                   string_cache := string_cache d |}).

Definition zvec_doc_list_free (list : option zvec_doc_list_t)
    : M (option zvec_doc_list_t) :=
  match list with
  | Some l =>
      for_loop (list_count l) 0 (λ i,
        a ← load_doc_array (list_docs l);
        p ← index a i;
        match p with
        | Some d => clear_owned d;; zvec_doc_free (Some d)
        | None => mret ()
        end);;
      c_free (list_docs l);;
      mret (Some {| list_docs := None; list_count := 0 |})
  | None => mret None
  end.

(** ** query.cpp *)

(** The object representation of a 32-bit element, least significant byte
    first, and of an array of them: what [memcpy] moves into a byte buffer. *)
Definition bytes32 (x : Z) : list Z :=
  [x `mod` 256; (x `div` 256) `mod` 256; (x `div` 65536) `mod` 256;
   (x `div` 16777216) `mod` 256].

Definition bytes_of (a : list Z) : list Z := a ≫= bytes32.

Definition set_query_sparse_indices_ (b : list Z) (q : VectorQuery) :=
  {| field_name_ := field_name_ q; topk_ := topk_ q; filter_ := filter_ q;
     include_vector_ := include_vector_ q;
     include_doc_id_ := include_doc_id_ q;
     output_fields_ := output_fields_ q; query_params_ := query_params_ q;
     query_vector_ := query_vector_ q; query_sparse_indices_ := b;
     query_sparse_values_ := query_sparse_values_ q |}.

Definition set_query_sparse_values_ (b : list Z) (q : VectorQuery) :=
  {| field_name_ := field_name_ q; topk_ := topk_ q; filter_ := filter_ q;
     include_vector_ := include_vector_ q;
     include_doc_id_ := include_doc_id_ q;
     output_fields_ := output_fields_ q; query_params_ := query_params_ q;
     query_vector_ := query_vector_ q;
     query_sparse_indices_ := query_sparse_indices_ q;
     query_sparse_values_ := b |}.

(** The query handle is passed as its content and returned after the call. *)
Definition zvec_vector_query_set_sparse_vector_fp32
    (q : option zvec_vector_query_t) (indices : option (list Z))
    (indices_count : nat) (values : option (list c_float))
    (values_count : nat) : M (zvec_status_t * option zvec_vector_query_t) :=
  match q, indices, values with
  | Some h, Some ix, Some vs =>
      if decide (indices_count ≠ values_count)
      then mret (invalid_argument "Invalid arguments", q)
      else
        idx ← vector_of ix indices_count;
        let q1 := set_query_sparse_indices_ (bytes_of idx) (query h) in
        vals ← vector_of vs values_count;
        let q2 := set_query_sparse_values_ (bytes_of vals) q1 in
        mret (ok_status, Some {| query := q2 |})
  | _, _, _ => mret (invalid_argument "Invalid arguments", q)
  end.

(** ** collection.cpp *)

(** An engine method that works on the engine's state alone. *)
Definition call {A} (c : engine_call)
    (method : engine_state → Result A * engine_state) : M (Result A) := λ w,
  let '(r, e) := method (engine w) in Done r (after_call c e w).

(** An engine method that answers with [Doc::Ptr]s. *)
Definition call_docs {A} (c : engine_call)
    (method : engine_state → gmap dref Doc →
              Result A * engine_state * gmap dref Doc) : M (Result A) := λ w,
  let '(r, e, ds) := method (engine w) (docs w) in
  Done r (set_docs (λ _, ds) (after_call c e w)).

(** [collection && collection->ptr]. *)
Definition collection_and_ptr (collection : option zvec_collection_t)
    : option cref :=
  collection ≫= collection_ptr.

Definition zvec_collection_path (collection : option zvec_collection_t)
    (out_path : option (option string))
    : M (zvec_status_t * option (option string)) :=
  match collection_and_ptr collection, out_path with
  | Some c, Some _ =>
      result ← call (CallPath c) (Collection_Path c);
      match result with
      | RValue v => mret (ok_status, Some (Some v))
      | RError e => mret (to_c_status e, out_path)
      end
  | _, _ => mret (invalid_argument "Invalid arguments", out_path)
  end.

Definition zvec_collection_schema (collection : option zvec_collection_t)
    (out_schema : option (option loc))
    : M (zvec_status_t * option (option loc)) :=
  match collection_and_ptr collection, out_schema with
  | Some c, Some _ =>
      result ← call (CallSchema c) (Collection_Schema c);
      match result with
      | RValue v =>
          schema ← alloc (OSchema {| schema_ptr := Some v;
                                     schema_owned := true |});
          mret (ok_status, Some (Some schema))
      | RError e => mret (to_c_status e, out_schema)
      end
  | _, _ => mret (invalid_argument "Invalid arguments", out_schema)
  end.

Definition zvec_collection_options (collection : option zvec_collection_t)
    (out_options : option (option loc))
    : M (zvec_status_t * option (option loc)) :=
  match collection_and_ptr collection, out_options with
  | Some c, Some _ =>
      result ← call (CallOptions c) (Collection_Options c);
      match result with
      | RValue v =>
          o ← alloc (OOptions {| opts := v |});
          mret (ok_status, Some (Some o))
      | RError e => mret (to_c_status e, out_options)
      end
  | _, _ => mret (invalid_argument "Invalid arguments", out_options)
  end.

Definition zvec_collection_stats (collection : option zvec_collection_t)
    (out_stats : option (option loc))
    : M (zvec_status_t * option (option loc)) :=
  match collection_and_ptr collection, out_stats with
  | Some c, Some _ =>
      result ← call (CallStats c) (Collection_Stats c);
      match result with
      | RValue s =>
          stats ← alloc (OStats {| doc_count := stats_doc_count s;
                                   memory_usage := 0;
                                   json_details := None |});
          mret (ok_status, Some (Some stats))
      | RError e => mret (to_c_status e, out_stats)
      end
  | _, _ => mret (invalid_argument "Invalid arguments", out_stats)
  end.

(** The loop that fills [cpp_docs]: a copy of [*docs[i]->ptr] for every [i]
    below [count] with [docs[i] && docs[i]->ptr]. *)
Fixpoint collect_docs (a : list (option loc)) (count i : nat)
    : M (list Doc) :=
  match count with
  | O => mret []
  | S n =>
      h ← index a i;
      p ← doc_and_ptr h;
      match p with
      | Some r =>
          d ← read_Doc r;
          rest ← collect_docs a n (S i);
          mret (d :: rest)
      | None => collect_docs a n (S i)
      end
  end.

(** The block under [result.has_value() && out_results]: the count, and a
    fresh array with the converted statuses. *)
Definition put_write_results (write_results : list Status)
    : M zvec_write_results_t :=
  a ← alloc (OStatusArray (to_c_status <$> write_results));
  mret {| statuses := Some a; results_count := length write_results |}.

Definition return_write_results (result : Result (list Status))
    (out_results : option zvec_write_results_t)
    : M (zvec_status_t * option zvec_write_results_t) :=
  match result with
  | RValue write_results =>
      match out_results with
      | Some _ =>
          r ← put_write_results write_results;
          mret (ok_status, Some r)
      | None => mret (ok_status, None)
      end
  | RError e => mret (to_c_status e, out_results)
  end.

(** The body that insert, upsert and update share word for word, up to the
    engine method they call. *)
Definition write_docs (tag : cref → list Doc → engine_call)
    (method : cref → list Doc → engine_state →
              Result (list Status) * engine_state)
    (collection : option zvec_collection_t) (docs : option (list (option loc)))
    (count : nat) (out_results : option zvec_write_results_t)
    : M (zvec_status_t * option zvec_write_results_t) :=
  match collection_and_ptr collection, docs with
  | Some c, Some a =>
      if decide (count = O)
      then mret (invalid_argument "Invalid arguments", out_results)
      else
        cpp_docs ← collect_docs a count 0;
        result ← call (tag c cpp_docs) (method c cpp_docs);
        return_write_results result out_results
  | _, _ => mret (invalid_argument "Invalid arguments", out_results)
  end.

Definition zvec_collection_insert := write_docs CallInsert Collection_Insert.
Definition zvec_collection_upsert := write_docs CallUpsert Collection_Upsert.
Definition zvec_collection_update := write_docs CallUpdate Collection_Update.

Definition zvec_collection_delete (collection : option zvec_collection_t)
    (pks : option (list (option string))) (count : nat)
    (out_results : option zvec_write_results_t)
    : M (zvec_status_t * option zvec_write_results_t) :=
  match collection_and_ptr collection, pks with
  | Some c, Some a =>
      if decide (count = O)
      then mret (invalid_argument "Invalid arguments", out_results)
      else
        cpp_pks ← strings_of a count 0;
        result ← call (CallDelete c cpp_pks) (Collection_Delete c cpp_pks);
        return_write_results result out_results
  | _, _ => mret (invalid_argument "Invalid arguments", out_results)
  end.

(** [arr[i] = p] on a handle array the wrapper allocated. *)
Definition set_slot (arr : loc) (i : nat) (p : option loc) : M unit :=
  a ← load_doc_array (Some arr);
  if decide (i < length a)%nat
  then store arr (ODocArray (<[i := p]> a))
  else undefined.

(** [new zvec_doc_t] with its two member assignments. *)
Definition new_doc (p : option dref) (own : bool) : M loc :=
  alloc (ODoc {| ptr := p; owned := own; string_cache := "" |}).

Definition zvec_collection_query (collection : option zvec_collection_t)
    (q : option zvec_vector_query_t) (out_results : option zvec_doc_list_t)
    : M (zvec_status_t * option zvec_doc_list_t) :=
  match collection_and_ptr collection, q, out_results with
  | Some c, Some h, Some _ =>
      result ← call_docs (CallQuery c (query h))
                 (Collection_Query c (query h));
      match result with
      | RValue ds =>
          arr ← alloc (ODocArray (replicate (length ds) None));
          for_loop (length ds) 0 (λ i,
            p ← index ds i;
            doc ← new_doc p false;
            set_slot arr i (Some doc));;
          mret (ok_status,
                Some {| list_docs := Some arr; list_count := length ds |})
      | RError e => mret (to_c_status e, out_results)
      end
  | _, _, _ => mret (invalid_argument "Invalid arguments", out_results)
  end.

Definition load_group_array (arr : loc) : M (list zvec_group_result_t) :=
  o ← load arr;
  match o with
  | OGroupArray a => mret a
  | _ => undefined
  end.

(** [groups[i] = g], the three member assignments taken together. *)
Definition set_group (arr : loc) (i : nat) (g : zvec_group_result_t)
    : M unit :=
  a ← load_group_array arr;
  if decide (i < length a)%nat
  then store arr (OGroupArray (<[i := g]> a))
  else undefined.

Definition empty_group : zvec_group_result_t :=
  {| group_by_value := None;
     group_docs := {| list_docs := None; list_count := 0 |} |}.

Definition zvec_collection_group_by_query
    (collection : option zvec_collection_t)
    (q : option zvec_group_by_vector_query_t)
    (out_results : option zvec_group_results_t)
    : M (zvec_status_t * option zvec_group_results_t) :=
  match collection_and_ptr collection, q, out_results with
  | Some c, Some h, Some _ =>
      result ← call (CallGroupByQuery c (group_query h))
                 (Collection_GroupByQuery c (group_query h));
      match result with
      | RValue gs =>
          arr ← alloc (OGroupArray (replicate (length gs) empty_group));
          for_loop (length gs) 0 (λ i,
            g ← index gs i;
            inner ← alloc (ODocArray (replicate (length (docs_ g)) None));
            set_group arr i
              {| group_by_value := Some (group_by_value_ g);
                 group_docs := {| list_docs := Some inner;
                                  list_count := length (docs_ g) |} |};;
            for_loop (length (docs_ g)) 0 (λ j,
              d ← index (docs_ g) j;
              r ← make_shared_Doc d;
              doc ← new_doc (Some r) true;
              set_slot inner j (Some doc)));;
          mret (ok_status,
                Some {| groups := Some arr; groups_count := length gs |})
      | RError e => mret (to_c_status e, out_results)
      end
  | _, _, _ => mret (invalid_argument "Invalid arguments", out_results)
  end.

Definition load_key_array (arr : loc) : M (list (option string)) :=
  o ← load arr;
  match o with
  | OKeyArray a => mret a
  | _ => undefined
  end.

(** [keys[i] = strdup(s)]. *)
Definition set_key (arr : loc) (i : nat) (s : string) : M unit :=
  a ← load_key_array arr;
  if decide (i < length a)%nat
  then store arr (OKeyArray (<[i := Some s]> a))
  else undefined.

Definition zvec_collection_fetch (collection : option zvec_collection_t)
    (pks : option (list (option string))) (count : nat)
    (out_results : option zvec_doc_map_t)
    : M (zvec_status_t * option zvec_doc_map_t) :=
  match collection_and_ptr collection, pks, out_results with
  | Some c, Some a, Some _ =>
      if decide (count = O)
      then mret (invalid_argument "Invalid arguments", out_results)
      else
        cpp_pks ← strings_of a count 0;
        result ← call_docs (CallFetch c cpp_pks)
                   (Collection_Fetch c cpp_pks);
        match result with
        | RValue doc_map =>
            keys ← alloc (OKeyArray (replicate (length doc_map) None));
            arr ← alloc (ODocArray (replicate (length doc_map) None));
            for_loop (length doc_map) 0 (λ idx,
              '(pk, doc_ptr) ← index doc_map idx;
              set_key keys idx pk;;
              doc ← new_doc doc_ptr false;
              set_slot arr idx (Some doc));;
            mret (ok_status,
                  Some {| map_keys := Some keys; map_docs := Some arr;
                          map_count := length doc_map |})
        | RError e => mret (to_c_status e, out_results)
        end
  | _, _, _ => mret (invalid_argument "Invalid arguments", out_results)
  end.

(** ** Notions the statements are phrased with *)

(** The handle object behind a [zvec_doc_t*], when it is a live one. *)
Definition handle_doc (w : world) (h : option loc) : option zvec_doc_t :=
  l ← h;
  o ← heap w !! l;
  match o with
  | ODoc d => Some d
  | _ => None
  end.

(** The document a handle designates: none for a null handle and for a
    handle whose [Doc::Ptr] is null. *)
Definition designated (w : world) (h : option loc) : option Doc :=
  d ← handle_doc w h;
  r ← ptr d;
  docs w !! r.

(** A pointer a caller may pass for a [zvec_doc_t*]: null, or a live
    handle. *)
Definition valid_handle (w : world) (doc : option loc) : Prop :=
  match doc with
  | Some l => is_Some (handle_doc w (Some l))
  | None => True
  end.

(** A boundary function, seen as a function of its out-parameter, writes
    through it only when it returns OK. *)
Definition writes_only_on_OK {O}
    (f : option O → M (zvec_status_t * option O)) : Prop :=
  ∀ out w s out' w',
    f out w = Done (s, out') w' →
    code s ≠ ZVEC_STATUS_OK →
    out' = out.

(** An engine method honours the batch contract: an error is never reported
    with the OK code, and an answer has one status per element. *)
Definition batch_contract {A}
    (method : cref → list A → engine_state →
              Result (list Status) * engine_state) : Prop :=
  ∀ c xs e,
    match (method c xs e).1 with
    | RValue rs => length rs = length xs
    | RError st => Status_code st ≠ 0
    end.

(** An engine answer that does not report an error with the OK code. *)
Definition error_not_OK {A} (r : Result A) : Prop :=
  match r with
  | RValue _ => True
  | RError st => Status_code st ≠ 0
  end.

(** What a write leaves behind for the elements [submitted] to the engine:
    the engine answered with one status per element, and the out-parameter
    holds that count and a fresh array with the statuses, converted, in the
    engine's order. *)
Definition write_results_of {A}
    (method : cref → list A → engine_state →
              Result (list Status) * engine_state)
    (c : cref) (submitted : list A) (w w' : world)
    (out' : option zvec_write_results_t) : Prop :=
  ∃ rs e arr,
    method c submitted (engine w) = (RValue rs, e) ∧
    length rs = length submitted ∧
    out' = Some {| statuses := Some arr;
                   results_count := length submitted |} ∧
    heap w' !! arr = Some (OStatusArray (to_c_status <$> rs)).

(** A document list as the wrapper hands them out: a live array of [count]
    entries [hs], each null or a live handle. *)
Definition doc_list_in (w : world) (lst : zvec_doc_list_t)
    (hs : list (option loc)) : Prop :=
  ∃ arr, list_docs lst = Some arr ∧
         heap w !! arr = Some (ODocArray hs) ∧
         length hs = list_count lst ∧
         Forall (valid_handle w) hs.

(** The handle object is still on the heap, flagged as not owned. *)
Definition still_allocated (w : world) (h : option loc) : Prop :=
  match h with
  | Some l => ∃ d, heap w !! l = Some (ODoc d) ∧ owned d = false
  | None => True
  end.

(** The array at [arr] has [n] slots, and each of the first [j] holds a live
    handle whose object satisfies [P] at its index. *)
Definition filled (P : nat → zvec_doc_t → Prop) (arr : loc) (n j : nat)
    (w : world) : Prop :=
  ∃ hs, heap w !! arr = Some (ODocArray hs) ∧ length hs = n ∧
        ∀ i, (i < j)%nat →
             ∃ l d, hs !! i = Some (Some l) ∧
                    heap w !! l = Some (ODoc d) ∧ P i d.

(** Every object that is live in [w] and is not one of [ex] is the same in
    [w']. *)
Definition kept_except (ex : list loc) (w w' : world) : Prop :=
  ∀ l o, l ∉ ex → heap w !! l = Some o → heap w' !! l = Some o.

(** A handle that holds the very pointer the engine answered with and is
    flagged as not owned: for a query answer, and for a fetch answer. *)
Definition borrowed_from (ds : list (option dref)) (i : nat) (d : zvec_doc_t)
    : Prop :=
  ds !! i = Some (ptr d) ∧ owned d = false.

Definition borrowed_from_map (doc_map : list (string * option dref))
    (i : nat) (d : zvec_doc_t) : Prop :=
  (∃ pk, doc_map !! i = Some (pk, ptr d)) ∧ owned d = false.

(** A handle flagged as owned. *)
Definition owned_copy (i : nat) (d : zvec_doc_t) : Prop := owned d = true.

(** The group array at [arr] has one slot per group, and each of the first
    [j] holds the group's value and a list of as many owned handles as the
    group has documents. *)
Definition groups_filled (gs : list GroupResult) (arr : loc) (j : nat)
    (w : world) : Prop :=
  ∃ G, heap w !! arr = Some (OGroupArray G) ∧ length G = length gs ∧
       ∀ i, (i < j)%nat →
            ∃ g inner,
              gs !! i = Some g ∧
              G !! i = Some {| group_by_value := Some (group_by_value_ g);
                               group_docs :=
                                 {| list_docs := Some inner;
                                    list_count := length (docs_ g) |} |} ∧
              filled owned_copy inner (length (docs_ g)) (length (docs_ g)) w.

(** A call of one of the field setters of [doc.cpp] on a given handle. *)
Inductive setter_call : Type :=
| set_bool (field : option string) (value : bool)
| set_int32 (field : option string) (value : Z)
| set_int64 (field : option string) (value : Z)
| set_uint32 (field : option string) (value : Z)
| set_uint64 (field : option string) (value : Z)
| set_float (field : option string) (value : c_float)
| set_double (field : option string) (value : c_double)
| set_string (field : option string) (value : option string)
| set_null (field : option string)
| set_vector_fp32 (field : option string) (data : option (list c_float))
    (len : nat)
| set_vector_fp64 (field : option string) (data : option (list c_double))
    (len : nat)
| set_vector_int8 (field : option string) (data : option (list Z))
    (len : nat)
| set_vector_int16 (field : option string) (data : option (list Z))
    (len : nat)
| set_vector_int32 (field : option string) (data : option (list Z))
    (len : nat)
| set_vector_int64 (field : option string) (data : option (list Z))
    (len : nat)
| set_sparse_vector_fp32 (field : option string) (indices : option (list Z))
    (indices_count : nat) (values : option (list c_float))
    (values_count : nat)
| set_array_int32 (field : option string) (data : option (list Z))
    (len : nat)
| set_array_int64 (field : option string) (data : option (list Z))
    (len : nat)
| set_array_float (field : option string) (data : option (list c_float))
    (len : nat)
| set_array_double (field : option string) (data : option (list c_double))
    (len : nat)
| set_array_string (field : option string)
    (data : option (list (option string))) (len : nat).


Definition run_setter (doc : option loc) (c : setter_call) : M unit :=
  match c with
  | set_bool f v => zvec_doc_set_bool doc f v;; mret ()
  | set_int32 f v => zvec_doc_set_int32 doc f v;; mret ()
  | set_int64 f v => zvec_doc_set_int64 doc f v;; mret ()
  | set_uint32 f v => zvec_doc_set_uint32 doc f v;; mret ()
  | set_uint64 f v => zvec_doc_set_uint64 doc f v;; mret ()
  | set_float f v => zvec_doc_set_float doc f v;; mret ()
  | set_double f v => zvec_doc_set_double doc f v;; mret ()
  | set_string f v => zvec_doc_set_string doc f v;; mret ()
  | set_null f => zvec_doc_set_null doc f
  | set_vector_fp32 f a n => zvec_doc_set_vector_fp32 doc f a n;; mret ()
  | set_vector_fp64 f a n => zvec_doc_set_vector_fp64 doc f a n;; mret ()
  | set_vector_int8 f a n => zvec_doc_set_vector_int8 doc f a n;; mret ()
  | set_vector_int16 f a n => zvec_doc_set_vector_int16 doc f a n;; mret ()
  | set_vector_int32 f a n => zvec_doc_set_vector_int32 doc f a n;; mret ()
  | set_vector_int64 f a n => zvec_doc_set_vector_int64 doc f a n;; mret ()
  | set_sparse_vector_fp32 f ix n vs m =>
      zvec_doc_set_sparse_vector_fp32 doc f ix n vs m;; mret ()
  | set_array_int32 f a n => zvec_doc_set_array_int32 doc f a n;; mret ()
  | set_array_int64 f a n => zvec_doc_set_array_int64 doc f a n;; mret ()
  | set_array_float f a n => zvec_doc_set_array_float doc f a n;; mret ()
  | set_array_double f a n => zvec_doc_set_array_double doc f a n;; mret ()
  | set_array_string f a n => zvec_doc_set_array_string doc f a n;; mret ()
  end.

(** A sequence of setter calls on one handle, in order. *)
Fixpoint run_setters (doc : option loc) (cs : list setter_call) : M unit :=
  match cs with
  | [] => mret ()
  | c :: cs' => run_setter doc c;; run_setters doc cs'
  end.

End Boundary.

Arguments Done {_ _} _ _.
Arguments Undefined {_ _}.

(** ** init.cpp *)

(** What [zvec::core::IndexFactory] answers at the moment of a call. *)
Record IndexFactory := mk_IndexFactory {
  AllMetrics : list string;
  AllBuilders : list string;
  AllSearchers : list string;
  AllStreamers : list string
}.

(** The two function-local statics of a listing function: the cached names
    and the [c_str()] pointers into them. *)
Record registry := mk_registry {
  cached : list string;
  cached_ptrs : list string
}.

(** The statics of the four listing functions at program start. *)
Record statics := mk_statics {
  metrics : registry;
  builders : registry;
  searchers : registry;
  streamers : registry
}.

Definition empty_registry : registry := {| cached := []; cached_ptrs := [] |}.

Definition initial_statics : statics :=
  {| metrics := empty_registry; builders := empty_registry;
     searchers := empty_registry; streamers := empty_registry |}.

(** [static_cast<int>(n)] for a [size_t]. *)
Definition to_int (n : nat) : Z :=
  (Z.of_nat n + 2 ^ 31) `mod` 2 ^ 32 - 2 ^ 31.

(** The [if (cached.empty()) { ... }] block: [all] is the engine's answer,
    asked for only when the block runs. *)
Definition populate_registry (all : list string) (r : registry) : registry :=
  if decide (cached r = [])
  then {| cached := all; cached_ptrs := cached_ptrs r ++ all |}
  else r.

(** The tail of a listing function: the store through [out], which is not
    tested for null, and the returned count.  [out] holds the content of the
    caller's variable, [None] inside standing for a null array pointer. *)
Definition answer (r : registry) (out : option (option (list string)))
    : option (Z * option (list string)) :=
  match out with
  | Some _ => Some (to_int (length (cached_ptrs r)), Some (cached_ptrs r))
  | None => None
  end.

Definition zvec_list_registered_metrics (f : IndexFactory) (s : statics)
    (out_metrics : option (option (list string)))
    : option (Z * option (list string) * statics) :=
  let r := populate_registry (AllMetrics f) (metrics s) in
  '(n, o) ← answer r out_metrics;
  Some (n, o, {| metrics := r; builders := builders s;
                 searchers := searchers s; streamers := streamers s |}).

Definition zvec_list_registered_builders (f : IndexFactory) (s : statics)
    (out_builders : option (option (list string)))
    : option (Z * option (list string) * statics) :=
  let r := populate_registry (AllBuilders f) (builders s) in
  '(n, o) ← answer r out_builders;
  Some (n, o, {| metrics := metrics s; builders := r;
                 searchers := searchers s; streamers := streamers s |}).

Definition zvec_list_registered_searchers (f : IndexFactory) (s : statics)
    (out_searchers : option (option (list string)))
    : option (Z * option (list string) * statics) :=
  let r := populate_registry (AllSearchers f) (searchers s) in
  '(n, o) ← answer r out_searchers;
  Some (n, o, {| metrics := metrics s; builders := builders s;
                 searchers := r; streamers := streamers s |}).

Definition zvec_list_registered_streamers (f : IndexFactory) (s : statics)
    (out_streamers : option (option (list string)))
    : option (Z * option (list string) * statics) :=
  let r := populate_registry (AllStreamers f) (streamers s) in
  '(n, o) ← answer r out_streamers;
  Some (n, o, {| metrics := metrics s; builders := builders s;
                 searchers := searchers s; streamers := r |}).

(** *** The four listings as one family, and the life of their statics *)

Inductive listing : Type := Metrics | Builders | Searchers | Streamers.

#[global] Instance listing_eq_dec : EqDecision listing.
Proof. solve_decision. Defined.

Definition zvec_list_registered (k : listing) :=
  match k with
  | Metrics => zvec_list_registered_metrics
  | Builders => zvec_list_registered_builders
  | Searchers => zvec_list_registered_searchers
  | Streamers => zvec_list_registered_streamers
  end.

(** The engine's answer and the statics a listing is about. *)
Definition registered (k : listing) (f : IndexFactory) : list string :=
  match k with
  | Metrics => AllMetrics f
  | Builders => AllBuilders f
  | Searchers => AllSearchers f
  | Streamers => AllStreamers f
  end.

Definition registry_of (k : listing) (s : statics) : registry :=
  match k with
  | Metrics => metrics s
  | Builders => builders s
  | Searchers => searchers s
  | Streamers => streamers s
  end.

(** One call of any listing function, whatever the engine has registered by
    then, takes the statics from [s] to [s']. *)
Inductive step (s s' : statics) : Prop :=
| step_call (k : listing) (f : IndexFactory)
    (out : option (option (list string))) (n : Z)
    (o : option (list string)) :
    zvec_list_registered k f s out = Some (n, o, s') → step s s'.

(** The pointer vector mirrors the cached names. *)
Definition coherent (r : registry) : Prop := cached_ptrs r = cached r.

(** ** Example worlds *)

(** One live owned handle at address [1] on the document behind pointer [1],
    which holds the fp32 vector [1, 2, 3] in field [v]. *)
Definition example_world : world (Eng := example_engine) :=
  mk_world (Eng := example_engine)
    {[ 1%positive := ODoc (Eng := example_engine)
                       {| ptr := Some 1%positive; owned := true;
                          string_cache := "" |} ]}
    {[ 1%positive := Doc_set Doc_new "v" (VVecFloat [1; 2; 3]) ]}
    ()
    [].

Definition example_collection : option zvec_collection_t :=
  Some {| collection_ptr := Some 1%positive |}.

Definition missing_collection : option zvec_collection_t :=
  Some {| collection_ptr := Some 2%positive |}.

Definition example_query : option zvec_vector_query_t :=
  Some {| query := {| field_name_ := "v"; topk_ := 10; filter_ := "";
                      include_vector_ := false; include_doc_id_ := false;
                      output_fields_ := []; query_params_ := None;
                      query_vector_ := []; query_sparse_indices_ := [];
                      query_sparse_values_ := [] |} |}.

Definition empty_write_results : zvec_write_results_t :=
  {| statuses := None; results_count := 0 |}.

Definition empty_doc_list : zvec_doc_list_t :=
  {| list_docs := None; list_count := 0 |}.

Definition empty_doc_map : zvec_doc_map_t :=
  {| map_keys := None; map_docs := None; map_count := 0 |}.

(** An engine with nothing registered yet, and the same engine later. *)
Definition factory_before : IndexFactory :=
  {| AllMetrics := []; AllBuilders := []; AllSearchers := [];
     AllStreamers := [] |}.

Definition factory_after : IndexFactory :=
  {| AllMetrics := ["L2"]; AllBuilders := ["HnswBuilder"];
     AllSearchers := ["HnswSearcher"]; AllStreamers := ["HnswStreamer"] |}.

(** * More of the wrapper *)

(** ** status.cpp *)

Definition zvec_status_ok : zvec_status_t := ok_status.

Definition zvec_status_is_ok (status : option zvec_status_t) : bool :=
  match status with
  | Some s => bool_decide (code s = ZVEC_STATUS_OK)
  | None => false
  end.

(** The status is passed as its content and returned after the call: a
    message, if there is one, is freed and the pointer set to null. *)
Definition zvec_status_free (status : option zvec_status_t)
    : option zvec_status_t :=
  match status with
  | Some s =>
      match message s with
      | Some _ => Some {| code := code s; message := None |}
      | None => Some s
      end
  | None => None
  end.

(** ** options.cpp *)

(** The members of [zvec::CollectionOptions] that the setters assign;
    [max_buffer_size_] is a [uint32_t]. *)
Record CollectionOptions_members := mk_CollectionOptions_members {
  read_only_ : bool;
  enable_mmap_ : bool;
  max_buffer_size_ : Z
}.

(** The options handle is passed as its content and returned after the
    call. *)
Definition zvec_collection_options_set_read_only
    (options : option CollectionOptions_members) (read_only : bool)
    : option CollectionOptions_members :=
  match options with
  | Some o => Some {| read_only_ := read_only;
                      enable_mmap_ := enable_mmap_ o;
                      max_buffer_size_ := max_buffer_size_ o |}
  | None => None
  end.

Definition zvec_collection_options_set_enable_mmap
    (options : option CollectionOptions_members) (enable_mmap : bool)
    : option CollectionOptions_members :=
  match options with
  | Some o => Some {| read_only_ := read_only_ o;
                      enable_mmap_ := enable_mmap;
                      max_buffer_size_ := max_buffer_size_ o |}
  | None => None
  end.

(** [static_cast<uint32_t>(max_buffer_size)] on a [uint64_t]. *)
Definition zvec_collection_options_set_max_buffer_size
    (options : option CollectionOptions_members) (max_buffer_size : Z)
    : option CollectionOptions_members :=
  match options with
  | Some o => Some {| read_only_ := read_only_ o;
                      enable_mmap_ := enable_mmap_ o;
                      max_buffer_size_ := max_buffer_size `mod` 2 ^ 32 |}
  | None => None
  end.

(** ** init.cpp: [zvec_init] *)

Definition zvec_init (f : IndexFactory) : bool :=
  negb (bool_decide (AllMetrics f = [])).

(** ** The two factories of [zvec::Collection] *)

(** [CreateAndOpen] and [Open] are static functions, not methods of a
    collection: they advance the engine's state and answer with a
    [Collection::Ptr].  [default_CollectionOptions] is the
    default-constructed [zvec::CollectionOptions]. *)
Class Storage (Eng : Engine) := {
  default_CollectionOptions : CollectionOptions;
  Collection_CreateAndOpen :
    string → CollectionSchema → CollectionOptions → engine_state →
    Result (option cref) * engine_state;
  Collection_Open :
    string → CollectionOptions → engine_state →
    Result (option cref) * engine_state
}.

(** On the example engine the only storage is at ["/tmp/c"], and it holds
    collection [1]. *)
Definition ALREADY_EXISTS_Status : Status :=
  {| Status_code := 2; Status_message := "collection already exists" |}.

Definition example_storage : Storage example_engine :=
  {| default_CollectionOptions :=
       () : CollectionOptions (Engine := example_engine);
     Collection_CreateAndOpen := λ path _ _ e,
       if decide (path = "/tmp/c") then (RError ALREADY_EXISTS_Status, e)
       else (RValue (Some 2%positive), e);
     Collection_Open := λ path _ e,
       if decide (path = "/tmp/c") then (RValue (Some 1%positive), e)
       else (RError NOT_FOUND_Status, e) |}.

(** A group-by query for the example engine, whose query type is [unit]. *)
Definition example_group_query
    : option (zvec_group_by_vector_query_t (Eng := example_engine)) :=
  Some {| group_query := () : GroupByVectorQuery (Engine := example_engine) |}.

Section Rest.

Context {Eng : Engine} {Sto : Storage Eng}.

(** ** doc.cpp: the other release functions *)

(** [results->statuses[i]], the array being one the wrapper allocated. *)
Definition load_status_array (p : option loc) : M (list zvec_status_t) :=
  match p with
  | Some l =>
      o ← load l;
      match o with
      | OStatusArray a => mret a
      | _ => undefined
      end
  | None => undefined
  end.

Definition zvec_write_results_free (results : option zvec_write_results_t)
    : M (option zvec_write_results_t) :=
  match results with
  | Some r =>
      for_loop (results_count r) 0 (λ i,
        a ← load_status_array (statuses r);
        s ← index a i;
        match zvec_status_free (Some s), statuses r with
        | Some s', Some arr => store arr (OStatusArray (<[i := s']> a))
        | _, _ => undefined
        end);;
      c_free (statuses r);;
      mret (Some {| statuses := None; results_count := 0 |})
  | None => mret None
  end.

(** [map->keys[i]], the array being one the wrapper allocated. *)
Definition load_keys (p : option loc) : M (list (option string)) :=
  match p with
  | Some l => load_key_array l
  | None => undefined
  end.

Definition zvec_doc_map_free (map : option zvec_doc_map_t)
    : M (option zvec_doc_map_t) :=
  match map with
  | Some m =>
      for_loop (map_count m) 0 (λ i,
        ks ← load_keys (map_keys m);
        index ks i;;
        a ← load_doc_array (map_docs m);
        p ← index a i;
        match p with
        | Some d => clear_owned d;; zvec_doc_free (Some d)
        | None => mret ()
        end);;
      c_free (map_keys m);;
      c_free (map_docs m);;
      mret (Some {| map_keys := None; map_docs := None; map_count := 0 |})
  | None => mret None
  end.

(** ** query.cpp: the dense query vector, and the release of group results *)

Definition set_query_vector_ (b : list Z) (q : VectorQuery) :=
  {| field_name_ := field_name_ q; topk_ := topk_ q; filter_ := filter_ q;
     include_vector_ := include_vector_ q;
     include_doc_id_ := include_doc_id_ q;
     output_fields_ := output_fields_ q; query_params_ := query_params_ q;
     query_vector_ := b;
     query_sparse_indices_ := query_sparse_indices_ q;
     query_sparse_values_ := query_sparse_values_ q |}.

Definition zvec_vector_query_set_vector_fp32
    (q : option zvec_vector_query_t) (data : option (list c_float))
    (len : nat) : M (zvec_status_t * option zvec_vector_query_t) :=
  match q, data with
  | Some h, Some a =>
      if decide (len = O)
      then mret (invalid_argument "Invalid arguments", q)
      else
        src ← vector_of a len;
        mret (ok_status,
              Some {| query := set_query_vector_ (bytes_of src) (query h) |})
  | _, _ => mret (invalid_argument "Invalid arguments", q)
  end.

(** [groups[i]], on a group array the wrapper allocated. *)
Definition load_groups (p : option loc) : M (list zvec_group_result_t) :=
  match p with
  | Some l => load_group_array l
  | None => undefined
  end.

(** The group value is a string the wrapper duplicated; freeing it leaves
    the (stale) pointer in place, and [zvec_doc_list_free] zeroes the list
    inside the array element. *)
Definition zvec_group_results_free (results : option zvec_group_results_t)
    : M (option zvec_group_results_t) :=
  match results with
  | Some r =>
      for_loop (groups_count r) 0 (λ i,
        G ← load_groups (groups r);
        g ← index G i;
        lst ← zvec_doc_list_free (Some (group_docs g));
        match lst, groups r with
        | Some lst', Some arr =>
            set_group arr i {| group_by_value := group_by_value g;
                               group_docs := lst' |}
        | _, _ => undefined
        end);;
      c_free (groups r);;
      mret (Some {| groups := None; groups_count := 0 |})
  | None => mret None
  end.

(** ** collection.cpp, schema.cpp, options.cpp: the release of snapshots *)

Definition zvec_collection_stats_free (stats : option loc) : M unit :=
  match stats with
  | Some l =>
      o ← load l;
      match o with
      | OStats _ => dealloc l
      | _ => undefined
      end
  | None => mret ()
  end.

Definition zvec_collection_schema_free (schema : option loc) : M unit :=
  match schema with
  | Some l =>
      o ← load l;
      match o with
      | OSchema s => if schema_owned s then dealloc l else mret ()
      | _ => undefined
      end
  | None => mret ()
  end.

Definition zvec_collection_options_free (options : option loc) : M unit :=
  match options with
  | Some l =>
      o ← load l;
      match o with
      | OOptions _ => dealloc l
      | _ => undefined
      end
  | None => mret ()
  end.

(** ** collection.cpp: opening a collection *)

(** A factory call: the engine's state advances. *)
Definition call_factory {A}
    (factory : engine_state → Result A * engine_state) : M (Result A) := λ w,
  let '(r, e) := factory (engine w) in
  Done r {| heap := heap w; docs := docs w; engine := e; calls := calls w |}.

(** [options ? options->opts : zvec::CollectionOptions()]. *)
Definition options_or_default (options : option zvec_collection_options_t)
    : CollectionOptions :=
  match options with
  | Some o => opts o
  | None => default_CollectionOptions
  end.

(** The block every exit repeats: [if (out_status) *out_status = s]. *)
Definition put_status (out_status : option zvec_status_t) (s : zvec_status_t)
    : option zvec_status_t :=
  match out_status with
  | Some _ => Some s
  | None => None
  end.

(** The new handle is returned as its content, as collection handles are
    passed everywhere else; [out_status] is the content of the caller's
    status and comes back with the result. *)
Definition zvec_collection_create_and_open (path : option string)
    (schema : option zvec_collection_schema_t)
    (options : option zvec_collection_options_t)
    (out_status : option zvec_status_t)
    : M (option zvec_collection_t * option zvec_status_t) :=
  match path, schema ≫= schema_ptr with
  | Some p, Some sch =>
      result ← call_factory
                 (Collection_CreateAndOpen p sch
                    (options_or_default options));
      match result with
      | RValue c =>
          mret (Some {| collection_ptr := c |},
                put_status out_status ok_status)
      | RError e => mret (None, put_status out_status (to_c_status e))
      end
  | _, _ =>
      mret (None,
            put_status out_status (invalid_argument "Invalid path or schema"))
  end.

Definition zvec_collection_open (path : option string)
    (options : option zvec_collection_options_t)
    (out_status : option zvec_status_t)
    : M (option zvec_collection_t * option zvec_status_t) :=
  match path with
  | Some p =>
      result ← call_factory
                 (Collection_Open p (options_or_default options));
      match result with
      | RValue c =>
          mret (Some {| collection_ptr := c |},
                put_status out_status ok_status)
      | RError e => mret (None, put_status out_status (to_c_status e))
      end
  | None =>
      mret (None, put_status out_status (invalid_argument "Invalid path"))
  end.

(** ** Notions for the properties of these functions *)

(** A pointer a caller may pass for a [zvec_doc_t*] and have read through:
    null, or a live handle whose [Doc::Ptr], if it is not null, points to a
    live document. *)
Definition sound_handle (w : world) (h : option loc) : Prop :=
  match h with
  | Some l => ∃ d, handle_doc w (Some l) = Some d ∧
                   ∀ r, ptr d = Some r → is_Some (docs w !! r)
  | None => True
  end.

(** The [Doc::Ptr] behind a handle. *)
Definition handle_ptr (w : world) (h : option loc) : option dref :=
  handle_doc w h ≫= ptr.

(** [w'] is [w] but for the document behind [r], if any. *)
Definition same_but_document (r : option dref) (w w' : world) : Prop :=
  heap w' = heap w ∧ engine w' = engine w ∧ calls w' = calls w ∧
  dom (docs w') = dom (docs w) ∧
  ∀ r', r ≠ Some r' → docs w' !! r' = docs w !! r'.


(** Nothing of [w] is gone or changed in [w']. *)
Definition grows (w w' : world) : Prop :=
  (∀ l o, heap w !! l = Some o → heap w' !! l = Some o) ∧
  (∀ r D, docs w !! r = Some D → docs w' !! r = Some D).

(** Every object of [w] is still there in [w'], a handle with the pointer it
    had and, if it was flagged as not owned, still so; and nothing was
    allocated. *)
Definition kept_but_flags (w w' : world) : Prop :=
  (∀ l o, heap w !! l = Some o →
     match o with
     | ODoc d => ∃ d', heap w' !! l = Some (ODoc d') ∧ ptr d' = ptr d ∧
                       (owned d = false → owned d' = false)
     | _ => heap w' !! l = Some o
     end) ∧
  (∀ l, heap w !! l = None → heap w' !! l = None).

(** What the release functions leave in the caller's struct. *)
Definition zeroed_write_results : zvec_write_results_t :=
  {| statuses := None; results_count := 0 |}.

Definition zeroed_doc_list : zvec_doc_list_t :=
  {| list_docs := None; list_count := 0 |}.

Definition zeroed_doc_map : zvec_doc_map_t :=
  {| map_keys := None; map_docs := None; map_count := 0 |}.

Definition zeroed_group_results : zvec_group_results_t :=
  {| groups := None; groups_count := 0 |}.

(** What the release leaves of a group inside the array: its value pointer,
    and a zeroed list. *)
Definition released_group (g : zvec_group_result_t) : zvec_group_result_t :=
  {| group_by_value := group_by_value g; group_docs := zeroed_doc_list |}.

(** From the world [w1] a write left, [zvec_write_results_free] on the
    result it stored runs to its end, zeroes the result and gives back the
    heap of [w], the world before the write; releasing the zeroed result
    again does nothing. *)
Definition released_to (w w1 : world) (out' : option zvec_write_results_t)
    : Prop :=
  ∃ w2, zvec_write_results_free out' w1
          = Done (Some zeroed_write_results) w2 ∧
        heap w2 = heap w ∧ docs w2 = docs w1 ∧
        zvec_write_results_free (Some zeroed_write_results) w2
          = Done (Some zeroed_write_results) w2.

(** A write either leaves the heap alone and the out-parameter as it was,
    or returns OK and has added one fresh status array. *)
Definition wrote_or_not (method_failed : Prop) (r0 : zvec_write_results_t)
    (s : zvec_status_t) (out' : option zvec_write_results_t) (w w' : world)
    : Prop :=
  docs w' = docs w ∧
  ((heap w' = heap w ∧ out' = Some r0 ∧
    (code s = ZVEC_STATUS_OK → method_failed)) ∨
   (s = ok_status ∧
    ∃ arr sts, out' = Some {| statuses := Some arr;
                              results_count := length sts |} ∧
               heap w !! arr = None ∧
               heap w' = <[arr := OStatusArray sts]> (heap w))).

(** A map whose two arrays are on the heap, with [map_count] slots each and
    null or live handles in the second. *)
Definition doc_map_in (w : world) (m : zvec_doc_map_t)
    (ks : list (option string)) (hs : list (option loc)) : Prop :=
  ∃ keys arr, map_keys m = Some keys ∧ map_docs m = Some arr ∧
              heap w !! keys = Some (OKeyArray ks) ∧
              heap w !! arr = Some (ODocArray hs) ∧
              length ks = map_count m ∧ length hs = map_count m ∧
              Forall (valid_handle w) hs.

(** A group array on the heap whose lists lie, each in an array of its own,
    on the heap as well. *)
Definition groups_in (w : world) (res : zvec_group_results_t)
    (G : list zvec_group_result_t) (hss : list (list (option loc)))
    : Prop :=
  ∃ arr, groups res = Some arr ∧
         heap w !! arr = Some (OGroupArray G) ∧
         length G = groups_count res ∧
         Forall2 (λ g hs, doc_list_in w (group_docs g) hs) G hss ∧
         NoDup ((λ g, list_docs (group_docs g)) <$> G).

(** A handle flagged as owned, on a document that did not exist in [w0] and
    is [D] in [w]. *)
Definition copy_of (w0 w : world) (h : option loc) (D : Doc) : Prop :=
  ∃ l d r, h = Some l ∧ heap w !! l = Some (ODoc d) ∧ owned d = true ∧
           ptr d = Some r ∧ docs w0 !! r = None ∧ docs w !! r = Some D.

(** An owned handle whose pointer is the one [R] lists at its index. *)
Definition with_ptrs (R : list dref) (i : nat) (d : zvec_doc_t) : Prop :=
  owned d = true ∧ ∃ r, R !! i = Some r ∧ ptr d = Some r.

End Rest.

(** * Properties of the boundary layer *)

Section Proofs.

Context {Eng : Engine}.

(** ** Reasoning about runs *)

Lemma bind_Done {A B} (m : M A) (f : A → M B) w b w2 :
  (m ≫= f) w = Done b w2 → ∃ a w1, m w = Done a w1 ∧ f a w1 = Done b w2.
Proof.
  unfold mbind, M_bind. destruct (m w) as [a w1|]; [eauto|discriminate].
Qed.

Lemma bind_run {A B} (m : M A) (f : A → M B) w a w1 :
  m w = Done a w1 → (m ≫= f) w = f a w1.
Proof. intros Hm. unfold mbind, M_bind. by rewrite Hm. Qed.

Lemma ret_Done {A} (a b : A) w w' :
  mret (M := M) a w = Done b w' → a = b ∧ w = w'.
Proof. unfold mret, M_ret. intros [= -> ->]. done. Qed.

Lemma undefined_Done {A} (b : A) w w' : undefined w = Done b w' → False.
Proof. discriminate. Qed.

(** Take a finished run apart, one bind, return or branch at a time. *)
Ltac run_inv :=
  repeat match goal with
  | H : (_ ≫= _) _ = Done _ _ |- _ =>
      apply bind_Done in H as (? & ? & ? & H)
  | H : mret _ _ = Done _ _ |- _ =>
      apply ret_Done in H as [? ?]; simplify_eq
  | H : undefined _ = Done _ _ |- _ => destruct (undefined_Done _ _ _ H)
  | H : (if ?c then _ else _) _ = Done _ _ |- _ => destruct c
  | H : (match ?x with _ => _ end) _ = Done _ _ |- _ => destruct x eqn:?
  | H : (let '(_, _) := ?x in _) _ = Done _ _ |- _ => destruct x eqn:?
  end.

(** Reading a handle neither changes the world nor succeeds on anything but
    a live handle. *)
Lemma load_doc_run l d w :
  handle_doc w (Some l) = Some d → load_doc l w = Done d w.
Proof.
  unfold handle_doc, load_doc, load, mbind, M_bind. simpl.
  destruct (heap w !! l) as [[]|]; simpl; intros; by simplify_eq.
Qed.

Lemma load_doc_Done l d w w' :
  load_doc l w = Done d w' → w' = w ∧ handle_doc w (Some l) = Some d.
Proof.
  unfold handle_doc, load_doc, load, mbind, M_bind, mret, M_ret, undefined.
  simpl. destruct (heap w !! l) as [[]|]; simpl; intros; by simplify_eq.
Qed.

Lemma doc_and_ptr_run doc w :
  valid_handle w doc →
  doc_and_ptr doc w = Done (handle_doc w doc ≫= ptr) w.
Proof.
  destruct doc as [l|]; [|done]. intros [d Hd]. unfold doc_and_ptr.
  rewrite (bind_run _ _ _ _ _ (load_doc_run _ _ _ Hd)). rewrite Hd. done.
Qed.

Lemma doc_and_ptr_Done doc p w w' :
  doc_and_ptr doc w = Done p w' → w' = w ∧ p = handle_doc w doc ≫= ptr.
Proof.
  destruct doc as [l|]; unfold doc_and_ptr; intros Hrun; run_inv; [|done].
  match goal with Hl : load_doc _ _ = _ |- _ =>
    apply load_doc_Done in Hl as [-> Hd] end.
  by rewrite Hd.
Qed.

(** ** Argument validation *)

(** C10: with [count == 0], insert, upsert, update, delete and fetch return
    INVALID_ARGUMENT whatever the other arguments are; the world after the
    call is the world before it (no engine method was called, nothing was
    allocated) and the out-parameter keeps its content. *)
Theorem empty_batch_rejected (collection : option zvec_collection_t)
    (docs : option (list (option loc))) (pks : option (list (option string)))
    (out_results : option zvec_write_results_t)
    (out_map : option zvec_doc_map_t) (w : world) :
  let rejected := invalid_argument "Invalid arguments" in
  code rejected = ZVEC_STATUS_INVALID_ARGUMENT ∧
  zvec_collection_insert collection docs 0 out_results w
    = Done (rejected, out_results) w ∧
  zvec_collection_upsert collection docs 0 out_results w
    = Done (rejected, out_results) w ∧
  zvec_collection_update collection docs 0 out_results w
    = Done (rejected, out_results) w ∧
  zvec_collection_delete collection pks 0 out_results w
    = Done (rejected, out_results) w ∧
  zvec_collection_fetch collection pks 0 out_map w
    = Done (rejected, out_map) w.
Proof.
  simpl. split; [done|].
  unfold zvec_collection_insert, zvec_collection_upsert,
    zvec_collection_update, write_docs, zvec_collection_delete,
    zvec_collection_fetch.
  destruct (collection_and_ptr collection), docs, pks, out_map; done.
Qed.

(** C7: when the two counts differ, both sparse-vector setters return
    INVALID_ARGUMENT with the message built at the boundary, and leave the
    world (documents, heap, engine state, call log) and the query as they
    were. *)
Theorem sparse_count_mismatch_rejected (doc : option loc)
    (q : option zvec_vector_query_t) (field : option string)
    (indices : option (list Z)) (indices_count : nat)
    (values : option (list c_float)) (values_count : nat) (w : world) :
  indices_count ≠ values_count →
  valid_handle w doc →
  let rejected := invalid_argument "Invalid arguments" in
  code rejected = ZVEC_STATUS_INVALID_ARGUMENT ∧
  zvec_doc_set_sparse_vector_fp32 doc field indices indices_count
      values values_count w
    = Done rejected w ∧
  zvec_vector_query_set_sparse_vector_fp32 q indices indices_count
      values values_count w
    = Done (rejected, q) w.
Proof.
  intros Hne Hdoc. simpl. split; [done|]. split.
  - unfold zvec_doc_set_sparse_vector_fp32.
    rewrite (bind_run _ _ _ _ _ (doc_and_ptr_run _ _ Hdoc)).
    destruct (handle_doc w doc ≫= ptr), field, indices, values; try done.
    by destruct (decide (indices_count ≠ values_count)).
  - unfold zvec_vector_query_set_sparse_vector_fp32.
    destruct q, indices, values; try done.
    by destruct (decide (indices_count ≠ values_count)).
Qed.

(** C4, at the inputs where the code departs from it: the seven setters that
    go through [set_field_helper] dereference a null [doc] before any test
    and end in undefined behaviour, and [zvec_doc_set_string] builds a
    [std::string] from a null [value] on an otherwise valid call. *)
Theorem scalar_setters_null_arguments (field : option string) (b : bool)
    (z : Z) (l : loc) (r : dref) (f : string) (w : world) :
  zvec_doc_set_bool None field b w = Undefined ∧
  zvec_doc_set_int32 None field z w = Undefined ∧
  zvec_doc_set_int64 None field z w = Undefined ∧
  zvec_doc_set_uint32 None field z w = Undefined ∧
  zvec_doc_set_uint64 None field z w = Undefined ∧
  zvec_doc_set_float None field z w = Undefined ∧
  zvec_doc_set_double None field z w = Undefined ∧
  zvec_doc_set_string (Some l) (Some f) None
    (set_heap (insert l (ODoc {| ptr := Some r; owned := true;
                                 string_cache := "" |})) w)
    = Undefined.
Proof.
  repeat split; try done.
  unfold zvec_doc_set_string.
  erewrite bind_run; last first.
  { apply doc_and_ptr_run. eexists. unfold handle_doc. simpl.
    by rewrite lookup_insert_eq. }
  unfold handle_doc. simpl. by rewrite lookup_insert_eq.
Qed.

(** ** Out-parameters *)

(** C8: each Status-returning function with an out-parameter, whatever its
    other arguments, leaves the content of the out-parameter as it was
    whenever the code it returns is not OK. *)
Theorem out_parameter_untouched_on_failure
    (collection : option zvec_collection_t)
    (docs : option (list (option loc))) (pks : option (list (option string)))
    (count : nat) (q : option zvec_vector_query_t)
    (gq : option zvec_group_by_vector_query_t) :
  writes_only_on_OK (zvec_collection_path collection) ∧
  writes_only_on_OK (zvec_collection_schema collection) ∧
  writes_only_on_OK (zvec_collection_options collection) ∧
  writes_only_on_OK (zvec_collection_stats collection) ∧
  writes_only_on_OK (zvec_collection_insert collection docs count) ∧
  writes_only_on_OK (zvec_collection_upsert collection docs count) ∧
  writes_only_on_OK (zvec_collection_update collection docs count) ∧
  writes_only_on_OK (zvec_collection_delete collection pks count) ∧
  writes_only_on_OK (zvec_collection_query collection q) ∧
  writes_only_on_OK (zvec_collection_group_by_query collection gq) ∧
  writes_only_on_OK (zvec_collection_fetch collection pks count).
Proof.
  repeat split; intros out w s out' w' Hrun Hcode;
    unfold zvec_collection_path, zvec_collection_schema,
      zvec_collection_options, zvec_collection_stats,
      zvec_collection_insert, zvec_collection_upsert,
      zvec_collection_update, write_docs, zvec_collection_delete,
      return_write_results, zvec_collection_query,
      zvec_collection_group_by_query, zvec_collection_fetch in Hrun;
    run_inv; by simplify_eq.
Qed.

(** ** The document value model *)

Lemma read_Doc_run r D w : docs w !! r = Some D → read_Doc r w = Done D w.
Proof. intros HD. unfold read_Doc. by rewrite HD. Qed.

Lemma read_Doc_Done r D w w' :
  read_Doc r w = Done D w' → w' = w ∧ docs w !! r = Some D.
Proof. unfold read_Doc. destruct (docs w !! r); intros; by simplify_eq. Qed.

Lemma write_Doc_run r D D' w :
  docs w !! r = Some D →
  write_Doc r D' w = Done () (set_docs (insert r D') w).
Proof. intros HD. unfold write_Doc. by rewrite HD. Qed.

Lemma write_Doc_Done r D' u w w' :
  write_Doc r D' w = Done u w' → w' = set_docs (insert r D') w.
Proof. unfold write_Doc. destruct (docs w !! r); intros; by simplify_eq. Qed.

Lemma Doc_ptr_set_run r D f v w :
  docs w !! r = Some D →
  Doc_ptr_set r f v w = Done () (set_docs (insert r (Doc_set D f v)) w).
Proof.
  intros HD. unfold Doc_ptr_set.
  rewrite (bind_run _ _ _ _ _ (read_Doc_run _ _ _ HD)).
  by apply write_Doc_run with D.
Qed.

Lemma Doc_ptr_set_Done r f v u w w' :
  Doc_ptr_set r f v w = Done u w' →
  ∃ D, docs w !! r = Some D ∧ w' = set_docs (insert r (Doc_set D f v)) w.
Proof.
  unfold Doc_ptr_set. intros Hrun. run_inv.
  match goal with Hr : read_Doc _ _ = _ |- _ =>
    apply read_Doc_Done in Hr as [-> HD] end.
  apply write_Doc_Done in Hrun. eauto.
Qed.

Lemma vector_of_run {A} (a : list A) n w :
  (n ≤ length a)%nat → vector_of a n w = Done (take n a) w.
Proof. intros Hn. unfold vector_of. by rewrite decide_True. Qed.

Lemma vector_of_Done {A} (a v : list A) n w w' :
  vector_of a n w = Done v w' → w' = w ∧ v = take n a.
Proof. unfold vector_of. intros Hrun. run_inv. done. Qed.

Lemma std_string_Done p s w w' :
  std_string p w = Done s w' → w' = w ∧ p = Some s.
Proof. unfold std_string. intros Hrun. run_inv. done. Qed.

Lemma index_Done {A} (a : list A) i x w w' :
  index a i w = Done x w' → w' = w ∧ a !! i = Some x.
Proof. unfold index. intros Hrun. run_inv. done. Qed.

Lemma strings_of_Done a n : ∀ i v w w',
  strings_of a n i w = Done v w' →
  w' = w ∧ Some <$> v = take n (drop i a) ∧ length v = n.
Proof.
  induction n as [|n IH]; intros i v w w' Hrun; simpl in Hrun; run_inv.
  { by rewrite take_0. }
  repeat match goal with
  | Hx : index _ _ _ = _ |- _ => apply index_Done in Hx as [-> Hx]
  | Hx : std_string _ _ = _ |- _ => apply std_string_Done in Hx as [-> ->]
  | Hx : strings_of _ _ _ _ = _ |- _ => apply IH in Hx as (-> & Hx & Hlen)
  end.
  split_and!; [done| |by rewrite <- Hlen]. rewrite fmap_cons.
  erewrite drop_S by done. simpl. by f_equal.
Qed.

Lemma designated_Some w l D :
  designated w (Some l) = Some D →
  ∃ d r, handle_doc w (Some l) = Some d ∧ ptr d = Some r ∧
         docs w !! r = Some D.
Proof.
  unfold designated.
  destruct (handle_doc w (Some l)) as [d|] eqn:Hd; [|done]. simpl.
  destruct (ptr d) as [r|] eqn:Hr; [|done]. simpl. eauto.
Qed.

Lemma designated_intro w l d r D :
  handle_doc w (Some l) = Some d → ptr d = Some r → docs w !! r = Some D →
  designated w (Some l) = Some D.
Proof.
  intros Hd Hr HD. unfold designated. rewrite Hd. simpl. by rewrite Hr.
Qed.

(** Setting a field of the designated document changes that document in the
    store and nothing else. *)
Lemma designated_after_set w l d r D f v :
  handle_doc w (Some l) = Some d → ptr d = Some r →
  designated (set_docs (insert r (Doc_set D f v)) w) (Some l)
    = Some (Doc_set D f v).
Proof.
  intros Hd Hr. apply designated_intro with d r; [done..|].
  simpl. by rewrite lookup_insert_eq.
Qed.








Lemma doc_ptr_get_Done l p w w' :
  doc_ptr_get (Some l) w = Done p w' →
  w' = w ∧ p = handle_doc w (Some l) ≫= ptr.
Proof.
  unfold doc_ptr_get. intros Hrun. run_inv.
  match goal with Hl : load_doc _ _ = _ |- _ =>
    apply load_doc_Done in Hl as [-> Hd] end.
  by rewrite Hd.
Qed.

(** Undo the primitive steps of a finished run. *)
Ltac prim_inv :=
  repeat match goal with
  | H : doc_and_ptr _ _ = Done _ _ |- _ =>
      apply doc_and_ptr_Done in H as [-> H]
  | H : doc_ptr_get (Some _) _ = Done _ _ |- _ =>
      apply doc_ptr_get_Done in H as [-> H]
  | H : read_Doc _ _ = Done _ _ |- _ => apply read_Doc_Done in H as [-> H]
  | H : write_Doc _ _ _ = Done _ _ |- _ => apply write_Doc_Done in H as ->
  | H : Doc_ptr_set _ _ _ _ = Done _ _ |- _ =>
      apply Doc_ptr_set_Done in H as (? & ? & ->)
  | H : vector_of _ _ _ = Done _ _ |- _ =>
      apply vector_of_Done in H as [-> ->]
  | H : std_string _ _ = Done _ _ |- _ =>
      apply std_string_Done in H as [-> ->]
  | H : strings_of _ _ _ _ = Done _ _ |- _ =>
      apply strings_of_Done in H as [-> H]
  end.




Lemma zvec_doc_new_run w :
  ∃ h w',
    zvec_doc_new w = Done h w' ∧ designated w' (Some h) = Some Doc_new.
Proof.
  eexists _, _. split; [reflexivity|].
  unfold designated, handle_doc. simpl. rewrite lookup_insert_eq. simpl.
  by rewrite lookup_insert_eq.
Qed.


Lemma memcpy_run {A} (dst src : list A) n w :
  (n ≤ length dst)%nat → (n ≤ length src)%nat →
  memcpy dst src n w = Done (take n src ++ drop n dst) w.
Proof. intros Hd Hs. unfold memcpy. by rewrite decide_True. Qed.


Lemma zvec_doc_set_string_run l D f s w :
  designated w (Some l) = Some D →
  ∃ w', zvec_doc_set_string (Some l) (Some f) (Some s) w
          = Done ok_status w' ∧
        designated w' (Some l) = Some (Doc_set D f (VString s)).
Proof.
  intros (d & r & Hd & Hr & HD)%designated_Some.
  eexists. split.
  - unfold zvec_doc_set_string.
    rewrite (bind_run _ _ _ _ _
               (doc_and_ptr_run (Some l) w (mk_is_Some _ _ Hd))).
    rewrite Hd. simpl. rewrite Hr. simpl.
    unfold mbind at 1, M_bind at 1, mret at 1, M_ret at 1.
    by rewrite (bind_run _ _ _ _ _ (Doc_ptr_set_run _ _ _ _ _ HD)).
  - by apply designated_after_set with d.
Qed.

Lemma zvec_doc_get_vector_fp32_run l D f vec buf max_len w :
  designated w (Some l) = Some D →
  fields_ D !! f = Some (VVecFloat vec) →
  (0 < max_len ≤ length buf)%nat →
  zvec_doc_get_vector_fp32 (Some l) (Some f) (Some buf) max_len w
    = Done (length vec,
            Some (take (length vec `min` max_len) vec
                  ++ drop (length vec `min` max_len) buf)) w.
Proof.
  intros (d & r & Hd & Hr & HD)%designated_Some Hf [Hpos Hcap].
  unfold zvec_doc_get_vector_fp32.
  rewrite (bind_run _ _ _ _ _
             (doc_and_ptr_run (Some l) w (mk_is_Some _ _ Hd))).
  rewrite Hd. simpl. rewrite Hr. rewrite decide_True by done.
  rewrite (bind_run _ _ _ _ _ (read_Doc_run _ _ _ HD)).
  unfold Doc_get_vector_float. rewrite Hf.
  rewrite (bind_run _ _ _ _ _
             (memcpy_run buf vec (length vec `min` max_len)%nat w
                ltac:(lia) ltac:(lia))).
  done.
Qed.

(** C5, as the code has it: for a live handle whose document holds an fp32
    vector in field [f], a non-null buffer and a capacity [max_len] that is
    positive (and no larger than the buffer), the getter copies the first
    [min(L, max_len)] elements, leaves the rest of the buffer alone and
    returns the true length [L], truncated or not. *)
Theorem get_vector_fp32_reports_true_count (l : loc) (D : Doc) (f : string)
    (vec buf : list c_float) (max_len : nat) (w : world) :
  designated w (Some l) = Some D →
  fields_ D !! f = Some (VVecFloat vec) →
  (0 < max_len ≤ length buf)%nat →
  let copy_len := (length vec `min` max_len)%nat in
  zvec_doc_get_vector_fp32 (Some l) (Some f) (Some buf) max_len w
    = Done (length vec, Some (take copy_len vec ++ drop copy_len buf)) w.
Proof.
  intros HD Hf Hcap copy_len.
  by apply zvec_doc_get_vector_fp32_run with D.
Qed.


(** ** Loops *)

(** A loop whose body keeps an invariant, and runs to its end wherever the
    invariant holds, runs to its end and keeps the invariant. *)
Lemma for_loop_run (I : nat → world → Prop) body n : ∀ i w,
  I i w →
  (∀ j w, (i ≤ j < i + n)%nat → I j w →
          ∃ w', body j w = Done () w' ∧ I (S j) w') →
  ∃ w', for_loop n i body w = Done () w' ∧ I (i + n)%nat w'.
Proof.
  induction n as [|n IH]; intros i w Hi Hbody; simpl.
  - exists w. by rewrite Nat.add_0_r.
  - destruct (Hbody i w ltac:(lia) Hi) as (w1 & Hrun & Hi1).
    rewrite (bind_run _ _ _ _ _ Hrun).
    destruct (IH (S i) w1 Hi1) as (w' & Hloop & Hend).
    { intros j w2 Hj. apply Hbody. lia. }
    exists w'. split; [done|]. by rewrite <- Nat.add_succ_comm.
Qed.

(** The same for a loop that is known to have run to its end. *)
Lemma for_loop_Done (I : nat → world → Prop) body n : ∀ i w w',
  I i w →
  (∀ j w w', (i ≤ j < i + n)%nat → I j w →
             body j w = Done () w' → I (S j) w') →
  for_loop n i body w = Done () w' →
  I (i + n)%nat w'.
Proof.
  induction n as [|n IH]; intros i w w' Hi Hbody Hrun; simpl in Hrun.
  - run_inv. by rewrite Nat.add_0_r.
  - run_inv.
    match goal with Hb : body _ _ = Done ?u _ |- _ => destruct u end.
    rewrite <- Nat.add_succ_comm. eapply IH; [|intros j ? ? Hj|exact Hrun].
    + eapply Hbody; [|exact Hi|eassumption]. lia.
    + apply Hbody. lia.
Qed.

Lemma bind_assoc {A B C} (m : M A) (f : A → M B) (g : B → M C) w :
  ((m ≫= f) ≫= g) w = (m ≫= λ a, f a ≫= g) w.
Proof. unfold mbind, M_bind. by destruct (m w). Qed.

(** ** The heap *)

Lemma alloc_Done o l w w' :
  alloc o w = Done l w' →
  heap w !! l = None ∧ w' = set_heap (insert l o) w.
Proof.
  unfold alloc. intros [= <- <-]. split; [|done].
  apply not_elem_of_dom, is_fresh.
Qed.

Lemma load_Done l o w w' :
  load l w = Done o w' → w' = w ∧ heap w !! l = Some o.
Proof. unfold load. destruct (heap w !! l); intros; by simplify_eq. Qed.

Lemma load_run l o w : heap w !! l = Some o → load l w = Done o w.
Proof. intros Hl. unfold load. by rewrite Hl. Qed.

Lemma store_run l o o' w :
  heap w !! l = Some o → store l o' w = Done () (set_heap (insert l o') w).
Proof. intros Hl. unfold store. by rewrite Hl. Qed.

Lemma store_Done l o' u w w' :
  store l o' w = Done u w' →
  is_Some (heap w !! l) ∧ w' = set_heap (insert l o') w.
Proof. unfold store. destruct (heap w !! l) eqn:?; intros; by simplify_eq. Qed.

Lemma dealloc_run l o w :
  heap w !! l = Some o → dealloc l w = Done () (set_heap (delete l) w).
Proof. intros Hl. unfold dealloc. by rewrite Hl. Qed.

Lemma load_doc_array_run arr a w :
  heap w !! arr = Some (ODocArray a) →
  load_doc_array (Some arr) w = Done a w.
Proof.
  intros Harr. unfold load_doc_array.
  by rewrite (bind_run _ _ _ _ _ (load_run _ _ _ Harr)).
Qed.

Lemma load_doc_array_Done p a w w' :
  load_doc_array p w = Done a w' →
  w' = w ∧ ∃ arr, p = Some arr ∧ heap w !! arr = Some (ODocArray a).
Proof.
  unfold load_doc_array. intros Hrun. run_inv.
  match goal with Hl : load _ _ = _ |- _ =>
    apply load_Done in Hl as [-> Hl] end.
  eauto.
Qed.

Lemma index_run {A} (a : list A) i x w :
  a !! i = Some x → index a i w = Done x w.
Proof. intros Hi. unfold index. by rewrite Hi. Qed.

Lemma handle_doc_heap w l d :
  handle_doc w (Some l) = Some d ↔ heap w !! l = Some (ODoc d).
Proof.
  unfold handle_doc. simpl. destruct (heap w !! l) as [[]|]; naive_solver.
Qed.

(** ** Releasing a document list *)

(** One turn of the loop of [zvec_doc_list_free] on a live handle: the flag
    is cleared, and [zvec_doc_free] then finds nothing to delete. *)
Lemma clear_then_free_run l d w :
  handle_doc w (Some l) = Some d →
  (clear_owned l;; zvec_doc_free (Some l)) w
    = Done () (set_heap (insert l (ODoc {| ptr := ptr d; owned := false;
                                            string_cache := string_cache d |}))
                 w).
Proof.
  intros Hd. unfold clear_owned.
  pose proof (proj1 (handle_doc_heap _ _ _) Hd) as Hl.
  rewrite bind_assoc.
  rewrite (bind_run _ _ _ _ _ (load_doc_run _ _ _ Hd)).
  rewrite (bind_run _ _ _ _ _ (store_run _ _ _ _ Hl)).
  unfold zvec_doc_free. erewrite bind_run; last first.
  { apply load_doc_run, handle_doc_heap. simpl. apply lookup_insert_eq. }
  done.
Qed.


Lemma valid_handle_insert w l d h :
  valid_handle w h →
  valid_handle (set_heap (insert l (ODoc d)) w) h.
Proof.
  destruct h as [l'|]; [|done]. intros [d' Hd']. unfold valid_handle.
  destruct (decide (l' = l)) as [->|Hne].
  - exists d. apply handle_doc_heap. simpl. apply lookup_insert_eq.
  - exists d'. apply handle_doc_heap. simpl. rewrite lookup_insert_ne by done.
    by apply handle_doc_heap.
Qed.

Lemma doc_list_free_loop arr hs w0 :
  heap w0 !! arr = Some (ODocArray hs) →
  Forall (valid_handle w0) hs →
  ∃ w', for_loop (length hs) 0 (λ i,
          a ← load_doc_array (Some arr);
          p ← index a i;
          match p with
          | Some d => clear_owned d;; zvec_doc_free (Some d)
          | None => mret ()
          end) w0 = Done () w' ∧
        heap w' !! arr = Some (ODocArray hs) ∧
        docs w' = docs w0 ∧
        Forall (still_allocated w') hs.
Proof.
  intros Harr Hvalid.
  edestruct (for_loop_run (λ j w,
      heap w !! arr = Some (ODocArray hs) ∧
      docs w = docs w0 ∧
      Forall (valid_handle w) hs ∧
      Forall (still_allocated w) (take j hs))) as (w' & Hrun & Hend);
    [| |exists w'; split; [exact Hrun|]].
  - by rewrite take_0.
  - intros j w [_ Hj] (Ha & Hdocs & Hv & Hdone).
    destruct (lookup_lt_is_Some_2 hs j Hj) as [p Hp].
    rewrite (bind_run _ _ _ _ _ (load_doc_array_run _ _ _ Ha)).
    rewrite (bind_run _ _ _ _ _ (index_run _ _ _ _ Hp)).
    rewrite (take_S_r _ _ _ Hp).
    destruct p as [l|].
    + pose proof (Forall_lookup_1 _ _ _ _ Hv Hp) as [d Hd].
      rewrite (clear_then_free_run _ _ _ Hd). eexists. split; [done|].
      assert (Hne : arr ≠ l).
      { intros ->. apply handle_doc_heap in Hd. congruence. }
      simpl. split_and!.
      * by rewrite lookup_insert_ne.
      * done.
      * eapply Forall_impl; [exact Hv|]. intros h. apply valid_handle_insert.
      * apply Forall_app. split.
        -- eapply Forall_impl; [exact Hdone|]. intros [l'|] ; [|done].
           intros (d' & Hd' & Ho). simpl.
           destruct (decide (l' = l)) as [->|Hl].
           ++ eexists. rewrite lookup_insert_eq. done.
           ++ exists d'. by rewrite lookup_insert_ne.
        -- apply Forall_singleton. simpl. eexists.
           rewrite lookup_insert_eq. done.
    + eexists. split; [done|]. split_and!; try done.
      apply Forall_app. split; [done|]. by apply Forall_singleton.
  - destruct Hend as (Ha & Hdocs & _ & Hdone). simpl in Hdone.
    rewrite firstn_all in Hdone. done.
Qed.

Lemma zvec_doc_list_free_run (lst : zvec_doc_list_t)
    (hs : list (option loc)) (w : world) :
  doc_list_in w lst hs →
  ∃ w',
    zvec_doc_list_free (Some lst) w
      = Done (Some {| list_docs := None; list_count := 0 |}) w' ∧
    (∀ arr, list_docs lst = Some arr → heap w' !! arr = None) ∧
    docs w' = docs w ∧
    Forall (still_allocated w') hs.
Proof.
  intros (arr & Hlist & Harr & Hlen & Hvalid).
  destruct (doc_list_free_loop arr hs w Harr Hvalid)
    as (w1 & Hloop & Harr1 & Hdocs & Hkept).
  exists (set_heap (delete arr) w1). split_and!.
  - unfold zvec_doc_list_free. rewrite Hlist, <- Hlen.
    rewrite (bind_run _ _ _ _ _ Hloop).
    by rewrite (bind_run _ _ _ _ _ (dealloc_run _ _ _ Harr1)).
  - intros arr' Harr'. rewrite Hlist in Harr'. injection Harr' as <-.
    simpl. apply lookup_delete_eq.
  - done.
  - eapply Forall_impl; [exact Hkept|]. intros [l|]; [|done].
    intros (d & Hd & Ho). exists d. split; [|done]. simpl.
    rewrite lookup_delete_ne; [done|]. intros ->. congruence.
Qed.


(** ** Filling a result array with fresh handles *)

Lemma filled_kept P arr n j ex w w' :
  filled P arr n j w →
  arr ∉ ex →
  (∀ l d, l ∈ ex → heap w !! l ≠ Some (ODoc d)) →
  kept_except ex w w' →
  filled P arr n j w'.
Proof.
  intros (hs & Harr & Hlen & Hfill) Hex Hkind Hkept.
  exists hs. split_and!; [by apply Hkept|done|].
  intros i Hi. destruct (Hfill i Hi) as (l & d & Hl & Hd & HP).
  exists l, d. split_and!; [done| |done].
  apply Hkept; [|done]. intros Hin. by apply (Hkind l d).
Qed.

Lemma filled_0 P arr n w hs :
  heap w !! arr = Some (ODocArray hs) → length hs = n → filled P arr n 0 w.
Proof. intros Harr Hlen. exists hs. split_and!; [done..|]. lia. Qed.

(** One turn of a filling loop: a fresh handle object, stored in slot [j]. *)
Lemma new_doc_set_slot_run P arr n j p own w :
  filled P arr n j w →
  (j < n)%nat →
  P j {| ptr := p; owned := own; string_cache := "" |} →
  ∃ w', (doc ← new_doc p own; set_slot arr j (Some doc)) w = Done () w' ∧
        filled P arr n (S j) w' ∧
        docs w' = docs w ∧ engine w' = engine w ∧ calls w' = calls w ∧
        kept_except [arr] w w'.
Proof.
  intros (hs & Harr & Hlen & Hfill) Hj HP.
  set (l := fresh (dom (heap w))).
  assert (Hl : heap w !! l = None) by apply not_elem_of_dom, is_fresh.
  assert (Hne : arr ≠ l) by (intros ->; congruence).
  set (d := {| ptr := p; owned := own; string_cache := "" |}) in *.
  exists (set_heap (insert arr (ODocArray (<[j := Some l]> hs)))
            (set_heap (insert l (ODoc d)) w)).
  split_and!; try done.
  - unfold new_doc, set_slot.
    rewrite (bind_run _ _ _ _ _ (eq_refl : alloc (ODoc d) w = Done l _)).
    erewrite bind_run; last first.
    { apply load_doc_array_run. simpl. rewrite lookup_insert_ne by done.
      exact Harr. }
    rewrite decide_True by lia.
    erewrite store_run; [done|]. simpl. rewrite lookup_insert_ne by done.
    exact Harr.
  - exists (<[j := Some l]> hs). simpl. split_and!.
    + apply lookup_insert_eq.
    + by rewrite length_insert.
    + intros i Hi. destruct (decide (i = j)) as [->|Hij].
      * exists l, d. split_and!; [|by simplify_map_eq|done].
        apply list_lookup_insert_eq. lia.
      * destruct (Hfill i ltac:(lia)) as (l' & d' & Hl' & Hd' & HP').
        exists l', d'. split_and!; [|  |done].
        -- by rewrite list_lookup_insert_ne.
        -- rewrite !lookup_insert_ne; [done|intros ->; congruence..].
  - intros l' o Hl' Ho. simpl. apply not_elem_of_cons in Hl' as [Hl' _].
    rewrite !lookup_insert_ne; [done|intros ->; congruence..].
Qed.


Lemma query_loop_run ds arr hs w :
  heap w !! arr = Some (ODocArray hs) →
  length hs = length ds →
  ∃ w', for_loop (length ds) 0 (λ i,
          p ← index ds i;
          doc ← new_doc p false;
          set_slot arr i (Some doc)) w = Done () w' ∧
        filled (borrowed_from ds) arr (length ds) (length ds) w' ∧
        docs w' = docs w ∧ engine w' = engine w ∧ calls w' = calls w.
Proof.
  intros Harr Hlen.
  edestruct (for_loop_run (λ j w',
      filled (borrowed_from ds) arr (length ds) j w' ∧
      docs w' = docs w ∧ engine w' = engine w ∧ calls w' = calls w))
    as (w' & Hrun & Hend); [| |exists w'; split; [exact Hrun|exact Hend]].
  - split; [by apply filled_0 with hs|done].
  - intros j w1 [_ Hj] (Hfill & Hdocs & Heng & Hcalls).
    destruct (lookup_lt_is_Some_2 ds j Hj) as [p Hp].
    rewrite (bind_run _ _ _ _ _ (index_run _ _ _ _ Hp)).
    destruct (new_doc_set_slot_run _ _ _ _ p false _ Hfill Hj)
      as (w2 & Hrun & Hfill2 & Hdocs2 & Heng2 & Hcalls2 & _); [done|].
    exists w2. split; [done|]. split; [done|]. split_and!; congruence.
Qed.

Lemma set_key_run keys ks i pk w :
  heap w !! keys = Some (OKeyArray ks) →
  (i < length ks)%nat →
  set_key keys i pk w
    = Done () (set_heap (insert keys (OKeyArray (<[i := Some pk]> ks))) w).
Proof.
  intros Hkeys Hi. unfold set_key, load_key_array.
  rewrite bind_assoc. rewrite (bind_run _ _ _ _ _ (load_run _ _ _ Hkeys)).
  simpl. unfold mbind at 1, M_bind at 1, mret at 1, M_ret at 1.
  rewrite decide_True by done. by apply store_run with (OKeyArray ks).
Qed.

Lemma fetch_loop_run doc_map keys ks arr hs w :
  heap w !! keys = Some (OKeyArray ks) →
  length ks = length doc_map →
  heap w !! arr = Some (ODocArray hs) →
  length hs = length doc_map →
  ∃ w', for_loop (length doc_map) 0 (λ idx,
          '(pk, doc_ptr) ← index doc_map idx;
          set_key keys idx pk;;
          doc ← new_doc doc_ptr false;
          set_slot arr idx (Some doc)) w = Done () w' ∧
        filled (borrowed_from_map doc_map) arr (length doc_map)
          (length doc_map) w' ∧
        docs w' = docs w ∧ engine w' = engine w ∧ calls w' = calls w.
Proof.
  intros Hkeys Hklen Harr Hlen.
  edestruct (for_loop_run (λ j w',
      (∃ ks', heap w' !! keys = Some (OKeyArray ks') ∧
              length ks' = length doc_map) ∧
      filled (borrowed_from_map doc_map) arr (length doc_map) j w' ∧
      docs w' = docs w ∧ engine w' = engine w ∧ calls w' = calls w))
    as (w' & Hrun & Hend);
    [| |exists w'; split; [exact Hrun|apply Hend]].
  - split_and!; [by exists ks|by apply filled_0 with hs|done..].
  - intros j w1 [_ Hj] ((ks1 & Hk1 & Hkl1) & Hfill & Hdocs & Heng & Hcalls).
    destruct (lookup_lt_is_Some_2 doc_map j Hj) as [[pk p] Hp].
    rewrite (bind_run _ _ _ _ _ (index_run _ _ _ _ Hp)).
    rewrite (bind_run _ _ _ _ _
               (set_key_run keys ks1 j pk w1 Hk1 ltac:(lia))).
    set (w2 := set_heap (insert keys (OKeyArray (<[j:=Some pk]> ks1))) w1).
    assert (Hfill2 : filled (borrowed_from_map doc_map) arr
                       (length doc_map) j w2).
    { apply filled_kept with [keys] w1; [done| | |].
      - apply not_elem_of_cons. split; [|apply not_elem_of_nil].
        intros ->. destruct Hfill as (? & ? & _). congruence.
      - intros l d ->%list_elem_of_singleton. congruence.
      - intros l o Hl Ho. simpl. apply not_elem_of_cons in Hl as [Hl _].
        by rewrite lookup_insert_ne. }
    destruct (new_doc_set_slot_run _ _ _ _ p false _ Hfill2 Hj)
      as (w3 & Hrun & Hfill3 & Hdocs3 & Heng3 & Hcalls3 & Hkept).
    { split; [by exists pk|done]. }
    exists w3. split; [done|]. simpl in *.
    split_and!; [|done|congruence..].
    exists (<[j:=Some pk]> ks1). split; [|by rewrite length_insert].
    apply Hkept.
    + apply not_elem_of_cons. split; [|apply not_elem_of_nil].
      intros ->. destruct Hfill2 as (? & Ha & _). simpl in Ha.
      rewrite lookup_insert_eq in Ha. congruence.
    + simpl. apply lookup_insert_eq.
Qed.


Lemma call_Done {A} c (method : engine_state → Result A * engine_state)
    r w w1 :
  call c method w = Done r w1 →
  ∃ e, method (engine w) = (r, e) ∧ w1 = after_call c e w.
Proof.
  unfold call. destruct (method (engine w)) as [r' e]. intros [= <- <-].
  eauto.
Qed.

Lemma call_docs_Done {A} c
    (method : engine_state → gmap dref Doc →
              Result A * engine_state * gmap dref Doc) r w w1 :
  call_docs c method w = Done r w1 →
  ∃ e ds, method (engine w) (docs w) = (r, e, ds) ∧
          w1 = set_docs (λ _, ds) (after_call c e w).
Proof.
  unfold call_docs. destruct (method (engine w) (docs w)) as [[r' e] ds].
  intros [= <- <-]. eauto.
Qed.

Lemma fetch_Done collection pks count out s m w w' :
  (∀ c ks e ds, error_not_OK (Collection_Fetch c ks e ds).1.1) →
  zvec_collection_fetch collection pks count out w = Done (s, Some m) w' →
  code s = ZVEC_STATUS_OK →
  ∃ c cpp_pks doc_map e arr,
    collection_and_ptr collection = Some c ∧
    Collection_Fetch c cpp_pks (engine w) (docs w)
      = (RValue doc_map, e, docs w') ∧
    map_docs m = Some arr ∧ map_count m = length doc_map ∧
    filled (borrowed_from_map doc_map) arr (length doc_map)
      (length doc_map) w'.
Proof.
  intros Hengine Hrun Hcode. unfold zvec_collection_fetch in Hrun.
  run_inv; try discriminate Hcode.
  - match goal with Hs : strings_of _ _ _ _ = _ |- _ =>
      apply strings_of_Done in Hs as [-> _] end.
    match goal with Hc : call_docs _ _ _ = _ |- _ =>
      apply call_docs_Done in Hc as (e & ds & Hc & ->) end.
    repeat match goal with Ha : alloc _ _ = _ |- _ =>
      apply alloc_Done in Ha as [? ->] end.
    match goal with
    | Hl : for_loop (length ?dm) 0 _
             (set_heap (insert ?arr (ODocArray ?hs))
                (set_heap (insert ?keys (OKeyArray ?ks)) ?w0)) = Done ?u _,
      Hfresh : heap (set_heap (insert ?keys _) _) !! ?arr = None |- _ =>
        destruct u;
        assert (arr ≠ keys)
          by (intros ->; simpl in Hfresh;
              by rewrite lookup_insert_eq in Hfresh);
        destruct (fetch_loop_run dm keys ks arr hs
                    (set_heap (insert arr (ODocArray hs))
                       (set_heap (insert keys (OKeyArray ks)) w0)))
          as (w2 & Hloop & Hfill & Hdocs & _);
        [simpl; by simplify_map_eq|by rewrite length_replicate
        |simpl; by simplify_map_eq|by rewrite length_replicate|];
        rewrite Hloop in Hl; injection Hl as <-
    end.
    eexists _, _, _, _, _. split_and!; [done| |done|done|exact Hfill].
    rewrite Hdocs. simpl. eassumption.
  - match goal with Hs : strings_of _ _ _ _ = _ |- _ =>
      apply strings_of_Done in Hs as [-> _] end.
    match goal with Hc : call_docs _ _ _ = _ |- _ =>
      apply call_docs_Done in Hc as (e' & ds & Hc & ->) end.
    match goal with
    | Hc : Collection_Fetch ?c ?ks _ _ = (RError _, _, _) |- _ =>
        pose proof (Hengine c ks (engine w) (docs w)) as Hne;
        rewrite Hc in Hne
    end.
    by destruct Hne.
Qed.


Lemma query_Done collection q out s lst w w' :
  (∀ c vq e ds, error_not_OK (Collection_Query c vq e ds).1.1) →
  zvec_collection_query collection q out w = Done (s, Some lst) w' →
  code s = ZVEC_STATUS_OK →
  ∃ c h ds e arr,
    collection_and_ptr collection = Some c ∧ q = Some h ∧
    Collection_Query c (query h) (engine w) (docs w)
      = (RValue ds, e, docs w') ∧
    list_docs lst = Some arr ∧ list_count lst = length ds ∧
    filled (borrowed_from ds) arr (length ds) (length ds) w'.
Proof.
  intros Hengine Hrun Hcode. unfold zvec_collection_query in Hrun.
  run_inv; try discriminate Hcode;
    match goal with Hc : call_docs _ _ _ = _ |- _ =>
      apply call_docs_Done in Hc as (? & ? & Hc & ->) end.
  - repeat match goal with Ha : alloc _ _ = _ |- _ =>
      apply alloc_Done in Ha as [? ->] end.
    match goal with
    | Hl : for_loop (length ?l) 0 _
             (set_heap (insert ?arr (ODocArray ?hs)) ?w0) = Done ?u _ |- _ =>
        destruct u;
        destruct (query_loop_run l arr hs
                    (set_heap (insert arr (ODocArray hs)) w0))
          as (w2 & Hloop & Hfill & Hdocs & _);
        [simpl; by simplify_map_eq|by rewrite length_replicate|];
        rewrite Hloop in Hl; injection Hl as <-
    end.
    eexists _, _, _, _, _. split_and!; [done|done| |done|done|exact Hfill].
    rewrite Hdocs. simpl. eassumption.
  - match goal with
    | Hc : Collection_Query ?c ?vq _ _ = (RError _, _, _) |- _ =>
        pose proof (Hengine c vq (engine w) (docs w)) as Hne;
        rewrite Hc in Hne
    end.
    by destruct Hne.
Qed.

(** A list whose array was filled with handles is a well-formed list. *)
Lemma filled_doc_list_in P arr n w :
  filled P arr n n w →
  ∃ hs, doc_list_in w {| list_docs := Some arr; list_count := n |} hs ∧
        Forall is_Some hs.
Proof.
  intros (hs & Harr & Hlen & Hfill). exists hs. split.
  - exists arr. split_and!; [done..|].
    apply Forall_lookup_2. intros i h Hh.
    destruct (Hfill i) as (l & d & Hl & Hd & _).
    { rewrite <- Hlen. by apply lookup_lt_Some with h. }
    rewrite Hh in Hl. injection Hl as ->. exists d. by apply handle_doc_heap.
  - apply Forall_lookup_2. intros i h Hh.
    destruct (Hfill i) as (l & d & Hl & _).
    { rewrite <- Hlen. by apply lookup_lt_Some with h. }
    rewrite Hh in Hl. by injection Hl as ->.
Qed.

(** ** Group-by results *)

Lemma kept_except_trans ex w1 w2 w3 :
  kept_except ex w1 w2 → kept_except ex w2 w3 → kept_except ex w1 w3.
Proof. intros H12 H23 l o Hl Ho. apply H23; [done|]. by apply H12. Qed.

Lemma group_docs_loop_run (ds : list Doc) inner hs w :
  heap w !! inner = Some (ODocArray hs) →
  length hs = length ds →
  ∃ w', for_loop (length ds) 0 (λ j,
          d ← index ds j;
          r ← make_shared_Doc d;
          doc ← new_doc (Some r) true;
          set_slot inner j (Some doc)) w = Done () w' ∧
        filled owned_copy inner (length ds) (length ds) w' ∧
        engine w' = engine w ∧ calls w' = calls w ∧
        kept_except [inner] w w'.
Proof.
  intros Harr Hlen.
  edestruct (for_loop_run (λ j w',
      filled owned_copy inner (length ds) j w' ∧
      engine w' = engine w ∧ calls w' = calls w ∧ kept_except [inner] w w'))
    as (w' & Hrun & Hend); [| |exists w'; split; [exact Hrun|exact Hend]].
  - split_and!; [by apply filled_0 with hs|done..|by intros ? ?].
  - intros j w1 [_ Hj] (Hfill & Heng & Hcalls & Hkept).
    destruct (lookup_lt_is_Some_2 ds j Hj) as [d Hd].
    rewrite (bind_run _ _ _ _ _ (index_run _ _ _ _ Hd)).
    unfold make_shared_Doc at 1.
    unfold mbind at 1, M_bind at 1.
    match goal with |- context [set_docs ?f w1] =>
      set (w2 := set_docs f w1) end.
    destruct (new_doc_set_slot_run owned_copy inner (length ds) j
                (Some (fresh (dom (docs w1)))) true w2)
      as (w3 & Hrun & Hfill3 & _ & Heng3 & Hcalls3 & Hkept3);
      [exact Hfill|done|done|].
    exists w3. split; [exact Hrun|]. simpl in *.
    split_and!; [done|congruence..|].
    apply kept_except_trans with w1; [done|]. exact Hkept3.
Qed.


Lemma set_group_run arr G i g w :
  heap w !! arr = Some (OGroupArray G) →
  (i < length G)%nat →
  set_group arr i g w
    = Done () (set_heap (insert arr (OGroupArray (<[i := g]> G))) w).
Proof.
  intros Harr Hi. unfold set_group, load_group_array.
  rewrite bind_assoc. rewrite (bind_run _ _ _ _ _ (load_run _ _ _ Harr)).
  simpl. unfold mbind at 1, M_bind at 1, mret at 1, M_ret at 1.
  rewrite decide_True by done. by apply store_run with (OGroupArray G).
Qed.

Lemma groups_loop_run (gs : list GroupResult) arr G0 w :
  heap w !! arr = Some (OGroupArray G0) →
  length G0 = length gs →
  ∃ w', for_loop (length gs) 0 (λ i,
          g ← index gs i;
          inner ← alloc (ODocArray (replicate (length (docs_ g)) None));
          set_group arr i
            {| group_by_value := Some (group_by_value_ g);
               group_docs := {| list_docs := Some inner;
                                list_count := length (docs_ g) |} |};;
          for_loop (length (docs_ g)) 0 (λ j,
            d ← index (docs_ g) j;
            r ← make_shared_Doc d;
            doc ← new_doc (Some r) true;
            set_slot inner j (Some doc))) w = Done () w' ∧
        groups_filled gs arr (length gs) w' ∧
        engine w' = engine w ∧ calls w' = calls w.
Proof.
  intros Harr Hlen.
  edestruct (for_loop_run (λ j w',
      groups_filled gs arr j w' ∧
      engine w' = engine w ∧ calls w' = calls w))
    as (w' & Hrun & Hend); [| |exists w'; split; [exact Hrun|exact Hend]].
  - split; [|done]. exists G0. split_and!; [done..|]. lia.
  - intros i w1 [_ Hi] ((G & HG & HGlen & Hprev) & Heng & Hcalls).
    destruct (lookup_lt_is_Some_2 gs i Hi) as [g Hg].
    rewrite (bind_run _ _ _ _ _ (index_run _ _ _ _ Hg)).
    set (inner := fresh (dom (heap w1))).
    assert (Hfresh : heap w1 !! inner = None)
      by apply not_elem_of_dom, is_fresh.
    assert (Hne : arr ≠ inner) by (intros ->; congruence).
    set (slots := ODocArray (replicate (length (docs_ g)) None)).
    rewrite (bind_run _ _ _ _ _
               (eq_refl : alloc slots w1
                          = Done inner (set_heap (insert inner slots) w1))).
    set (entry := {| group_by_value := Some (group_by_value_ g);
                     group_docs := {| list_docs := Some inner;
                                      list_count := length (docs_ g) |} |}).
    erewrite bind_run; last first.
    { apply set_group_run with (G := G); [|lia].
      simpl. by rewrite lookup_insert_ne. }
    match goal with |- context [for_loop _ _ _ ?w0] => set (w2 := w0) end.
    destruct (group_docs_loop_run (docs_ g) inner
                (replicate (length (docs_ g)) None) w2)
      as (w3 & Hloop & Hfill & Heng3 & Hcalls3 & Hkept).
    { subst w2. simpl. rewrite lookup_insert_ne by done.
      apply lookup_insert_eq. }
    { apply length_replicate. }
    exists w3. split; [exact Hloop|]. subst w2. simpl in *.
    split_and!; [|congruence..].
    exists (<[i := entry]> G). split_and!.
    + apply Hkept; [|simpl; apply lookup_insert_eq].
      apply not_elem_of_cons. split; [done|apply not_elem_of_nil].
    + by rewrite length_insert.
    + intros i' Hi'. destruct (decide (i' = i)) as [->|Hii].
      * exists g, inner. split_and!; [done| |done].
        apply list_lookup_insert_eq. lia.
      * destruct (Hprev i' ltac:(lia)) as (g' & inner' & Hg' & HG' & Hf').
        exists g', inner'. split_and!; [done| |].
        -- by rewrite list_lookup_insert_ne.
        -- apply filled_kept with [inner; arr] w1; [done| | |].
           ++ destruct Hf' as (? & Hin & _).
              intros [->|[->|[]%elem_of_nil]%elem_of_cons]%elem_of_cons;
                congruence.
           ++ intros l d [->|[->|[]%elem_of_nil]%elem_of_cons]%elem_of_cons;
                congruence.
           ++ intros l o Hl Ho.
              apply not_elem_of_cons in Hl as [Hl1 Hl].
              apply not_elem_of_cons in Hl as [Hl2 _].
              apply Hkept.
              { apply not_elem_of_cons. split; [done|apply not_elem_of_nil]. }
              simpl. by rewrite !lookup_insert_ne.
Qed.

Lemma group_by_query_Done collection q out s res w w' :
  (∀ c gq e, error_not_OK (Collection_GroupByQuery c gq e).1) →
  zvec_collection_group_by_query collection q out w
    = Done (s, Some res) w' →
  code s = ZVEC_STATUS_OK →
  ∃ c h gs e arr,
    collection_and_ptr collection = Some c ∧ q = Some h ∧
    Collection_GroupByQuery c (group_query h) (engine w) = (RValue gs, e) ∧
    groups res = Some arr ∧ groups_count res = length gs ∧
    groups_filled gs arr (length gs) w'.
Proof.
  intros Hengine Hrun Hcode.
  unfold zvec_collection_group_by_query in Hrun.
  run_inv; try discriminate Hcode;
    match goal with Hc : call _ _ _ = _ |- _ =>
      apply call_Done in Hc as (? & Hc & ->) end.
  - repeat match goal with Ha : alloc _ _ = _ |- _ =>
      apply alloc_Done in Ha as [? ->] end.
    match goal with
    | Hl : for_loop (length ?l) 0 _
             (set_heap (insert ?arr (OGroupArray ?G)) ?w0) = Done ?u _ |- _ =>
        destruct u;
        destruct (groups_loop_run l arr G
                    (set_heap (insert arr (OGroupArray G)) w0))
          as (w2 & Hloop & Hfill & _);
        [simpl; by simplify_map_eq|by rewrite length_replicate|];
        rewrite Hloop in Hl; injection Hl as <-
    end.
    eexists _, _, _, _, _. split_and!; [done|done| |done|done|exact Hfill].
    eassumption.
  - match goal with
    | Hc : Collection_GroupByQuery ?c ?gq _ = (RError _, _) |- _ =>
        pose proof (Hengine c gq (engine w)) as Hne; rewrite Hc in Hne
    end.
    by destruct Hne.
Qed.


(** ** Write results *)

Lemma designated_bind w h :
  designated w h = (handle_doc w h ≫= ptr) ≫= (docs w !!.).
Proof. unfold designated. by destruct (handle_doc w h). Qed.

Lemma collect_docs_Done a n : ∀ i ds w w',
  collect_docs a n i w = Done ds w' →
  w' = w ∧ ds = omap (designated w) (take n (drop i a)) ∧
  length (take n (drop i a)) = n.
Proof.
  induction n as [|n IH]; intros i ds w w' Hrun; simpl in Hrun.
  { run_inv. by rewrite take_0. }
  apply bind_Done in Hrun as (h & w1 & Hh & Hrun).
  apply index_Done in Hh as [-> Hh].
  apply bind_Done in Hrun as (p & w1 & Hp & Hrun).
  apply doc_and_ptr_Done in Hp as [-> Hp].
  rewrite (drop_S _ _ _ Hh). simpl. rewrite designated_bind, <- Hp.
  destruct p as [r|]; simpl.
  - run_inv.
    match goal with Hr : read_Doc _ _ = _ |- _ =>
      apply read_Doc_Done in Hr as [-> Hr]; rewrite Hr end.
    match goal with Hc : collect_docs _ _ _ _ = _ |- _ =>
      apply IH in Hc as (-> & -> & Hlen) end.
    by rewrite Hlen.
  - apply IH in Hrun as (-> & -> & Hlen). by rewrite Hlen.
Qed.

Lemma return_write_results_Done result r0 s out' w w' :
  return_write_results result (Some r0) w = Done (s, out') w' →
  match result with
  | RValue rs =>
      s = ok_status ∧
      ∃ arr, out' = Some {| statuses := Some arr;
                            results_count := length rs |} ∧
             heap w' !! arr = Some (OStatusArray (to_c_status <$> rs)) ∧
             docs w' = docs w ∧ engine w' = engine w ∧ calls w' = calls w
  | RError e => s = to_c_status e ∧ out' = Some r0 ∧ w' = w
  end.
Proof.
  unfold return_write_results, put_write_results. intros Hrun.
  destruct result as [rs|e]; run_inv; [|done].
  match goal with Ha : alloc _ _ = _ |- _ =>
    apply alloc_Done in Ha as [? ->] end.
  split; [done|]. eexists. split_and!; [done| |done..].
  simpl. apply lookup_insert_eq.
Qed.

Lemma write_docs_Done tag method collection a count r0 s out' w w' :
  batch_contract method →
  write_docs tag method collection (Some a) count (Some r0) w
    = Done (s, out') w' →
  code s = ZVEC_STATUS_OK →
  ∃ c, collection_and_ptr collection = Some c ∧
       length (take count a) = count ∧
       write_results_of method c (omap (designated w) (take count a))
         w w' out'.
Proof.
  intros Hcontract Hrun Hcode. unfold write_docs in Hrun.
  destruct (collection_and_ptr collection) as [c|];
    [|run_inv; discriminate Hcode].
  destruct (decide (count = 0%nat)); [run_inv; discriminate Hcode|].
  apply bind_Done in Hrun as (cpp_docs & w1 & Hdocs & Hrun).
  apply collect_docs_Done in Hdocs as (-> & -> & Hlen).
  rewrite drop_0 in *.
  apply bind_Done in Hrun as (result & w1 & Hcall & Hrun).
  apply call_Done in Hcall as (e & Hcall & ->).
  apply return_write_results_Done in Hrun.
  pose proof (Hcontract c (omap (designated w) (take count a)) (engine w))
    as Hanswer.
  rewrite Hcall in Hanswer. simpl in Hanswer.
  exists c. split_and!; [done..|].
  destruct result as [rs|st].
  - destruct Hrun as (-> & arr & -> & Harr & _).
    exists rs, e, arr. split_and!; [done..|by rewrite Hanswer|done].
  - destruct Hrun as (-> & _). by destruct Hanswer.
Qed.

Lemma delete_Done collection a count r0 s out' w w' :
  batch_contract Collection_Delete →
  zvec_collection_delete collection (Some a) count (Some r0) w
    = Done (s, out') w' →
  code s = ZVEC_STATUS_OK →
  ∃ c keys, collection_and_ptr collection = Some c ∧
            take count a = Some <$> keys ∧ length keys = count ∧
            write_results_of Collection_Delete c keys w w' out'.
Proof.
  intros Hcontract Hrun Hcode. unfold zvec_collection_delete in Hrun.
  destruct (collection_and_ptr collection) as [c|];
    [|run_inv; discriminate Hcode].
  destruct (decide (count = 0%nat)); [run_inv; discriminate Hcode|].
  apply bind_Done in Hrun as (keys & w1 & Hkeys & Hrun).
  apply strings_of_Done in Hkeys as (-> & Hkeys & Hlen).
  rewrite drop_0 in Hkeys.
  apply bind_Done in Hrun as (result & w1 & Hcall & Hrun).
  apply call_Done in Hcall as (e & Hcall & ->).
  apply return_write_results_Done in Hrun.
  pose proof (Hcontract c keys (engine w)) as Hanswer.
  rewrite Hcall in Hanswer. simpl in Hanswer.
  exists c, keys. split_and!; [done..|].
  destruct result as [rs|st].
  - destruct Hrun as (-> & arr & -> & Harr & _).
    exists rs, e, arr. split_and!; [done..|by rewrite Hanswer|done].
  - destruct Hrun as (-> & _). by destruct Hanswer.
Qed.

(** ** Batch writes, result ownership and release *)

(** C1, as the code has it: when insert, upsert or update returns OK with a
    non-null [out_results], the engine has been given, in input order, the
    documents of those among the [count] handles that are non-null with a
    non-null document pointer, and [out_results] holds one status per
    submitted document, in that order, the count being theirs; null entries
    are skipped and get no status.  For delete every one of the [count]
    keys is submitted, so the count is [count].  The engine is assumed to
    answer with one status per element and never to report an error under
    the OK code. *)
Theorem write_results_one_per_submitted_element
    (collection : option zvec_collection_t) (docs : list (option loc))
    (pks : list (option string)) (count : nat) (r0 : zvec_write_results_t) :
  batch_contract Collection_Insert →
  batch_contract Collection_Upsert →
  batch_contract Collection_Update →
  batch_contract Collection_Delete →
  (∀ w s out' w',
     zvec_collection_insert collection (Some docs) count (Some r0) w
       = Done (s, out') w' →
     code s = ZVEC_STATUS_OK →
     ∃ c, collection_and_ptr collection = Some c ∧
          length (take count docs) = count ∧
          write_results_of Collection_Insert c
            (omap (designated w) (take count docs)) w w' out') ∧
  (∀ w s out' w',
     zvec_collection_upsert collection (Some docs) count (Some r0) w
       = Done (s, out') w' →
     code s = ZVEC_STATUS_OK →
     ∃ c, collection_and_ptr collection = Some c ∧
          length (take count docs) = count ∧
          write_results_of Collection_Upsert c
            (omap (designated w) (take count docs)) w w' out') ∧
  (∀ w s out' w',
     zvec_collection_update collection (Some docs) count (Some r0) w
       = Done (s, out') w' →
     code s = ZVEC_STATUS_OK →
     ∃ c, collection_and_ptr collection = Some c ∧
          length (take count docs) = count ∧
          write_results_of Collection_Update c
            (omap (designated w) (take count docs)) w w' out') ∧
  (∀ w s out' w',
     zvec_collection_delete collection (Some pks) count (Some r0) w
       = Done (s, out') w' →
     code s = ZVEC_STATUS_OK →
     ∃ c keys, collection_and_ptr collection = Some c ∧
               take count pks = Some <$> keys ∧ length keys = count ∧
               write_results_of Collection_Delete c keys w w' out') ∧
  (∀ w, Forall (λ h, is_Some (designated w h)) (take count docs) →
        length (omap (designated w) (take count docs))
          = length (take count docs)).
Proof.
  intros Hinsert Hupsert Hupdate Hdelete. split_and!.
  - intros w s out' w'. by apply write_docs_Done.
  - intros w s out' w'. by apply write_docs_Done.
  - intros w s out' w'. by apply write_docs_Done.
  - intros w s out' w'. by apply delete_Done.
  - intros w. generalize (take count docs). intros hs.
    induction 1 as [|h hs [D HD] _ IH]; [done|].
    simpl. rewrite HD. simpl. f_equal. apply IH.
Qed.

(** C2, as the code has it: after a fetch that returned OK, every entry of
    the returned map is a live handle that holds the very [Doc::Ptr] the
    engine answered with for that entry, not a copy, and is flagged as not
    owned.  That is the flag of the handles a query returns; the handles of
    a group-by query are the ones flagged as owned.  The engine is assumed
    never to report an error under the OK code. *)
Theorem fetch_returns_borrowed_handles
    (collection : option zvec_collection_t) :
  (∀ c ks e ds, error_not_OK (Collection_Fetch c ks e ds).1.1) →
  (∀ c vq e ds, error_not_OK (Collection_Query c vq e ds).1.1) →
  (∀ c gq e, error_not_OK (Collection_GroupByQuery c gq e).1) →
  (∀ pks count out s m w w',
     zvec_collection_fetch collection pks count out w
       = Done (s, Some m) w' →
     code s = ZVEC_STATUS_OK →
     ∃ c cpp_pks doc_map e arr,
       collection_and_ptr collection = Some c ∧
       Collection_Fetch c cpp_pks (engine w) (docs w)
         = (RValue doc_map, e, docs w') ∧
       map_docs m = Some arr ∧ map_count m = length doc_map ∧
       filled (borrowed_from_map doc_map) arr (length doc_map)
         (length doc_map) w') ∧
  (∀ q out s lst w w',
     zvec_collection_query collection q out w = Done (s, Some lst) w' →
     code s = ZVEC_STATUS_OK →
     ∃ c h ds e arr,
       collection_and_ptr collection = Some c ∧ q = Some h ∧
       Collection_Query c (query h) (engine w) (docs w)
         = (RValue ds, e, docs w') ∧
       list_docs lst = Some arr ∧ list_count lst = length ds ∧
       filled (borrowed_from ds) arr (length ds) (length ds) w') ∧
  (∀ q out s res w w',
     zvec_collection_group_by_query collection q out w
       = Done (s, Some res) w' →
     code s = ZVEC_STATUS_OK →
     ∃ c h gs e arr,
       collection_and_ptr collection = Some c ∧ q = Some h ∧
       Collection_GroupByQuery c (group_query h) (engine w)
         = (RValue gs, e) ∧
       groups res = Some arr ∧ groups_count res = length gs ∧
       groups_filled gs arr (length gs) w').
Proof.
  intros Hfetch Hquery Hgroup. split_and!.
  - intros pks count out s m w w'. by apply fetch_Done.
  - intros q out s lst w w'. by apply query_Done.
  - intros q out s res w w'. by apply group_by_query_Done.
Qed.

(** C3, at what the code does: on the list a query returned,
    [zvec_doc_list_free] runs to its end, frees the backing array, zeroes
    the list and leaves the documents alone, but every handle of the list is
    still on the heap afterwards: the loop clears [owned] and then calls
    [zvec_doc_free], which deletes owned handles only. *)
Theorem doc_list_free_keeps_wrappers (collection : option zvec_collection_t)
    (q : option zvec_vector_query_t) (out : option zvec_doc_list_t)
    (s : zvec_status_t) (lst : zvec_doc_list_t) (w w1 : world) :
  (∀ c vq e ds, error_not_OK (Collection_Query c vq e ds).1.1) →
  zvec_collection_query collection q out w = Done (s, Some lst) w1 →
  code s = ZVEC_STATUS_OK →
  ∃ hs w2,
    doc_list_in w1 lst hs ∧ Forall is_Some hs ∧
    zvec_doc_list_free (Some lst) w1
      = Done (Some {| list_docs := None; list_count := 0 |}) w2 ∧
    (∀ arr, list_docs lst = Some arr → heap w2 !! arr = None) ∧
    docs w2 = docs w1 ∧
    Forall (still_allocated w2) hs.
Proof.
  intros Hquery Hrun Hcode.
  destruct (query_Done _ _ _ _ _ _ _ Hquery Hrun Hcode)
    as (c & h & ds & e & arr & _ & _ & _ & Harr & Hcount & Hfill).
  destruct lst as [p n]. simpl in Harr, Hcount. subst p n.
  destruct (filled_doc_list_in _ _ _ _ Hfill) as (hs & Hin & Hsome).
  destruct (zvec_doc_list_free_run _ _ _ Hin)
    as (w2 & Hfree & Hgone & Hdocs & Hkept).
  by exists hs, w2.
Qed.

(** ** The status array of a write *)
Lemma load_status_array_run arr a w :
  heap w !! arr = Some (OStatusArray a) →
  load_status_array (Some arr) w = Done a w.
Proof.
  intros Harr. unfold load_status_array.
  by rewrite (bind_run _ _ _ _ _ (load_run _ _ _ Harr)).
Qed.

Lemma write_results_free_loop arr n : ∀ a w,
  heap w !! arr = Some (OStatusArray a) →
  length a = n →
  ∃ w', for_loop n 0 (λ i,
          a ← load_status_array (Some arr);
          s ← index a i;
          match zvec_status_free (Some s), Some arr with
          | Some s', Some arr => store arr (OStatusArray (<[i := s']> a))
          | _, _ => undefined
          end) w = Done () w' ∧
        (∃ a', heap w' = <[arr := OStatusArray a']> (heap w)) ∧
        docs w' = docs w ∧ engine w' = engine w ∧ calls w' = calls w.
Proof.
  intros a w Harr Hlen.
  edestruct (for_loop_run (λ j w',
      (∃ a', heap w' = <[arr := OStatusArray a']> (heap w) ∧ length a' = n) ∧
      docs w' = docs w ∧ engine w' = engine w ∧ calls w' = calls w))
    as (w' & Hrun & (a' & Hheap & _) & Hrest);
    [| |exists w'; split; [exact Hrun|split; [by exists a'|exact Hrest]]].
  - split; [|done]. exists a. split; [|done]. symmetry. by apply insert_id.
  - intros j w1 [_ Hj] ((a1 & Hheap & Hlen1) & Hdocs & Heng & Hcalls).
    assert (Ha1 : heap w1 !! arr = Some (OStatusArray a1))
      by (rewrite Hheap; apply lookup_insert_eq).
    destruct (lookup_lt_is_Some_2 a1 j ltac:(lia)) as [s Hs].
    rewrite (bind_run _ _ _ _ _ (load_status_array_run _ _ _ Ha1)).
    rewrite (bind_run _ _ _ _ _ (index_run _ _ _ _ Hs)).
    assert (∃ s', zvec_status_free (Some s) = Some s') as [s' ->]
      by (unfold zvec_status_free; destruct (message s); eauto).
    rewrite (store_run _ _ _ _ Ha1). eexists. split; [done|]. simpl.
    split_and!; [|done..]. eexists. split.
    + rewrite Hheap. apply insert_insert_eq.
    + by rewrite length_insert.
Qed.

Lemma write_results_free_run arr a w :
  heap w !! arr = Some (OStatusArray a) →
  ∃ w', zvec_write_results_free
          (Some {| statuses := Some arr; results_count := length a |}) w
          = Done (Some zeroed_write_results) w' ∧
        heap w' = delete arr (heap w) ∧
        docs w' = docs w ∧ engine w' = engine w ∧ calls w' = calls w.
Proof.
  intros Harr.
  destruct (write_results_free_loop arr (length a) a w Harr eq_refl)
    as (w1 & Hloop & (a' & Hheap) & Hdocs & Heng & Hcalls).
  exists (set_heap (delete arr) w1). split_and!; try done.
  - unfold zvec_write_results_free. simpl.
    rewrite (bind_run _ _ _ _ _ Hloop).
    erewrite bind_run; [done|]. apply dealloc_run with (OStatusArray a').
    rewrite Hheap. apply lookup_insert_eq.
  - simpl. rewrite Hheap. apply delete_insert_eq.
Qed.

(** What a call that wrote its results left on the heap. *)
Lemma return_write_results_heap result r0 s out' w w' :
  return_write_results result (Some r0) w = Done (s, out') w' →
  docs w' = docs w ∧ engine w' = engine w ∧ calls w' = calls w ∧
  match result with
  | RValue rs =>
      s = ok_status ∧
      ∃ arr, out' = Some {| statuses := Some arr;
                            results_count := length rs |} ∧
             heap w !! arr = None ∧
             heap w' = <[arr := OStatusArray (to_c_status <$> rs)]> (heap w)
  | RError e => s = to_c_status e ∧ out' = Some r0 ∧ heap w' = heap w
  end.
Proof.
  unfold return_write_results, put_write_results. intros Hrun.
  destruct result as [rs|e]; run_inv; [|done].
  match goal with Ha : alloc _ _ = _ |- _ =>
    apply alloc_Done in Ha as [? ->] end.
  do 4 (split; [done|]).
  match goal with Hf : heap _ !! ?l = None |- _ => by exists l end.
Qed.

Lemma write_docs_shape tag method collection a count r0 s out' w w' :
  write_docs tag method collection (Some a) count (Some r0) w
    = Done (s, out') w' →
  wrote_or_not (∃ c xs st e', method c xs (engine w) = (RError st, e') ∧
                              Status_code st = 0) r0 s out' w w'.
Proof.
  intros Hrun. unfold write_docs in Hrun.
  destruct (collection_and_ptr collection) as [c|];
    [|run_inv; split; [done|left; by split_and!]].
  destruct (decide (count = 0%nat));
    [run_inv; split; [done|left; by split_and!]|].
  apply bind_Done in Hrun as (cpp_docs & w1 & Hdocs & Hrun).
  apply collect_docs_Done in Hdocs as (-> & _ & _).
  apply bind_Done in Hrun as (result & w1 & Hcall & Hrun).
  apply call_Done in Hcall as (e & Hcall & ->).
  apply return_write_results_heap in Hrun as (Hd & _ & _ & Hrun).
  split; [done|]. destruct result as [rs|st].
  - right. destruct Hrun as (-> & arr & -> & Hfresh & Hheap).
    split; [done|]. exists arr, (to_c_status <$> rs).
    by rewrite length_fmap.
  - left. destruct Hrun as (-> & -> & Hheap). split_and!; [done..|].
    intros Hcode. by exists c, cpp_docs, st, e.
Qed.

Lemma delete_shape collection a count r0 s out' w w' :
  zvec_collection_delete collection (Some a) count (Some r0) w
    = Done (s, out') w' →
  wrote_or_not (∃ c xs st e',
                  Collection_Delete c xs (engine w) = (RError st, e') ∧
                  Status_code st = 0) r0 s out' w w'.
Proof.
  intros Hrun. unfold zvec_collection_delete in Hrun.
  destruct (collection_and_ptr collection) as [c|];
    [|run_inv; split; [done|left; by split_and!]].
  destruct (decide (count = 0%nat));
    [run_inv; split; [done|left; by split_and!]|].
  apply bind_Done in Hrun as (keys & w1 & Hkeys & Hrun).
  apply strings_of_Done in Hkeys as (-> & _ & _).
  apply bind_Done in Hrun as (result & w1 & Hcall & Hrun).
  apply call_Done in Hcall as (e & Hcall & ->).
  apply return_write_results_heap in Hrun as (Hd & _ & _ & Hrun).
  split; [done|]. destruct result as [rs|st].
  - right. destruct Hrun as (-> & arr & -> & Hfresh & Hheap).
    split; [done|]. exists arr, (to_c_status <$> rs).
    by rewrite length_fmap.
  - left. destruct Hrun as (-> & -> & Hheap). split_and!; [done..|].
    intros Hcode. by exists c, keys, st, e.
Qed.

Lemma wrote_released P r0 s out' w w' :
  wrote_or_not P r0 s out' w w' → ¬ P → code s = ZVEC_STATUS_OK →
  released_to w w' out'.
Proof.
  intros (Hdocs & [(_ & _ & HP)|(-> & arr & sts & -> & Hfresh & Hheap)])
    HnP Hcode; [by destruct HnP; apply HP|].
  destruct (write_results_free_run arr sts w')
    as (w2 & Hfree & Hheap2 & Hdocs2 & _).
  { rewrite Hheap. apply lookup_insert_eq. }
  exists w2. split_and!; [done| |done|done].
  rewrite Hheap2, Hheap, delete_insert_eq. by apply delete_id.
Qed.





(** X1: a write that returned OK with a non-null [out_results] is undone, on
    the heap, by [zvec_write_results_free]: the release runs to its end,
    zeroes the result, leaves the heap as it was before the write and the
    documents alone, and a second release of the zeroed result does nothing.
    The engine is assumed not to report an error with the OK code. *)
Theorem write_results_release_restores_heap
    (collection : option zvec_collection_t) (docs : list (option loc))
    (pks : list (option string)) (count : nat) (r0 : zvec_write_results_t) :
  (∀ c xs e, error_not_OK (Collection_Insert c xs e).1) →
  (∀ c xs e, error_not_OK (Collection_Upsert c xs e).1) →
  (∀ c xs e, error_not_OK (Collection_Update c xs e).1) →
  (∀ c xs e, error_not_OK (Collection_Delete c xs e).1) →
  (∀ w s out' w',
     zvec_collection_insert collection (Some docs) count (Some r0) w
       = Done (s, out') w' →
     code s = ZVEC_STATUS_OK → released_to w w' out') ∧
  (∀ w s out' w',
     zvec_collection_upsert collection (Some docs) count (Some r0) w
       = Done (s, out') w' →
     code s = ZVEC_STATUS_OK → released_to w w' out') ∧
  (∀ w s out' w',
     zvec_collection_update collection (Some docs) count (Some r0) w
       = Done (s, out') w' →
     code s = ZVEC_STATUS_OK → released_to w w' out') ∧
  (∀ w s out' w',
     zvec_collection_delete collection (Some pks) count (Some r0) w
       = Done (s, out') w' →
     code s = ZVEC_STATUS_OK → released_to w w' out').
Proof.
  intros Hi Hu Hp Hd.
  assert (Hno : ∀ {A} (method : cref → list A → engine_state →
                                Result (list Status) * engine_state) e0,
            (∀ c xs e, error_not_OK (method c xs e).1) →
            ¬ ∃ c xs st e', method c xs e0 = (RError st, e') ∧
                            Status_code st = 0).
  { intros A method e0 Hm (c & xs & st & e' & Hcall & Hst).
    pose proof (Hm c xs e0) as Hne. rewrite Hcall in Hne. by destruct Hne. }
  split_and!; intros w s out' w' Hrun Hcode.
  - eapply wrote_released; [by eapply write_docs_shape|by apply Hno|done].
  - eapply wrote_released; [by eapply write_docs_shape|by apply Hno|done].
  - eapply wrote_released; [by eapply write_docs_shape|by apply Hno|done].
  - eapply wrote_released; [by eapply delete_shape|by apply Hno|done].
Qed.


Lemma collect_docs_run a n : ∀ i w,
  (i + n ≤ length a)%nat →
  Forall (sound_handle w) (take n (drop i a)) →
  collect_docs a n i w
    = Done (omap (designated w) (take n (drop i a))) w.
Proof.
  induction n as [|n IH]; intros i w Hlen Hsound; simpl.
  { done. }
  destruct (lookup_lt_is_Some_2 a i ltac:(lia)) as [h Hh].
  rewrite (drop_S _ _ _ Hh) in *. simpl in *.
  apply Forall_cons in Hsound as [Hh1 Hrest].
  rewrite (bind_run _ _ _ _ _ (index_run _ _ _ _ Hh)).
  specialize (IH (S i) w ltac:(lia) Hrest).
  rewrite designated_bind.
  destruct h as [l|].
  - destruct Hh1 as (d & Hd & Hlive).
    rewrite (bind_run _ _ _ _ _
               (doc_and_ptr_run (Some l) w (mk_is_Some _ _ Hd))).
    rewrite Hd. simpl. destruct (ptr d) as [r|] eqn:Hr; simpl.
    + destruct (Hlive r eq_refl) as [D HD]. rewrite HD.
      rewrite (bind_run _ _ _ _ _ (read_Doc_run _ _ _ HD)).
      by rewrite (bind_run _ _ _ _ _ IH).
    + exact IH.
  - simpl. unfold mbind at 1, M_bind at 1. simpl. exact IH.
Qed.

(** X3: on a collection handle with a collection behind it, a positive
    [count] within the array, and handles that are null or live with a live
    document, insert, upsert and update run to their end and call the engine
    exactly once, with copies of the documents of those handles among the
    first [count] that are non-null and hold a non-null [Doc::Ptr], in order;
    the engine is left in the state that call answered with. *)
Theorem write_calls_engine_once_with_valid_documents
    (collection : option zvec_collection_t) (c : cref)
    (docs : list (option loc)) (count : nat)
    (out : option zvec_write_results_t) (w : world) :
  collection_and_ptr collection = Some c →
  count ≠ 0%nat →
  (count ≤ length docs)%nat →
  Forall (sound_handle w) (take count docs) →
  let submitted := omap (designated w) (take count docs) in
  (∃ s out' w',
     zvec_collection_insert collection (Some docs) count out w
       = Done (s, out') w' ∧
     calls w' = calls w ++ [CallInsert c submitted] ∧
     engine w' = (Collection_Insert c submitted (engine w)).2) ∧
  (∃ s out' w',
     zvec_collection_upsert collection (Some docs) count out w
       = Done (s, out') w' ∧
     calls w' = calls w ++ [CallUpsert c submitted] ∧
     engine w' = (Collection_Upsert c submitted (engine w)).2) ∧
  (∃ s out' w',
     zvec_collection_update collection (Some docs) count out w
       = Done (s, out') w' ∧
     calls w' = calls w ++ [CallUpdate c submitted] ∧
     engine w' = (Collection_Update c submitted (engine w)).2).
Proof.
  intros Hc Hcount Hlen Hsound submitted.
  assert (Hgen : ∀ tag method,
    ∃ s out' w',
      write_docs tag method collection (Some docs) count out w
        = Done (s, out') w' ∧
      calls w' = calls w ++ [tag c submitted] ∧
      engine w' = (method c submitted (engine w)).2).
  { intros tag method. unfold write_docs. rewrite Hc.
    rewrite decide_False by done.
    pose proof (collect_docs_run docs count 0 w ltac:(lia)) as Hcollect.
    rewrite drop_0 in Hcollect. specialize (Hcollect Hsound).
    rewrite (bind_run _ _ _ _ _ Hcollect). fold submitted.
    unfold call at 1. unfold mbind at 1, M_bind at 1.
    destruct (method c submitted (engine w)) as [result e] eqn:Hm.
    unfold return_write_results, put_write_results.
    destruct result as [rs|st], out as [r0|]; simpl;
      eexists _, _, _; (split; [reflexivity|]); done. }
  split_and!; apply Hgen.
Qed.

Lemma strings_of_null a n : ∀ i j w,
  (i ≤ j < i + n)%nat → a !! j = Some None →
  strings_of a n i w = Undefined.
Proof.
  induction n as [|n IH]; intros i j w Hj Hnull; [lia|]. simpl.
  unfold mbind at 1, M_bind at 1, index.
  destruct (a !! i) as [p|] eqn:Hp; [|done]. simpl.
  unfold mbind at 1, M_bind at 1.
  destruct p as [s|]; [|done]. simpl.
  destruct (decide (j = i)) as [->|Hne]; [congruence|].
  unfold mbind at 1, M_bind at 1.
  by rewrite (IH (S i) j w ltac:(lia) Hnull).
Qed.

(** X4: a null pointer among the first [count] keys makes delete and fetch
    build a [std::string] from null: undefined behaviour, before the engine
    is called. *)
Theorem null_key_is_undefined_behaviour
    (collection : option zvec_collection_t) (c : cref)
    (pks : list (option string)) (count j : nat)
    (out : option zvec_write_results_t) (m0 : zvec_doc_map_t) (w : world) :
  collection_and_ptr collection = Some c →
  (j < count)%nat →
  pks !! j = Some None →
  zvec_collection_delete collection (Some pks) count out w = Undefined ∧
  zvec_collection_fetch collection (Some pks) count (Some m0) w = Undefined.
Proof.
  intros Hc Hj Hnull.
  pose proof (strings_of_null pks count 0 j w ltac:(lia) Hnull) as Hs.
  unfold zvec_collection_delete, zvec_collection_fetch. rewrite Hc.
  rewrite !decide_False by lia.
  unfold mbind, M_bind. by rewrite Hs.
Qed.

(** ** The map of a fetch *)

Lemma fetch_loop_keys doc_map keys ks arr hs w :
  heap w !! keys = Some (OKeyArray ks) →
  length ks = length doc_map →
  heap w !! arr = Some (ODocArray hs) →
  length hs = length doc_map →
  ∃ w', for_loop (length doc_map) 0 (λ idx,
          '(pk, doc_ptr) ← index doc_map idx;
          set_key keys idx pk;;
          doc ← new_doc doc_ptr false;
          set_slot arr idx (Some doc)) w = Done () w' ∧
        heap w' !! keys = Some (OKeyArray ((Some ∘ fst) <$> doc_map)) ∧
        filled (borrowed_from_map doc_map) arr (length doc_map)
          (length doc_map) w' ∧
        docs w' = docs w ∧ engine w' = engine w ∧ calls w' = calls w ∧
        (∀ l o, l ≠ keys → l ≠ arr → heap w !! l = Some o →
                heap w' !! l = Some o).
Proof.
  intros Hkeys Hklen Harr Hlen.
  edestruct (for_loop_run (λ j w',
      (∃ ks', heap w' !! keys = Some (OKeyArray ks') ∧
              length ks' = length doc_map ∧
              take j ks' = (Some ∘ fst) <$> take j doc_map) ∧
      filled (borrowed_from_map doc_map) arr (length doc_map) j w' ∧
      docs w' = docs w ∧ engine w' = engine w ∧ calls w' = calls w ∧
      (∀ l o, l ≠ keys → l ≠ arr → heap w !! l = Some o →
              heap w' !! l = Some o)))
    as (w' & Hrun & Hend);
    [| |exists w'; split; [exact Hrun|]].
  - split_and!; [exists ks; by rewrite !take_0|by apply filled_0 with hs
                |done..].
  - intros j w1 [_ Hj]
      ((ks1 & Hk1 & Hkl1 & Hpre) & Hfill & Hdocs & Heng & Hcalls & Hframe).
    destruct (lookup_lt_is_Some_2 doc_map j Hj) as [[pk p] Hp].
    rewrite (bind_run _ _ _ _ _ (index_run _ _ _ _ Hp)).
    rewrite (bind_run _ _ _ _ _
               (set_key_run keys ks1 j pk w1 Hk1 ltac:(lia))).
    set (w2 := set_heap (insert keys (OKeyArray (<[j:=Some pk]> ks1))) w1).
    assert (Hka : keys ≠ arr).
    { intros ->. destruct Hfill as (? & ? & _). congruence. }
    assert (Hfill2 : filled (borrowed_from_map doc_map) arr
                       (length doc_map) j w2).
    { apply filled_kept with [keys] w1; [done| | |].
      - apply not_elem_of_cons. split; [done|apply not_elem_of_nil].
      - intros l d ->%list_elem_of_singleton. congruence.
      - intros l o Hl Ho. simpl. apply not_elem_of_cons in Hl as [Hl _].
        by rewrite lookup_insert_ne. }
    destruct (new_doc_set_slot_run _ _ _ _ p false _ Hfill2 Hj)
      as (w3 & Hrun & Hfill3 & Hdocs3 & Heng3 & Hcalls3 & Hkept).
    { split; [by exists pk|done]. }
    exists w3. split; [done|]. simpl in *.
    split_and!; [|done|congruence..|].
    + exists (<[j:=Some pk]> ks1). split_and!.
      * apply Hkept.
        -- apply not_elem_of_cons. split; [done|apply not_elem_of_nil].
        -- simpl. apply lookup_insert_eq.
      * by rewrite length_insert.
      * rewrite (take_S_r _ _ _ Hp), fmap_app. simpl.
        rewrite (take_S_r _ j (Some pk)); last first.
        { apply list_lookup_insert_eq. lia. }
        rewrite take_insert_ge by lia. by rewrite Hpre.
    + intros l o Hlk Hla Ho. apply Hkept.
      * apply not_elem_of_cons. split; [done|apply not_elem_of_nil].
      * simpl. rewrite lookup_insert_ne by done. by apply Hframe.
  - destruct Hend as ((ks' & Hk' & Hkl' & Hpre) & Hfill & Hrest).
    simpl in Hpre. split; [|done].
    rewrite <- Hkl', firstn_all in Hpre. rewrite Hpre in Hk'.
    by rewrite Hkl', firstn_all in Hk'.
Qed.

(** X5: after an OK fetch the two arrays of the map are parallel: the engine
    was asked for the first [count] keys, and for entry [i] of its answer slot
    [i] of [keys] holds the key and slot [i] of [docs] a live handle, flagged
    as not owned, on the entry's pointer; [count] is the number of entries,
    and nothing that was on the heap is gone or changed. *)
Theorem fetch_keys_parallel_to_documents
    (collection : option zvec_collection_t)
    (pks : option (list (option string))) (count : nat)
    (out : option zvec_doc_map_t) (s : zvec_status_t) (m : zvec_doc_map_t)
    (w w' : world) :
  (∀ c ks e ds, error_not_OK (Collection_Fetch c ks e ds).1.1) →
  zvec_collection_fetch collection pks count out w = Done (s, Some m) w' →
  code s = ZVEC_STATUS_OK →
  ∃ c a cpp_pks doc_map e ks hs,
    collection_and_ptr collection = Some c ∧
    pks = Some a ∧ Some <$> cpp_pks = take count a ∧
    Collection_Fetch c cpp_pks (engine w) (docs w)
      = (RValue doc_map, e, docs w') ∧
    doc_map_in w' m ks hs ∧
    map_count m = length doc_map ∧
    (∀ i pk p, doc_map !! i = Some (pk, p) →
       ks !! i = Some (Some pk) ∧
       ∃ l d, hs !! i = Some (Some l) ∧ handle_doc w' (Some l) = Some d ∧
              ptr d = p ∧ owned d = false) ∧
    (∀ l o, heap w !! l = Some o → heap w' !! l = Some o).
Proof.
  intros Hengine Hrun Hcode. unfold zvec_collection_fetch in Hrun.
  run_inv; try discriminate Hcode.
  - match goal with Hs : strings_of _ _ _ _ = _ |- _ =>
      apply strings_of_Done in Hs as (-> & ? & _) end.
    match goal with Hs : Some <$> _ = take _ (drop 0 _) |- _ =>
      rewrite drop_0 in Hs; rename Hs into Hpks end.
    match goal with Hc : call_docs _ _ _ = _ |- _ =>
      apply call_docs_Done in Hc as (e & ds & Hc & ->) end.
    repeat match goal with Ha : alloc _ _ = _ |- _ =>
      apply alloc_Done in Ha as [? ->] end.
    match goal with
    | Hl : for_loop (length ?dm) 0 _
             (set_heap (insert ?arr (ODocArray ?hs))
                (set_heap (insert ?keys (OKeyArray ?ks)) ?w0)) = Done ?u _,
      Hfresh : heap (set_heap (insert ?keys _) _) !! ?arr = None,
      Hfresh0 : heap _ !! ?keys = None |- _ =>
        destruct u;
        assert (Hak : arr ≠ keys)
          by (intros ->; simpl in Hfresh;
              by rewrite lookup_insert_eq in Hfresh);
        destruct (fetch_loop_keys dm keys ks arr hs
                    (set_heap (insert arr (ODocArray hs))
                       (set_heap (insert keys (OKeyArray ks)) w0)))
          as (w2 & Hloop & Hk & Hfill & Hdocs & _ & _ & Hframe);
        [simpl; by simplify_map_eq|by rewrite length_replicate
        |simpl; by simplify_map_eq|by rewrite length_replicate|];
        rewrite Hloop in Hl; injection Hl as <-;
        simpl in Hfresh, Hfresh0;
        rewrite lookup_insert_ne in Hfresh by done
    end.
    destruct Hfill as (hs' & Harr' & Hlen' & Hfill).
    eexists _, _, _, _, _, _, hs'.
    split_and!; [done|done|exact Hpks| |  |done| |].
    + rewrite Hdocs. simpl. eassumption.
    + eexists _, _. simpl. split_and!; [done|done|exact Hk|exact Harr'
        |by rewrite length_fmap|done|].
      apply Forall_lookup_2. intros i h Hi.
      destruct (Hfill i) as (l' & d & Hl & Hd & _).
      { rewrite <- Hlen'. by eapply lookup_lt_Some. }
      rewrite Hi in Hl. injection Hl as ->. exists d.
      by apply handle_doc_heap.
    + intros i pk p Hi. split.
      * rewrite list_lookup_fmap, Hi. done.
      * destruct (Hfill i) as (l' & d & Hl & Hd & (pk' & Hpk') & Hown).
        { by eapply lookup_lt_Some. }
        exists l', d. split_and!; [done|by apply handle_doc_heap| |done].
        rewrite Hi in Hpk'. by injection Hpk' as _ <-.
    + intros l' o Ho. apply Hframe.
      * intros ->. simpl in *. congruence.
      * intros ->. simpl in *. congruence.
      * simpl. rewrite !lookup_insert_ne; [done|intros ->; congruence..].
  - match goal with Hs : strings_of _ _ _ _ = _ |- _ =>
      apply strings_of_Done in Hs as [-> _] end.
    match goal with Hc : call_docs _ _ _ = _ |- _ =>
      apply call_docs_Done in Hc as (e' & ds & Hc & ->) end.
    match goal with
    | Hc : Collection_Fetch ?c ?ks _ _ = (RError _, _, _) |- _ =>
        pose proof (Hengine c ks (engine w) (docs w)) as Hne;
        rewrite Hc in Hne
    end.
    by destruct Hne.
Qed.

Lemma load_keys_run keys ks w :
  heap w !! keys = Some (OKeyArray ks) →
  load_keys (Some keys) w = Done ks w.
Proof.
  intros Hk. unfold load_keys, load_key_array.
  by rewrite (bind_run _ _ _ _ _ (load_run _ _ _ Hk)).
Qed.

Lemma doc_map_free_loop keys ks arr hs w0 :
  heap w0 !! keys = Some (OKeyArray ks) →
  length ks = length hs →
  heap w0 !! arr = Some (ODocArray hs) →
  Forall (valid_handle w0) hs →
  ∃ w', for_loop (length hs) 0 (λ i,
          ks ← load_keys (Some keys);
          index ks i;;
          a ← load_doc_array (Some arr);
          p ← index a i;
          match p with
          | Some d => clear_owned d;; zvec_doc_free (Some d)
          | None => mret ()
          end) w0 = Done () w' ∧
        heap w' !! keys = Some (OKeyArray ks) ∧
        heap w' !! arr = Some (ODocArray hs) ∧
        docs w' = docs w0 ∧ engine w' = engine w0 ∧ calls w' = calls w0 ∧
        Forall (still_allocated w') hs ∧
        (∀ l, is_Some (heap w' !! l) ↔ is_Some (heap w0 !! l)).
Proof.
  intros Hkeys Hklen Harr Hvalid.
  edestruct (for_loop_run (λ j w,
      heap w !! keys = Some (OKeyArray ks) ∧
      heap w !! arr = Some (ODocArray hs) ∧
      docs w = docs w0 ∧ engine w = engine w0 ∧ calls w = calls w0 ∧
      Forall (valid_handle w) hs ∧
      Forall (still_allocated w) (take j hs) ∧
      (∀ l, is_Some (heap w !! l) ↔ is_Some (heap w0 !! l))))
    as (w' & Hrun & Hend);
    [| |exists w'; split; [exact Hrun|]].
  - rewrite take_0. by split_and!.
  - intros j w [_ Hj] (Hk & Ha & Hdocs & Heng & Hcalls & Hv & Hdone & Hdom).
    destruct (lookup_lt_is_Some_2 hs j Hj) as [p Hp].
    destruct (lookup_lt_is_Some_2 ks j ltac:(lia)) as [k Hkj].
    rewrite (bind_run _ _ _ _ _ (load_keys_run _ _ _ Hk)).
    rewrite (bind_run _ _ _ _ _ (index_run _ _ _ _ Hkj)).
    rewrite (bind_run _ _ _ _ _ (load_doc_array_run _ _ _ Ha)).
    rewrite (bind_run _ _ _ _ _ (index_run _ _ _ _ Hp)).
    rewrite (take_S_r _ _ _ Hp).
    destruct p as [l|].
    + pose proof (Forall_lookup_1 _ _ _ _ Hv Hp) as [d Hd].
      rewrite (clear_then_free_run _ _ _ Hd). eexists. split; [done|].
      assert (Hne : arr ≠ l).
      { intros ->. apply handle_doc_heap in Hd. congruence. }
      assert (Hnk : keys ≠ l).
      { intros ->. apply handle_doc_heap in Hd. congruence. }
      simpl. split_and!; try done.
      * by rewrite lookup_insert_ne.
      * by rewrite lookup_insert_ne.
      * eapply Forall_impl; [exact Hv|]. intros h. apply valid_handle_insert.
      * apply Forall_app. split.
        -- eapply Forall_impl; [exact Hdone|]. intros [l'|] ; [|done].
           intros (d' & Hd' & Ho). simpl.
           destruct (decide (l' = l)) as [->|Hl].
           ++ eexists. rewrite lookup_insert_eq. done.
           ++ exists d'. by rewrite lookup_insert_ne.
        -- apply Forall_singleton. simpl. eexists.
           rewrite lookup_insert_eq. done.
      * intros l'. rewrite <- Hdom. destruct (decide (l' = l)) as [->|Hl].
        -- rewrite lookup_insert_eq. apply handle_doc_heap in Hd.
           rewrite Hd. split; eauto.
        -- by rewrite lookup_insert_ne.
    + eexists. split; [done|]. split_and!; try done.
      apply Forall_app. split; [done|]. by apply Forall_singleton.
  - destruct Hend as (Hk & Ha & Hdocs & Heng & Hcalls & _ & Hdone & Hdom).
    simpl in Hdone. rewrite firstn_all in Hdone. done.
Qed.

(** X6: on a well-formed map [zvec_doc_map_free] runs to its end, frees the
    two arrays and nothing else, zeroes the map, leaves the documents, the
    engine and the call log alone, and leaves every handle of the map
    allocated, flagged as not owned; releasing the zeroed map again does
    nothing. *)
Theorem doc_map_free_releases_arrays_only (m : zvec_doc_map_t)
    (ks : list (option string)) (hs : list (option loc)) (w : world) :
  doc_map_in w m ks hs →
  ∃ w',
    zvec_doc_map_free (Some m) w = Done (Some zeroed_doc_map) w' ∧
    (∀ l, is_Some (heap w' !! l) ↔
          is_Some (heap w !! l) ∧ map_keys m ≠ Some l ∧ map_docs m ≠ Some l) ∧
    docs w' = docs w ∧ engine w' = engine w ∧ calls w' = calls w ∧
    Forall (still_allocated w') hs ∧
    zvec_doc_map_free (Some zeroed_doc_map) w' = Done (Some zeroed_doc_map) w'.
Proof.
  intros (keys & arr & Hmk & Hmd & Hkeys & Harr & Hkl & Hhl & Hvalid).
  destruct (doc_map_free_loop keys ks arr hs w Hkeys ltac:(lia) Harr Hvalid)
    as (w1 & Hloop & Hk1 & Ha1 & Hdocs & Heng & Hcalls & Hkept & Hdom).
  assert (Hne : keys ≠ arr) by (intros ->; congruence).
  exists (set_heap (delete arr) (set_heap (delete keys) w1)). split_and!.
  - unfold zvec_doc_map_free. rewrite Hmk, Hmd, <- Hhl.
    rewrite (bind_run _ _ _ _ _ Hloop). unfold c_free.
    rewrite (bind_run _ _ _ _ _ (dealloc_run _ _ _ Hk1)).
    erewrite bind_run; [done|]. eapply dealloc_run. simpl.
    rewrite lookup_delete_ne by done. exact Ha1.
  - intros l. simpl. rewrite Hmk, Hmd, <- Hdom.
    destruct (decide (l = arr)) as [->|Hla].
    { rewrite lookup_delete_eq. split; [by intros [? ?]|].
      intros (_ & _ & H). by destruct H. }
    rewrite lookup_delete_ne by done.
    destruct (decide (l = keys)) as [->|Hlk].
    { rewrite lookup_delete_eq. split; [by intros [? ?]|].
      intros (_ & H & _). by destruct H. }
    rewrite lookup_delete_ne by done. split; [|by intros (? & _)].
    intros ?. split_and!; [done|congruence..].
  - done.
  - done.
  - done.
  - eapply Forall_impl; [exact Hkept|]. intros [l|]; [|done].
    intros (d & Hd & Ho). exists d. split; [|done]. simpl.
    rewrite !lookup_delete_ne; [done|intros ->; congruence..].
  - done.
Qed.

(** ** Getters, setters and the life of a document *)

Lemma sound_handle_valid w h : sound_handle w h → valid_handle w h.
Proof. destruct h; [|done]. intros (d & Hd & _). by exists d. Qed.

(** X7: on a handle that is null, or live with a live document, the five
    getters that store the value itself ([zvec_doc_get_bool], [_int32],
    [_int64], [_float] and [_double], the instances of [get_field]) are total
    and read-only: the world is as it was; a [false] return leaves the
    caller's variable as it was, a [true] return comes with the value the
    document holds for the field, and a null handle, field or [out_value]
    gives [false]. *)
Theorem scalar_getters_read_only {A} (get : Doc → string → option A)
    (doc : option loc) (field : option string) (out_value : option A)
    (w : world) :
  sound_handle w doc →
  ∃ b out',
    get_field get doc field out_value w = Done (b, out') w ∧
    (b = false → out' = out_value) ∧
    (b = true →
       ∃ D f v, designated w doc = Some D ∧ field = Some f ∧
                get D f = Some v ∧ out' = Some v ∧ is_Some out_value) ∧
    (doc = None ∨ field = None ∨ out_value = None → b = false).
Proof.
  intros Hsound. unfold get_field.
  rewrite (bind_run _ _ _ _ _
             (doc_and_ptr_run doc w (sound_handle_valid _ _ Hsound))).
  destruct doc as [l|].
  - destruct Hsound as (d & Hd & Hlive). rewrite Hd. simpl.
    destruct (ptr d) as [r|] eqn:Hr.
    + destruct (Hlive r eq_refl) as [D HD].
      destruct field as [f|], out_value as [old|];
        try (eexists false, _; split_and!; [done|done|done|done]).
      rewrite (bind_run _ _ _ _ _ (read_Doc_run _ _ _ HD)).
      destruct (get D f) as [v|] eqn:Hget.
      * eexists true, _. split_and!; [done|done| |by intros [?|[?|?]]].
        intros _. exists D, f, v. split_and!; try done.
        by apply designated_intro with d r.
      * eexists false, _. by split_and!.
    + eexists false, _. by split_and!.
  - eexists false, _. by split_and!.
Qed.

(** X8: whenever [zvec_doc_get_vector_fp32] returns, the world is as it was,
    the buffer has the length it had, nothing at or beyond index
    [min(n, max_len)] was written, [n] being the returned count, that index
    lies within the buffer, and a return of [0] leaves the buffer as it
    was. *)
Theorem get_vector_fp32_stays_in_buffer (doc : option loc)
    (field : option string) (buf : list c_float) (max_len n : nat)
    (out' : option (list c_float)) (w w' : world) :
  zvec_doc_get_vector_fp32 doc field (Some buf) max_len w
    = Done (n, out') w' →
  w' = w ∧
  ∃ buf', out' = Some buf' ∧ length buf' = length buf ∧
          drop (n `min` max_len) buf' = drop (n `min` max_len) buf ∧
          (n `min` max_len ≤ length buf)%nat ∧
          (n = 0%nat → buf' = buf).
Proof.
  intros Hrun. unfold zvec_doc_get_vector_fp32, memcpy in Hrun.
  run_inv; prim_inv;
    try (split; [done|]; exists buf; split_and!; [done..|lia|done]).
  split; [done|]. eexists. split; [done|].
  match goal with H : (_ ≤ length buf ∧ _)%nat |- _ =>
    destruct H as [Hb Hv] end.
  match goal with |- context [take ?k ?v ++ _] =>
    assert (Hk : length (take k v) = k) by (rewrite length_take; lia) end.
  split_and!.
  - rewrite length_app, length_drop, Hk. lia.
  - by rewrite drop_app_length'.
  - done.
  - intros Hn. apply length_zero_iff_nil in Hn. subst. simpl. by rewrite drop_0.
Qed.

Lemma same_but_document_refl r w : same_but_document r w w.
Proof. by split_and!. Qed.

Lemma same_but_document_set w doc r D0 D1 :
  Some r = handle_doc w doc ≫= ptr →
  docs w !! r = Some D0 →
  same_but_document (handle_ptr w doc) w (set_docs (insert r D1) w).
Proof.
  intros Hr HD. unfold handle_ptr. rewrite <- Hr. split_and!; try done.
  - simpl. by apply dom_insert_lookup_L.
  - intros r' Hne. simpl. rewrite lookup_insert_ne; [done|congruence].
Qed.

Lemma same_but_document_set' w l d r D0 D1 :
  handle_doc w (Some l) = Some d → ptr d = Some r →
  docs w !! r = Some D0 →
  same_but_document (handle_ptr w (Some l)) w (set_docs (insert r D1) w).
Proof.
  intros Hd Hr HD. eapply same_but_document_set; [|done].
  by rewrite Hd.
Qed.

Lemma run_setter_local doc c w w' :
  run_setter doc c w = Done () w' →
  same_but_document (handle_ptr w doc) w w'.
Proof.
  intros Hrun.
  destruct doc as [l|]; destruct c;
    unfold run_setter, zvec_doc_set_bool, zvec_doc_set_int32,
      zvec_doc_set_int64, zvec_doc_set_uint32, zvec_doc_set_uint64,
      zvec_doc_set_float, zvec_doc_set_double, set_field_helper,
      zvec_doc_set_string, zvec_doc_set_null, Doc_set_null,
      zvec_doc_set_vector_fp32, zvec_doc_set_vector_fp64,
      zvec_doc_set_vector_int8, zvec_doc_set_vector_int16,
      zvec_doc_set_vector_int32, zvec_doc_set_vector_int64,
      zvec_doc_set_array_int32, zvec_doc_set_array_int64,
      zvec_doc_set_array_float, zvec_doc_set_array_double,
      set_vector_field, zvec_doc_set_sparse_vector_fp32,
      zvec_doc_set_array_string, doc_ptr_get in Hrun;
    run_inv; prim_inv;
    repeat match goal with H : load_doc _ _ = Done _ _ |- _ =>
      apply load_doc_Done in H as [-> H] end;
    solve [ apply same_but_document_refl
          | eapply same_but_document_set; eauto
          | eapply same_but_document_set'; eauto ].
Qed.

Lemma handle_ptr_same r w w' h :
  same_but_document r w w' → handle_ptr w' h = handle_ptr w h.
Proof.
  intros (Hheap & _). unfold handle_ptr, handle_doc. by rewrite Hheap.
Qed.

Lemma same_but_document_trans r w1 w2 w3 :
  same_but_document r w1 w2 → same_but_document r w2 w3 →
  same_but_document r w1 w3.
Proof.
  intros (? & ? & ? & ? & H12) (? & ? & ? & ? & H23).
  split_and!; try congruence. intros r' Hne.
  rewrite H23, H12; done.
Qed.

Lemma run_setters_local doc cs : ∀ w w',
  run_setters doc cs w = Done () w' →
  same_but_document (handle_ptr w doc) w w'.
Proof.
  induction cs as [|c cs IH]; intros w w' Hrun; simpl in Hrun.
  - run_inv. apply same_but_document_refl.
  - run_inv.
    match goal with Hx : run_setter _ _ _ = Done ?u _ |- _ =>
      destruct u; apply run_setter_local in Hx as Hone end.
    apply IH in Hrun. rewrite (handle_ptr_same _ _ _ _ Hone) in Hrun.
    by eapply same_but_document_trans.
Qed.

(** X9: a sequence of setter calls on one handle changes at most the
    document behind that handle: heap, engine state and call log are as they
    were, no document is created or dropped, and every other document is
    unchanged.  So a handle on another document designates what it did, and a
    handle that holds the same [Doc::Ptr] sees the changes. *)
Theorem setters_change_one_document (doc other : option loc)
    (cs : list setter_call) (w w' : world) :
  run_setters doc cs w = Done () w' →
  same_but_document (handle_ptr w doc) w w' ∧
  (handle_ptr w other ≠ handle_ptr w doc →
   designated w' other = designated w other) ∧
  (handle_ptr w other = handle_ptr w doc →
   designated w' other = designated w' doc).
Proof.
  intros Hrun. apply run_setters_local in Hrun as Hsame.
  split; [done|].
  pose proof (handle_ptr_same _ _ _ other Hsame) as Ho.
  pose proof (handle_ptr_same _ _ _ doc Hsame) as Hd.
  unfold handle_ptr in *. rewrite !designated_bind. split.
  - intros Hne. rewrite Ho.
    destruct (handle_doc w other ≫= ptr) as [r|]; [|done]. simpl.
    destruct Hsame as (_ & _ & _ & _ & Hdocs). apply Hdocs. congruence.
  - intros Heq. by rewrite Ho, Hd, Heq.
Qed.

Lemma zvec_doc_new_Done h w w' :
  zvec_doc_new w = Done h w' →
  ∃ r, docs w !! r = None ∧ heap w !! h = None ∧
       w' = set_heap (insert h (ODoc {| ptr := Some r; owned := true;
                                        string_cache := "" |}))
              (set_docs (insert r Doc_new) w).
Proof.
  unfold zvec_doc_new, make_shared_Doc. intros Hrun. run_inv.
  match goal with H : Done _ _ = Done _ _ |- _ => injection H as <- <- end.
  match goal with H : alloc _ _ = _ |- _ =>
    apply alloc_Done in H as [Hfresh ->] end.
  eexists. split_and!; [|exact Hfresh|done].
  apply not_elem_of_dom, is_fresh.
Qed.

(** X10: [zvec_doc_new] returns a fresh handle on an empty document and
    disturbs nothing; [zvec_doc_free] on it restores the heap; after that the
    handle dangles: a second [zvec_doc_free], or [zvec_doc_has], on it is
    undefined behaviour. *)
Theorem doc_new_then_free (w : world) :
  ∃ h w1 w2,
    zvec_doc_new w = Done h w1 ∧
    heap w !! h = None ∧
    designated w1 (Some h) = Some Doc_new ∧
    (∀ l o, heap w !! l = Some o → heap w1 !! l = Some o) ∧
    (∀ r D, docs w !! r = Some D → docs w1 !! r = Some D) ∧
    zvec_doc_free (Some h) w1 = Done () w2 ∧
    heap w2 = heap w ∧
    zvec_doc_free (Some h) w2 = Undefined ∧
    (∀ field, zvec_doc_has (Some h) field w2 = Undefined).
Proof.
  destruct (zvec_doc_new_run w) as (h & w1 & Hnew & Hdes).
  destruct (zvec_doc_new_Done _ _ _ Hnew) as (r & Hr & Hh & ->).
  eexists h, _, _. split_and!; [exact Hnew|done|done| | | | | |].
  - intros l o Ho. simpl. rewrite lookup_insert_ne; [done|congruence].
  - intros r' D HD. simpl. rewrite lookup_insert_ne; [done|congruence].
  - unfold zvec_doc_free. erewrite bind_run; last first.
    { apply load_doc_run, handle_doc_heap. simpl. apply lookup_insert_eq. }
    simpl. eapply dealloc_run. simpl. apply lookup_insert_eq.
  - simpl. rewrite delete_insert_eq. by apply delete_id.
  - unfold zvec_doc_free, load_doc, load, mbind, M_bind. simpl.
    rewrite lookup_delete_eq. done.
  - intros field. unfold zvec_doc_has, doc_and_ptr, load_doc, load, mbind,
      M_bind. simpl. rewrite lookup_delete_eq. done.
Qed.

(** X11: two documents made by [zvec_doc_new] are independent: the handles
    differ, and whatever setters run on the first, the second still
    designates the empty document. *)
Theorem new_documents_are_independent (h1 h2 : loc)
    (cs : list setter_call) (w0 w1 w2 w3 : world) :
  zvec_doc_new w0 = Done h1 w1 →
  zvec_doc_new w1 = Done h2 w2 →
  run_setters (Some h1) cs w2 = Done () w3 →
  h1 ≠ h2 ∧ designated w3 (Some h2) = Some Doc_new.
Proof.
  intros Hn1 Hn2 Hrun.
  destruct (zvec_doc_new_Done _ _ _ Hn1) as (r1 & Hr1 & Hh1 & ->).
  destruct (zvec_doc_new_Done _ _ _ Hn2) as (r2 & Hr2 & Hh2 & ->).
  simpl in Hr2, Hh2.
  assert (Hh : h1 ≠ h2).
  { intros ->. by rewrite lookup_insert_eq in Hh2. }
  assert (Hr : r1 ≠ r2).
  { intros ->. by rewrite lookup_insert_eq in Hr2. }
  split; [done|].
  apply run_setters_local in Hrun as (Hheap & _ & _ & _ & Hdocs).
  rewrite designated_bind. unfold handle_doc. rewrite Hheap. simpl.
  rewrite lookup_insert_eq. simpl. rewrite Hdocs.
  - simpl. apply lookup_insert_eq.
  - unfold handle_ptr, handle_doc. simpl.
    rewrite lookup_insert_ne by done. rewrite lookup_insert_eq. simpl.
    congruence.
Qed.

(** ** Snapshots and query vectors *)

(** X12: the snapshot that an OK [zvec_collection_schema],
    [zvec_collection_options] or [zvec_collection_stats] stores through its
    out-parameter is a fresh object, and the matching free function releases
    it and restores the heap; the statistics carry the engine's [doc_count],
    a [memory_usage] of [0] and a null [json_details]. *)
Theorem snapshot_released_by_its_free
    (collection : option zvec_collection_t) (out : option (option loc))
    (s : zvec_status_t) (out' : option (option loc)) (w w' : world) :
  (∀ c e, error_not_OK (Collection_Schema c e).1) →
  (∀ c e, error_not_OK (Collection_Options c e).1) →
  (∀ c e, error_not_OK (Collection_Stats c e).1) →
  code s = ZVEC_STATUS_OK →
  (zvec_collection_schema collection out w = Done (s, out') w' →
   ∃ l w2, out' = Some (Some l) ∧ heap w !! l = None ∧
           zvec_collection_schema_free (Some l) w' = Done () w2 ∧
           heap w2 = heap w ∧ docs w2 = docs w) ∧
  (zvec_collection_options collection out w = Done (s, out') w' →
   ∃ l w2, out' = Some (Some l) ∧ heap w !! l = None ∧
           zvec_collection_options_free (Some l) w' = Done () w2 ∧
           heap w2 = heap w ∧ docs w2 = docs w) ∧
  (zvec_collection_stats collection out w = Done (s, out') w' →
   ∃ l w2 c st e,
     out' = Some (Some l) ∧ heap w !! l = None ∧
     collection_and_ptr collection = Some c ∧
     Collection_Stats c (engine w) = (RValue st, e) ∧
     heap w' !! l = Some (OStats {| doc_count := stats_doc_count st;
                                    memory_usage := 0;
                                    json_details := None |}) ∧
     zvec_collection_stats_free (Some l) w' = Done () w2 ∧
     heap w2 = heap w ∧ docs w2 = docs w).
Proof.
  intros Hsch Hopt Hsta Hcode.
  split_and!; intros Hrun;
    unfold zvec_collection_schema, zvec_collection_options,
      zvec_collection_stats in Hrun;
    run_inv; try discriminate Hcode;
    match goal with Hc : call _ _ _ = _ |- _ =>
      apply call_Done in Hc as (? & ? & ->) end.
  - match goal with Ha : alloc _ _ = _ |- _ =>
      apply alloc_Done in Ha as [Hfresh ->] end.
    eexists _, _. split; [done|]. split; [exact Hfresh|]. split.
    + unfold zvec_collection_schema_free. erewrite bind_run; last first.
      { apply load_run. simpl. apply lookup_insert_eq. }
      simpl. eapply dealloc_run. simpl. apply lookup_insert_eq.
    + simpl. split; [|done]. rewrite delete_insert_eq. by apply delete_id.
  - match goal with
    | Hc : Collection_Schema ?c _ = (RError _, _) |- _ =>
        pose proof (Hsch c (engine w)) as Hne; rewrite Hc in Hne
    end.
    by destruct Hne.
  - match goal with Ha : alloc _ _ = _ |- _ =>
      apply alloc_Done in Ha as [Hfresh ->] end.
    eexists _, _. split; [done|]. split; [exact Hfresh|]. split.
    + unfold zvec_collection_options_free. erewrite bind_run; last first.
      { apply load_run. simpl. apply lookup_insert_eq. }
      simpl. eapply dealloc_run. simpl. apply lookup_insert_eq.
    + simpl. split; [|done]. rewrite delete_insert_eq. by apply delete_id.
  - match goal with
    | Hc : Collection_Options ?c _ = (RError _, _) |- _ =>
        pose proof (Hopt c (engine w)) as Hne; rewrite Hc in Hne
    end.
    by destruct Hne.
  - match goal with Ha : alloc _ _ = _ |- _ =>
      apply alloc_Done in Ha as [Hfresh ->] end.
    eexists _, _, _, _, _.
    split; [done|]. split; [exact Hfresh|]. split; [done|].
    split; [eassumption|]. split; [simpl; apply lookup_insert_eq|]. split.
    + unfold zvec_collection_stats_free. erewrite bind_run; last first.
      { apply load_run. simpl. apply lookup_insert_eq. }
      simpl. eapply dealloc_run. simpl. apply lookup_insert_eq.
    + simpl. split; [|done]. rewrite delete_insert_eq. by apply delete_id.
  - match goal with
    | Hc : Collection_Stats ?c _ = (RError _, _) |- _ =>
        pose proof (Hsta c (engine w)) as Hne; rewrite Hc in Hne
    end.
    by destruct Hne.
Qed.

Lemma length_bytes_of (a : list Z) : length (bytes_of a) = (4 * length a)%nat.
Proof.
  unfold bytes_of. induction a as [|x a IH]; [done|].
  rewrite bind_cons, length_app, IH. simpl. lia.
Qed.

(** X13: the query-vector setters store four bytes per element.  The dense
    setter, for a positive [len] within the array, returns OK with a buffer
    of [4 * len] bytes and leaves the sparse buffers, the field name and
    [topk] alone; it rejects [len = 0].  The sparse setter, for equal counts
    within the arrays, zero included, returns OK with two buffers of [4 * n]
    bytes and leaves the dense vector alone. *)
Theorem query_vector_buffers_hold_four_bytes_per_element
    (h : zvec_vector_query_t) (a vs : list c_float) (ix : list Z)
    (len n : nat) (w : world) :
  (len ≤ length a)%nat → (n ≤ length ix)%nat → (n ≤ length vs)%nat →
  (len ≠ 0%nat →
   ∃ h', zvec_vector_query_set_vector_fp32 (Some h) (Some a) len w
           = Done (ok_status, Some h') w ∧
         length (query_vector_ (query h')) = (4 * len)%nat ∧
         query_sparse_indices_ (query h') = query_sparse_indices_ (query h) ∧
         query_sparse_values_ (query h') = query_sparse_values_ (query h) ∧
         field_name_ (query h') = field_name_ (query h) ∧
         topk_ (query h') = topk_ (query h)) ∧
  zvec_vector_query_set_vector_fp32 (Some h) (Some a) 0 w
    = Done (invalid_argument "Invalid arguments", Some h) w ∧
  (∃ h', zvec_vector_query_set_sparse_vector_fp32 (Some h) (Some ix) n
           (Some vs) n w
           = Done (ok_status, Some h') w ∧
         length (query_sparse_indices_ (query h')) = (4 * n)%nat ∧
         length (query_sparse_values_ (query h')) = (4 * n)%nat ∧
         query_vector_ (query h') = query_vector_ (query h) ∧
         field_name_ (query h') = field_name_ (query h) ∧
         topk_ (query h') = topk_ (query h)).
Proof.
  intros Hlen Hix Hvs. split_and!.
  - intros Hne. eexists. unfold zvec_vector_query_set_vector_fp32.
    rewrite decide_False by done.
    rewrite (bind_run _ _ _ _ _ (vector_of_run _ _ _ Hlen)).
    split_and!; try done. simpl query_vector_.
    rewrite length_bytes_of, length_take. by rewrite Nat.min_l.
  - done.
  - eexists. unfold zvec_vector_query_set_sparse_vector_fp32.
    rewrite decide_False by (intros H; by apply H).
    rewrite (bind_run _ _ _ _ _ (vector_of_run _ _ _ Hix)).
    rewrite (bind_run _ _ _ _ _ (vector_of_run _ _ _ Hvs)).
    split_and!; try done;
      [simpl query_sparse_indices_|simpl query_sparse_values_];
      rewrite length_bytes_of, length_take; by rewrite Nat.min_l.
Qed.

(** ** The release of group results *)

Lemma kept_but_flags_refl w : kept_but_flags w w.
Proof. split; [|done]. intros l [] Hl; eauto. Qed.

Lemma kept_but_flags_clear w l d :
  heap w !! l = Some (ODoc d) →
  kept_but_flags w
    (set_heap (insert l (ODoc {| ptr := ptr d; owned := false;
                                 string_cache := string_cache d |})) w).
Proof.
  intros Hl. split.
  - intros l' o Ho. simpl. destruct (decide (l' = l)) as [->|Hne].
    + rewrite lookup_insert_eq. rewrite Hl in Ho. injection Ho as <-. eauto.
    + rewrite lookup_insert_ne by done. destruct o; eauto.
  - intros l' Hn. simpl. rewrite lookup_insert_ne; [done|congruence].
Qed.

Lemma kept_but_flags_trans w1 w2 w3 :
  kept_but_flags w1 w2 → kept_but_flags w2 w3 → kept_but_flags w1 w3.
Proof.
  intros [H12 N12] [H23 N23]. split; [|by auto].
  intros l o Ho. specialize (H12 l o Ho).
  destruct o; try by apply (H23 l _ H12).
  destruct H12 as (d' & Hd' & Hp & Hown).
  destruct (H23 l _ Hd') as (d'' & Hd'' & Hp' & Hown').
  exists d''. split_and!; [done|congruence|auto].
Qed.

Lemma kept_but_flags_valid w w' h :
  kept_but_flags w w' → valid_handle w h → valid_handle w' h.
Proof.
  intros [Hk _]. destruct h as [l|]; [|done]. intros [d Hd].
  apply handle_doc_heap in Hd. destruct (Hk l _ Hd) as (d' & Hd' & _).
  exists d'. by apply handle_doc_heap.
Qed.

Lemma kept_but_flags_allocated w w' h :
  kept_but_flags w w' → still_allocated w h → still_allocated w' h.
Proof.
  intros [Hk _]. destruct h as [l|]; [|done]. intros (d & Hd & Hown).
  destruct (Hk l _ Hd) as (d' & Hd' & _ & Ho). exists d'. auto.
Qed.

Lemma doc_list_free_loop_frame arr hs w0 :
  heap w0 !! arr = Some (ODocArray hs) →
  Forall (valid_handle w0) hs →
  ∃ w', for_loop (length hs) 0 (λ i,
          a ← load_doc_array (Some arr);
          p ← index a i;
          match p with
          | Some d => clear_owned d;; zvec_doc_free (Some d)
          | None => mret ()
          end) w0 = Done () w' ∧
        docs w' = docs w0 ∧ engine w' = engine w0 ∧ calls w' = calls w0 ∧
        Forall (still_allocated w') hs ∧
        kept_but_flags w0 w'.
Proof.
  intros Harr Hvalid.
  edestruct (for_loop_run (λ j w,
      docs w = docs w0 ∧ engine w = engine w0 ∧ calls w = calls w0 ∧
      Forall (still_allocated w) (take j hs) ∧
      kept_but_flags w0 w)) as (w' & Hrun & Hend);
    [| |exists w'; split; [exact Hrun|]].
  - rewrite take_0. split_and!; try done. apply kept_but_flags_refl.
  - intros j w [_ Hj] (Hdocs & Heng & Hcalls & Hdone & Hkept).
    destruct (lookup_lt_is_Some_2 hs j Hj) as [p Hp].
    pose proof (proj1 Hkept arr _ Harr) as Ha. simpl in Ha.
    rewrite (bind_run _ _ _ _ _ (load_doc_array_run _ _ _ Ha)).
    rewrite (bind_run _ _ _ _ _ (index_run _ _ _ _ Hp)).
    rewrite (take_S_r _ _ _ Hp).
    destruct p as [l|].
    + pose proof (Forall_lookup_1 _ _ _ _ Hvalid Hp) as Hv.
      apply (kept_but_flags_valid _ _ _ Hkept) in Hv as [d Hd].
      rewrite (clear_then_free_run _ _ _ Hd). eexists. split; [done|].
      apply handle_doc_heap in Hd.
      pose proof (kept_but_flags_clear _ _ _ Hd) as Hstep.
      split_and!; try done.
      * apply Forall_app. split.
        -- eapply Forall_impl; [exact Hdone|]. intros h.
           by apply kept_but_flags_allocated.
        -- apply Forall_singleton. simpl. eexists.
           rewrite lookup_insert_eq. done.
      * by apply kept_but_flags_trans with w.
    + eexists. split; [done|]. split_and!; try done.
      apply Forall_app. split; [done|]. by apply Forall_singleton.
  - destruct Hend as (Hdocs & Heng & Hcalls & Hdone & Hkept).
    simpl in Hdone. rewrite firstn_all in Hdone. done.
Qed.

Lemma doc_list_free_frame (lst : zvec_doc_list_t) (hs : list (option loc))
    (w : world) :
  doc_list_in w lst hs →
  ∃ arr w1,
    list_docs lst = Some arr ∧
    zvec_doc_list_free (Some lst) w
      = Done (Some zeroed_doc_list) (set_heap (delete arr) w1) ∧
    docs w1 = docs w ∧ engine w1 = engine w ∧ calls w1 = calls w ∧
    Forall (still_allocated w1) hs ∧
    kept_but_flags w w1.
Proof.
  intros (arr & Hlist & Harr & Hlen & Hvalid).
  destruct (doc_list_free_loop_frame arr hs w Harr Hvalid)
    as (w1 & Hloop & Hdocs & Heng & Hcalls & Hall & Hkept).
  exists arr, w1. split_and!; try done.
  unfold zvec_doc_list_free. rewrite Hlist, <- Hlen.
  rewrite (bind_run _ _ _ _ _ Hloop).
  pose proof (proj1 Hkept arr _ Harr) as Ha. simpl in Ha.
  by rewrite (bind_run _ _ _ _ _ (dealloc_run _ _ _ Ha)).
Qed.

Lemma load_groups_run arr G w :
  heap w !! arr = Some (OGroupArray G) →
  load_groups (Some arr) w = Done G w.
Proof.
  intros Ha. unfold load_groups, load_group_array.
  by rewrite (bind_run _ _ _ _ _ (load_run _ _ _ Ha)).
Qed.

Lemma group_results_free_loop arr G hss w0 :
  heap w0 !! arr = Some (OGroupArray G) →
  Forall2 (λ g hs, doc_list_in w0 (group_docs g) hs) G hss →
  NoDup ((λ g, list_docs (group_docs g)) <$> G) →
  ∃ w', for_loop (length G) 0 (λ i,
          G ← load_groups (Some arr);
          g ← index G i;
          lst ← zvec_doc_list_free (Some (group_docs g));
          match lst, Some arr with
          | Some lst', Some arr =>
              set_group arr i {| group_by_value := group_by_value g;
                                 group_docs := lst' |}
          | _, _ => undefined
          end) w0 = Done () w' ∧
        heap w' !! arr = Some (OGroupArray (released_group <$> G)) ∧
        docs w' = docs w0 ∧ engine w' = engine w0 ∧ calls w' = calls w0 ∧
        Forall (Forall (still_allocated w')) hss ∧
        (∀ g inner, g ∈ G → list_docs (group_docs g) = Some inner →
                    heap w' !! inner = None).
Proof.
  intros Harr Hlists Hnodup.
  pose proof (Forall2_length _ _ _ Hlists) as Hlen.
  edestruct (for_loop_run (λ j w,
      heap w !! arr
        = Some (OGroupArray ((released_group <$> take j G) ++ drop j G)) ∧
      docs w = docs w0 ∧ engine w = engine w0 ∧ calls w = calls w0 ∧
      (∀ i g hs, (j ≤ i)%nat → G !! i = Some g → hss !! i = Some hs →
                 doc_list_in w (group_docs g) hs) ∧
      Forall (Forall (still_allocated w)) (take j hss) ∧
      (∀ i g inner, (i < j)%nat → G !! i = Some g →
                    list_docs (group_docs g) = Some inner →
                    heap w !! inner = None)))
    as (w' & Hrun & Hend);
    [| |exists w'; split; [exact Hrun|]].
  - rewrite !take_0, drop_0. simpl. split_and!; try done.
    + intros i g hs _ Hg Hhs.
      exact (Forall2_lookup_lr _ _ _ _ _ _ Hlists Hg Hhs).
    + intros; lia.
  - intros j w [_ Hj] (Ha & Hdocs & Heng & Hcalls & Hrest & Hdone & Hfreed).
    destruct (lookup_lt_is_Some_2 G j Hj) as [g Hg].
    destruct (lookup_lt_is_Some_2 hss j ltac:(lia)) as [hs Hhs].
    rewrite (bind_run _ _ _ _ _ (load_groups_run _ _ _ Ha)).
    assert (Hgj : ((released_group <$> take j G) ++ drop j G) !! j = Some g).
    { rewrite lookup_app_r; rewrite length_fmap, length_take; [|lia].
      rewrite lookup_drop. replace (j + (j - j `min` length G))%nat with j
        by lia. done. }
    rewrite (bind_run _ _ _ _ _ (index_run _ _ _ _ Hgj)).
    destruct (doc_list_free_frame _ _ _ (Hrest j g hs ltac:(lia) Hg Hhs))
      as (inner & w1 & Hinner & Hfree & Hdocs1 & Heng1 & Hcalls1 & Hall
          & Hkept).
    rewrite (bind_run _ _ _ _ _ Hfree).
    destruct (Hrest j g hs ltac:(lia) Hg Hhs)
      as (inner' & Hinner' & Hin & _).
    rewrite Hinner in Hinner'. injection Hinner' as <-.
    assert (Hai : arr ≠ inner) by (intros ->; congruence).
    pose proof (proj1 Hkept arr _ Ha) as Ha1. simpl in Ha1.
    assert (Ha2 : heap (set_heap (delete inner) w1) !! arr
                  = Some (OGroupArray
                            ((released_group <$> take j G) ++ drop j G))).
    { simpl. rewrite lookup_delete_ne by done. exact Ha1. }
    assert (Hjl : (j < length ((released_group <$> take j G)
                               ++ drop j G))%nat).
    { rewrite length_app, length_fmap, length_take, length_drop. lia. }
    cbv beta iota.
    rewrite (set_group_run arr _ j
               {| group_by_value := group_by_value g;
                  group_docs := zeroed_doc_list |} _ Ha2 Hjl).
    eexists. split; [done|]. simpl.
    assert (Hdel : ∀ l o, l ≠ arr → l ≠ inner →
              heap w1 !! l = Some o →
              <[arr:=OGroupArray
                       (<[j:=released_group g]>
                          ((released_group <$> take j G) ++ drop j G))]>
                (delete inner (heap w1)) !! l = Some o).
    { intros l o Hla Hli Ho.
      rewrite lookup_insert_ne by done. by rewrite lookup_delete_ne. }
    split_and!; try congruence.
    + rewrite lookup_insert_eq. do 2 f_equal.
      rewrite (take_S_r _ _ _ Hg), fmap_app. simpl.
      rewrite insert_app_r_alt; rewrite length_fmap, length_take; [|lia].
      replace (j - j `min` length G)%nat with 0%nat by lia.
      rewrite (drop_S _ _ _ Hg). simpl. by rewrite <- app_assoc.
    + intros i g' hs' Hi Hg' Hhs'.
      destruct (Hrest i g' hs' ltac:(lia) Hg' Hhs')
        as (inner' & Hinner' & Hin' & Hlen' & Hv').
      assert (Hne : inner' ≠ inner).
      { intros ->. assert (i = j); [|lia].
        eapply NoDup_lookup; [exact Hnodup| |].
        - rewrite list_lookup_fmap, Hg'. simpl. by rewrite Hinner'.
        - rewrite list_lookup_fmap, Hg. simpl. by rewrite Hinner. }
      exists inner'. split_and!; [done| |done|].
      * simpl. apply Hdel; [intros ->; congruence|done|].
        apply (proj1 Hkept inner' _ Hin').
      * eapply Forall_impl; [exact Hv'|]. intros [l|]; [|done].
        intros [d Hd]. apply handle_doc_heap in Hd.
        destruct (proj1 Hkept l _ Hd) as (d' & Hd' & _).
        exists d'. apply handle_doc_heap. simpl.
        apply Hdel; [intros ->; congruence|intros ->; congruence|done].
    + rewrite (take_S_r _ _ _ Hhs). apply Forall_app. split.
      * eapply Forall_impl; [exact Hdone|]. intros hs0 Hhs0.
        eapply Forall_impl; [exact Hhs0|]. intros [l|]; [|done].
        intros (d & Hd & Hown).
        destruct (proj1 Hkept l _ Hd) as (d' & Hd' & _ & Hown').
        exists d'. split; [|auto]. simpl.
        apply Hdel; [intros ->; congruence|intros ->; congruence|done].
      * apply Forall_singleton.
        eapply Forall_impl; [exact Hall|]. intros [l|]; [|done].
        intros (d & Hd & Hown). exists d. split; [|done]. simpl.
        apply Hdel; [intros ->; congruence| |done].
        intros ->. pose proof (proj1 Hkept inner _ Hin) as Hin1.
        simpl in Hin1. congruence.
    + intros i g' inner' Hi Hg' Hinner'.
      destruct (decide (i = j)) as [->|Hij].
      * rewrite Hg in Hg'. injection Hg' as <-.
        rewrite Hinner in Hinner'. injection Hinner' as <-.
        rewrite lookup_insert_ne by done. apply lookup_delete_eq.
      * pose proof (Hfreed i g' inner' ltac:(lia) Hg' Hinner') as Hnone.
        rewrite lookup_insert_ne by (intros ->; congruence).
        destruct (decide (inner' = inner)) as [->|Hne].
        -- apply lookup_delete_eq.
        -- rewrite lookup_delete_ne by done. by apply (proj2 Hkept).
  - destruct Hend as (Ha & Hdocs & Heng & Hcalls & _ & Hdone & Hfreed).
    simpl in *. rewrite firstn_all, drop_all, app_nil_r in Ha.
    rewrite Hlen, firstn_all in Hdone.
    split_and!; try done.
    intros g inner [i Hi]%list_elem_of_lookup Hinner.
    apply (Hfreed i g inner); [|done..].
    by eapply lookup_lt_Some.
Qed.

(** X16: on a well-formed group array, [zvec_group_results_free] runs to
    its end, frees the group array and the array of every group, zeroes the
    result, leaves documents, engine and call log alone, and leaves every
    handle of every group allocated, flagged as not owned. *)
Theorem group_results_free_releases_arrays_only
    (res : zvec_group_results_t) (G : list zvec_group_result_t)
    (hss : list (list (option loc))) (w : world) :
  groups_in w res G hss →
  ∃ w',
    zvec_group_results_free (Some res) w
      = Done (Some zeroed_group_results) w' ∧
    (∀ arr, groups res = Some arr → heap w' !! arr = None) ∧
    (∀ g inner, g ∈ G → list_docs (group_docs g) = Some inner →
                heap w' !! inner = None) ∧
    docs w' = docs w ∧ engine w' = engine w ∧ calls w' = calls w ∧
    Forall (Forall (still_allocated w')) hss.
Proof.
  intros (arr & Hres & Harr & Hlen & Hlists & Hnodup).
  destruct (group_results_free_loop arr G hss w Harr Hlists Hnodup)
    as (w1 & Hloop & Ha1 & Hdocs & Heng & Hcalls & Hall & Hfreed).
  exists (set_heap (delete arr) w1). split_and!; try done.
  - unfold zvec_group_results_free. rewrite Hres, <- Hlen.
    rewrite (bind_run _ _ _ _ _ Hloop). unfold c_free.
    by rewrite (bind_run _ _ _ _ _ (dealloc_run _ _ _ Ha1)).
  - intros arr' Harr'. rewrite Hres in Harr'. injection Harr' as <-.
    simpl. apply lookup_delete_eq.
  - intros g inner Hg Hinner. simpl.
    destruct (decide (inner = arr)) as [->|Hne]; [apply lookup_delete_eq|].
    rewrite lookup_delete_ne by done. by eapply Hfreed.
  - eapply Forall_impl; [exact Hall|]. intros hs Hhs.
    eapply Forall_impl; [exact Hhs|]. intros [l|]; [|done].
    intros (d & Hd & Hown). exists d. split; [|done]. simpl.
    rewrite lookup_delete_ne; [done|]. intros ->. congruence.
Qed.

(** ** The results of a group-by query *)

Lemma filled_mono_heap (P Q : nat → zvec_doc_t → Prop) arr n j w w' :
  filled P arr n j w →
  heap w' = heap w →
  (∀ i d, (i < j)%nat → P i d → Q i d) →
  filled Q arr n j w'.
Proof.
  intros (hs & Harr & Hlen & Hfill) Hheap HPQ. exists hs. rewrite Hheap.
  split_and!; [done..|]. intros i Hi.
  destruct (Hfill i Hi) as (l & d & Hl & Hd & HP). eauto 10.
Qed.

Lemma group_docs_loop_copies (ds : list Doc) inner hs w :
  heap w !! inner = Some (ODocArray hs) →
  length hs = length ds →
  ∃ w' R, for_loop (length ds) 0 (λ j,
            d ← index ds j;
            r ← make_shared_Doc d;
            doc ← new_doc (Some r) true;
            set_slot inner j (Some doc)) w = Done () w' ∧
          length R = length ds ∧
          filled (with_ptrs R) inner (length ds) (length ds) w' ∧
          (∀ k r, R !! k = Some r →
                  docs w !! r = None ∧ docs w' !! r = ds !! k) ∧
          (∀ r D, docs w !! r = Some D → docs w' !! r = Some D) ∧
          engine w' = engine w ∧ calls w' = calls w ∧
          kept_except [inner] w w'.
Proof.
  intros Harr Hlen.
  edestruct (for_loop_run (λ j w',
      ∃ R, length R = j ∧
           filled (with_ptrs R) inner (length ds) j w' ∧
           (∀ k r, R !! k = Some r →
                   docs w !! r = None ∧ docs w' !! r = ds !! k) ∧
           (∀ r D, docs w !! r = Some D → docs w' !! r = Some D) ∧
           engine w' = engine w ∧ calls w' = calls w ∧
           kept_except [inner] w w'))
    as (w' & Hrun & R & Hend);
    [| |exists w', R; split; [exact Hrun|exact Hend]].
  - exists [].
    split_and!; [done|by apply filled_0 with hs|done..|by intros ? ?].
  - intros j w1 [_ Hj] (R & HR & Hfill & Hptrs & Hmono & Heng & Hcalls & Hkept).
    destruct (lookup_lt_is_Some_2 ds j Hj) as [d Hd].
    rewrite (bind_run _ _ _ _ _ (index_run _ _ _ _ Hd)).
    unfold make_shared_Doc at 1.
    unfold mbind at 1, M_bind at 1.
    set (r := fresh (dom (docs w1))).
    assert (Hr1 : docs w1 !! r = None) by apply not_elem_of_dom, is_fresh.
    assert (Hr0 : docs w !! r = None).
    { destruct (docs w !! r) as [D|] eqn:HD; [|done].
      apply Hmono in HD. congruence. }
    set (w2 := set_docs (insert r d) w1).
    assert (Hfill2 : filled (with_ptrs (R ++ [r])) inner (length ds) j w2).
    { apply (filled_mono_heap (with_ptrs R) _ _ _ _ w1); [done|done|].
      intros i d0 Hi (Hown & r0 & Hr0' & Hp). split; [done|].
      exists r0. split; [|done]. by apply lookup_app_l_Some. }
    destruct (new_doc_set_slot_run (with_ptrs (R ++ [r])) inner (length ds) j
                (Some r) true w2 Hfill2 Hj)
      as (w3 & Hrun & Hfill3 & Hdocs3 & Heng3 & Hcalls3 & Hkept3).
    { split; [done|]. exists r. split; [|done].
      rewrite lookup_app_r by lia. by rewrite HR, Nat.sub_diag. }
    exists w3. split; [exact Hrun|]. exists (R ++ [r]). simpl in *.
    split_and!; [rewrite length_app; simpl; lia|done| | |congruence..|].
    + intros k r'. rewrite Hdocs3. intros Hk.
      apply lookup_app_Some in Hk as [Hk|[Hge Hk]].
      * destruct (Hptrs k r' Hk) as [Hn Hsome]. split; [done|].
        assert (r' ≠ r).
        { intros ->. rewrite Hr1 in Hsome.
          apply lookup_lt_Some in Hk. rewrite HR in Hk.
          destruct (lookup_lt_is_Some_2 ds k ltac:(lia)) as [? Hx].
          congruence. }
        by rewrite lookup_insert_ne.
      * rewrite HR in *. destruct (k - j)%nat as [|?] eqn:Hkj; [|done].
        injection Hk as <-. assert (k = j) as -> by lia.
        split; [done|]. by rewrite lookup_insert_eq.
    + intros r' D HD. rewrite Hdocs3.
      rewrite lookup_insert_ne; [by apply Hmono|].
      intros <-. congruence.
    + apply kept_except_trans with w1; [done|]. exact Hkept3.
Qed.

Lemma groups_loop_copies (gs : list GroupResult) arr G0 w :
  heap w !! arr = Some (OGroupArray G0) →
  length G0 = length gs →
  ∃ w' G, for_loop (length gs) 0 (λ i,
          g ← index gs i;
          inner ← alloc (ODocArray (replicate (length (docs_ g)) None));
          set_group arr i
            {| group_by_value := Some (group_by_value_ g);
               group_docs := {| list_docs := Some inner;
                                list_count := length (docs_ g) |} |};;
          for_loop (length (docs_ g)) 0 (λ j,
            d ← index (docs_ g) j;
            r ← make_shared_Doc d;
            doc ← new_doc (Some r) true;
            set_slot inner j (Some doc))) w = Done () w' ∧
        heap w' !! arr = Some (OGroupArray G) ∧
        length G = length gs ∧
        (∀ i g, gs !! i = Some g →
           ∃ inner R,
             G !! i = Some {| group_by_value := Some (group_by_value_ g);
                              group_docs :=
                                {| list_docs := Some inner;
                                   list_count := length (docs_ g) |} |} ∧
             length R = length (docs_ g) ∧
             filled (with_ptrs R) inner (length (docs_ g))
               (length (docs_ g)) w' ∧
             (∀ k r, R !! k = Some r →
                     docs w !! r = None ∧ docs w' !! r = docs_ g !! k)) ∧
        NoDup ((λ g, list_docs (group_docs g)) <$> G) ∧
        (∀ r D, docs w !! r = Some D → docs w' !! r = Some D) ∧
        kept_except [arr] w w' ∧
        engine w' = engine w ∧ calls w' = calls w.
Proof.
  intros Harr Hlen.
  edestruct (for_loop_run (λ j w',
      ∃ G, heap w' !! arr = Some (OGroupArray G) ∧
           length G = length gs ∧
           (∀ i g, (i < j)%nat → gs !! i = Some g →
              ∃ inner R,
                G !! i = Some {| group_by_value := Some (group_by_value_ g);
                                 group_docs :=
                                   {| list_docs := Some inner;
                                      list_count := length (docs_ g) |} |} ∧
                length R = length (docs_ g) ∧
                filled (with_ptrs R) inner (length (docs_ g))
                  (length (docs_ g)) w' ∧
                (∀ k r, R !! k = Some r →
                        docs w !! r = None ∧ docs w' !! r = docs_ g !! k)) ∧
           NoDup ((λ g, list_docs (group_docs g)) <$> take j G) ∧
           (∀ r D, docs w !! r = Some D → docs w' !! r = Some D) ∧
           kept_except [arr] w w' ∧
           engine w' = engine w ∧ calls w' = calls w))
    as (w' & Hrun & G & Hend); [| |exists w', G; split; [exact Hrun|]].
  - exists G0. rewrite take_0.
    split_and!; [done|done|intros; lia|apply NoDup_nil_2|done|by intros ? ?
                |done..].
  - intros i w1 [_ Hi]
      (G & HG & HGlen & Hprev & Hnodup & Hmono & Hkept0 & Heng & Hcalls).
    destruct (lookup_lt_is_Some_2 gs i Hi) as [g Hg].
    rewrite (bind_run _ _ _ _ _ (index_run _ _ _ _ Hg)).
    set (inner := fresh (dom (heap w1))).
    assert (Hfresh : heap w1 !! inner = None)
      by apply not_elem_of_dom, is_fresh.
    assert (Hne : arr ≠ inner) by (intros ->; congruence).
    set (slots := ODocArray (replicate (length (docs_ g)) None)).
    rewrite (bind_run _ _ _ _ _
               (eq_refl : alloc slots w1
                          = Done inner (set_heap (insert inner slots) w1))).
    set (entry := {| group_by_value := Some (group_by_value_ g);
                     group_docs := {| list_docs := Some inner;
                                      list_count := length (docs_ g) |} |}).
    erewrite bind_run; last first.
    { apply set_group_run with (G := G); [|lia].
      simpl. by rewrite lookup_insert_ne. }
    match goal with |- context [for_loop _ _ _ ?w0] => set (w2 := w0) end.
    destruct (group_docs_loop_copies (docs_ g) inner
                (replicate (length (docs_ g)) None) w2)
      as (w3 & R & Hloop & HR & Hfill & Hptrs & Hmono3 & Heng3 & Hcalls3
          & Hkept).
    { subst w2. simpl. rewrite lookup_insert_ne by done.
      apply lookup_insert_eq. }
    { apply length_replicate. }
    exists w3. split; [exact Hloop|]. subst w2. simpl in *.
    exists (<[i := entry]> G).
    assert (Hold : ∀ i' g', (i' < i)%nat → gs !! i' = Some g' →
              ∃ inner', G !! i'
                = Some {| group_by_value := Some (group_by_value_ g');
                          group_docs :=
                            {| list_docs := Some inner';
                               list_count := length (docs_ g') |} |} ∧
              is_Some (heap w1 !! inner')).
    { intros i' g' Hi' Hg'.
      destruct (Hprev i' g' Hi' Hg') as (inner' & R' & HG' & _ & Hf' & _).
      exists inner'. split; [done|]. destruct Hf' as (? & ? & _). eauto. }
    split_and!; [| | | | | |congruence..].
    + apply Hkept; [|simpl; apply lookup_insert_eq].
      apply not_elem_of_cons. split; [done|apply not_elem_of_nil].
    + by rewrite length_insert.
    + intros i' g' Hi' Hg'. destruct (decide (i' = i)) as [->|Hii].
      * rewrite Hg in Hg'. injection Hg' as <-.
        exists inner, R. split_and!; [|done|done|].
        -- apply list_lookup_insert_eq. lia.
        -- intros k r Hk. destruct (Hptrs k r Hk) as [Hn Hs].
           split; [|done].
           destruct (docs w !! r) as [D|] eqn:HD; [|done].
           apply Hmono in HD. congruence.
      * destruct (Hprev i' g' ltac:(lia) Hg')
          as (inner' & R' & HG' & HR' & Hf' & Hp').
        exists inner', R'. split_and!; [|done| |].
        -- by rewrite list_lookup_insert_ne.
        -- apply filled_kept with [inner; arr] w1; [done| | |].
           ++ destruct Hf' as (? & Hin & _).
              intros [->|[->|[]%elem_of_nil]%elem_of_cons]%elem_of_cons;
                congruence.
           ++ intros l d [->|[->|[]%elem_of_nil]%elem_of_cons]%elem_of_cons;
                congruence.
           ++ intros l o Hl Ho.
              apply not_elem_of_cons in Hl as [Hl1 Hl].
              apply not_elem_of_cons in Hl as [Hl2 _].
              apply Hkept.
              { apply not_elem_of_cons. split; [done|apply not_elem_of_nil]. }
              simpl. by rewrite !lookup_insert_ne.
        -- intros k r Hk. destruct (Hp' k r Hk) as [Hn Hs].
           split; [done|].
           apply lookup_lt_Some in Hk as Hlt. rewrite HR' in Hlt.
           destruct (lookup_lt_is_Some_2 (docs_ g') k Hlt) as [D HD].
           rewrite HD in *. by apply Hmono3.
    + rewrite (take_S_r _ _ entry); last first.
      { apply list_lookup_insert_eq. lia. }
      rewrite take_insert_ge by lia. rewrite fmap_app. simpl.
      apply NoDup_app. split_and!; [done| |apply NoDup_singleton].
      intros x Hx ->%list_elem_of_singleton.
      apply list_elem_of_fmap in Hx as (gr & Hgr & Hin).
      apply list_elem_of_lookup in Hin as [i' Hi'].
      apply lookup_take_Some in Hi' as [Hi' Hlt].
      destruct (lookup_lt_is_Some_2 gs i' ltac:(lia)) as [g' Hg'].
      destruct (Hold i' g' Hlt Hg') as (inner' & HG' & [o Ho]).
      rewrite HG' in Hi'. injection Hi' as <-. simpl in Hgr.
      injection Hgr as <-. congruence.
    + intros r D HD. apply Hmono3. by apply Hmono.
    + intros l o Hl Ho. apply Hkept.
      * apply not_elem_of_cons. split; [|apply not_elem_of_nil].
        intros ->. apply Hkept0 in Ho; [congruence|done].
      * simpl. apply not_elem_of_cons in Hl as [Hl _].
        rewrite lookup_insert_ne by done.
        assert (Hla : l ∉ [arr])
          by (apply not_elem_of_cons; split; [done|apply not_elem_of_nil]).
        rewrite lookup_insert_ne; [by apply Hkept0|].
        intros ->. apply Hkept0 in Ho; [congruence|done].
  - destruct Hend as (HG & HGlen & Hprev & Hnodup & Hrest).
    simpl in *. rewrite <- HGlen, firstn_all in Hnodup.
    split_and!; [done|done| |done|apply Hrest..].
    intros i g Hg. apply Hprev; [|done]. by eapply lookup_lt_Some.
Qed.

Lemma choose_list {A B} (Q : nat → A → B → Prop) (l : list A) :
  (∀ i x, l !! i = Some x → ∃ y, Q i x y) →
  ∃ k, length k = length l ∧
       ∀ i x y, l !! i = Some x → k !! i = Some y → Q i x y.
Proof.
  revert Q. induction l as [|x l IH]; intros Q HQ.
  - exists []. split; [done|]. intros i ? ? Hi. by rewrite lookup_nil in Hi.
  - destruct (HQ 0%nat x eq_refl) as [y Hy].
    destruct (IH (λ i, Q (S i))) as (k & Hlen & Hk).
    { intros i x' Hi. by apply (HQ (S i)). }
    exists (y :: k). split; [simpl; by rewrite Hlen|].
    intros [|i] x' y' Hx Hy'; simpl in *.
    + by simplify_eq.
    + by apply Hk.
Qed.

(** X17: an OK group-by query leaves a well-formed group array with one
    entry per group of the engine's answer: entry [i] carries the group's
    value and a list of as many handles as the group has documents, each
    flagged as owned and on a fresh copy of the corresponding document;
    nothing that was on the heap or in the document store is gone or
    changed. *)
Theorem group_by_query_returns_owned_copies
    (collection : option zvec_collection_t)
    (q : option zvec_group_by_vector_query_t)
    (out : option zvec_group_results_t) (s : zvec_status_t)
    (res : zvec_group_results_t) (w w' : world) :
  (∀ c gq e, error_not_OK (Collection_GroupByQuery c gq e).1) →
  zvec_collection_group_by_query collection q out w
    = Done (s, Some res) w' →
  code s = ZVEC_STATUS_OK →
  ∃ c h gs e G hss,
    collection_and_ptr collection = Some c ∧ q = Some h ∧
    Collection_GroupByQuery c (group_query h) (engine w) = (RValue gs, e) ∧
    groups_in w' res G hss ∧
    groups_count res = length gs ∧
    (∀ i g, gs !! i = Some g →
       ∃ gr hs, G !! i = Some gr ∧ hss !! i = Some hs ∧
                group_by_value gr = Some (group_by_value_ g) ∧
                Forall2 (copy_of w w') hs (docs_ g)) ∧
    grows w w'.
Proof.
  intros Hengine Hrun Hcode.
  unfold zvec_collection_group_by_query in Hrun.
  run_inv; try discriminate Hcode;
    match goal with Hc : call _ _ _ = _ |- _ =>
      apply call_Done in Hc as (? & ? & ->) end.
  - repeat match goal with Ha : alloc _ _ = _ |- _ =>
      apply alloc_Done in Ha as [? ->] end.
    match goal with
    | Hl : for_loop (length ?l) 0 _
             (set_heap (insert ?arr (OGroupArray ?G)) ?w0) = Done ?u _ |- _ =>
        destruct u;
        destruct (groups_loop_copies l arr G
                    (set_heap (insert arr (OGroupArray G)) w0))
          as (w2 & G' & Hloop & HG & HGlen & Hgroups & Hnodup & Hmono
              & Hkept & _);
        [simpl; by simplify_map_eq|by rewrite length_replicate|];
        rewrite Hloop in Hl; injection Hl as <-
    end.
    simpl in *.
    match goal with
    | Hc : Collection_GroupByQuery _ _ _ = (RValue ?l, _) |- _ =>
        rename l into gs end.
    destruct (choose_list
      (λ i (gr : zvec_group_result_t) (hs : list (option loc)),
         doc_list_in w2 (group_docs gr) hs ∧
         ∀ g, gs !! i = Some g →
              group_by_value gr = Some (group_by_value_ g) ∧
              Forall2 (copy_of w w2) hs (docs_ g)) G')
      as (hss & Hhlen & Hhss).
    { intros i gr Hgr.
      destruct (lookup_lt_is_Some_2 gs i) as [g Hg].
      { rewrite <- HGlen. by eapply lookup_lt_Some. }
      destruct (Hgroups i g Hg) as (inner & R & HGi & HR & Hfill & Hptrs).
      rewrite HGi in Hgr. injection Hgr as <-.
      destruct Hfill as (hs & Hin & Hhs & Hslots).
      exists hs. split.
      - exists inner. simpl. split_and!; [done..|].
        apply Forall_lookup_2. intros k h Hk.
        destruct (Hslots k) as (l & d & Hl & Hd & _).
        { rewrite <- Hhs. by eapply lookup_lt_Some. }
        rewrite Hk in Hl. injection Hl as ->. exists d.
        by apply handle_doc_heap.
      - intros g0 Hg0. rewrite Hg in Hg0. injection Hg0 as <-.
        split; [done|].
        apply Forall2_same_length_lookup_2; [done|].
        intros k h D Hk HD.
        destruct (Hslots k) as (l & d & Hl & Hd & Hown & r & Hr & Hp).
        { by eapply lookup_lt_Some. }
        rewrite Hk in Hl. injection Hl as ->.
        destruct (Hptrs k r Hr) as [Hn Hs].
        exists l, d, r. split_and!; [done..|by rewrite Hs]. }
    eexists _, _, gs, _, G', hss.
    split_and!; [done|done|eassumption| |done| |].
    + eexists. simpl. split_and!; [done|exact HG|done| |done].
      apply Forall2_same_length_lookup_2; [done|].
      intros i gr hs Hgr Hhs. by destruct (Hhss i gr hs Hgr Hhs).
    + intros i g Hg.
      destruct (lookup_lt_is_Some_2 G' i) as [gr Hgr].
      { rewrite HGlen. by eapply lookup_lt_Some. }
      destruct (lookup_lt_is_Some_2 hss i) as [hs Hhs].
      { rewrite Hhlen, HGlen. by eapply lookup_lt_Some. }
      exists gr, hs. split; [done|]. split; [done|].
      destruct (Hhss i gr hs Hgr Hhs) as [_ Hc]. by apply Hc.
    + split.
      * intros l o Ho. apply Hkept.
        -- apply not_elem_of_cons. split; [|apply not_elem_of_nil].
           intros ->. congruence.
        -- simpl. rewrite lookup_insert_ne; [done|]. intros ->. congruence.
      * intros r D HD. by apply Hmono.
  - match goal with
    | Hc : Collection_GroupByQuery ?c ?gq _ = (RError _, _) |- _ =>
        pose proof (Hengine c gq (engine w)) as Hne; rewrite Hc in Hne
    end.
    by destruct Hne.
Qed.

End Proofs.

(** ** Opening a collection *)

Section Opening.

Context {Eng : Engine} {Sto : Storage Eng}.

(** X14: with a non-null [out_status], [zvec_collection_create_and_open] and
    [zvec_collection_open] always return, and return a handle exactly when
    the status they store is OK; heap, documents and call log are as they
    were; a null path (or a schema that is null or holds a null pointer) is
    rejected with INVALID_ARGUMENT without a call of the engine.  With a null
    [out_status], [zvec_collection_open] stores nothing.  The engine is
    assumed not to report an error with the OK code. *)
Theorem open_returns_handle_iff_OK (path : option string)
    (schema : option zvec_collection_schema_t)
    (options : option zvec_collection_options_t) (s0 : zvec_status_t)
    (w : world) :
  (∀ p sch o e, error_not_OK (Collection_CreateAndOpen p sch o e).1) →
  (∀ p o e, error_not_OK (Collection_Open p o e).1) →
  (∃ h s w',
     zvec_collection_create_and_open path schema options (Some s0) w
       = Done (h, Some s) w' ∧
     (is_Some h ↔ code s = ZVEC_STATUS_OK) ∧
     heap w' = heap w ∧ docs w' = docs w ∧ calls w' = calls w ∧
     (path = None ∨ schema ≫= schema_ptr = None →
      w' = w ∧ h = None ∧ code s = ZVEC_STATUS_INVALID_ARGUMENT)) ∧
  (∃ h s w',
     zvec_collection_open path options (Some s0) w = Done (h, Some s) w' ∧
     (is_Some h ↔ code s = ZVEC_STATUS_OK) ∧
     heap w' = heap w ∧ docs w' = docs w ∧ calls w' = calls w ∧
     (path = None →
      w' = w ∧ h = None ∧ code s = ZVEC_STATUS_INVALID_ARGUMENT)) ∧
  (∀ h out' w',
     zvec_collection_open path options None w = Done (h, out') w' →
     out' = None).
Proof.
  intros Hcreate Hopen.
  assert (Hno : ∀ st, Status_code st ≠ 0 →
            is_Some (None : option zvec_collection_t)
            ↔ code (to_c_status st) = ZVEC_STATUS_OK).
  { intros st Hst. split; [by intros [? ?]|]. intros Hc. by destruct Hst. }
  split_and!.
  - unfold zvec_collection_create_and_open.
    destruct path as [p|]; [destruct (schema ≫= schema_ptr) as [sch|]|].
    + unfold call_factory, mbind, M_bind.
      pose proof (Hcreate p sch (options_or_default options) (engine w))
        as Hne.
      destruct (Collection_CreateAndOpen p sch (options_or_default options)
                  (engine w)) as [[c|st] e]; simpl in *;
        eexists _, _, _; (split; [done|]); split_and!;
        try done; try (by intros [|]); by apply Hno.
    + eexists _, _, _. split; [done|].
      split_and!; try done; try (split; [by intros [? ?]|done]).
    + eexists _, _, _. split; [done|].
      split_and!; try done; try (split; [by intros [? ?]|done]).
  - unfold zvec_collection_open. destruct path as [p|].
    + unfold call_factory, mbind, M_bind.
      pose proof (Hopen p (options_or_default options) (engine w)) as Hne.
      destruct (Collection_Open p (options_or_default options) (engine w))
        as [[c|st] e]; simpl in *;
        eexists _, _, _; (split; [done|]); split_and!;
        try done; by apply Hno.
    + eexists _, _, _. split; [done|].
      split_and!; try done; try (split; [by intros [? ?]|done]).
  - intros h out' w'. unfold zvec_collection_open, call_factory.
    destruct path as [p|]; [|by intros [= <- <- <-]].
    unfold mbind, M_bind.
    destruct (Collection_Open p (options_or_default options) (engine w))
      as [[c|st] e]; by intros [= <- <- <-].
Qed.

End Opening.

(** ** The registry listings *)

Section Registries.

Lemma populate_registry_coherent all r :
  coherent r → coherent (populate_registry all r).
Proof.
  unfold coherent, populate_registry. intros Hr.
  destruct (decide (cached r = [])) as [He|]; [|done].
  simpl. by rewrite Hr, He.
Qed.

Lemma populate_registry_stable all r :
  cached r ≠ [] → populate_registry all r = r.
Proof. intros Hne. unfold populate_registry. by rewrite decide_False. Qed.

(** What one call does to the statics and what it answers. *)
Lemma listing_call k f s out n o s' :
  zvec_list_registered k f s out = Some (n, o, s') →
  registry_of k s' = populate_registry (registered k f) (registry_of k s) ∧
  (∀ k', k' ≠ k → registry_of k' s' = registry_of k' s) ∧
  o = Some (cached_ptrs (registry_of k s')) ∧
  n = to_int (length (cached_ptrs (registry_of k s'))).
Proof.
  destruct out as [x|]; [|by destruct k].
  destruct k; simpl; intros [= <- <- <-]; simpl;
    (split_and!; [done| |done|done]); by intros [].
Qed.

Lemma step_coherent s s' :
  step s s' →
  (∀ k, coherent (registry_of k s)) → ∀ k, coherent (registry_of k s').
Proof.
  intros [k f out n o Hcall] Hs k'.
  apply listing_call in Hcall as (Hk & Hother & _ & _).
  destruct (decide (k' = k)) as [->|Hne].
  - rewrite Hk. by apply populate_registry_coherent.
  - rewrite Hother by done. apply Hs.
Qed.

Lemma reachable_coherent s :
  rtc step initial_statics s → ∀ k, coherent (registry_of k s).
Proof.
  revert s. apply (rtc_ind_r (λ s, ∀ k, coherent (registry_of k s))).
  - by intros [].
  - intros y z _ Hstep IH. by apply step_coherent with y.
Qed.

(** A registry that holds a name is never written again. *)
Lemma step_frozen k s s' :
  step s s' → cached (registry_of k s) ≠ [] →
  registry_of k s' = registry_of k s.
Proof.
  intros [k' f out n o Hcall] Hne.
  apply listing_call in Hcall as (Hk & Hother & _ & _).
  destruct (decide (k = k')) as [<-|Hkk].
  - rewrite Hk. by apply populate_registry_stable.
  - by apply Hother.
Qed.

Lemma steps_frozen k s s' :
  rtc step s s' → cached (registry_of k s) ≠ [] →
  registry_of k s' = registry_of k s.
Proof.
  intros Hrun. induction Hrun as [|s s1 s' Hstep _ IH]; [done|].
  intros Hne. rewrite <- (step_frozen k s s1) by done.
  apply IH. by rewrite (step_frozen k s s1).
Qed.

(** C9, as the code has it: the first call of a listing function answers
    with the engine's list of that moment; and once a call, at any point of
    the process's life, has answered with a non-empty list, every later call
    of that function answers with the same count and list, whatever the
    engine has registered since and whichever listings were called in
    between. *)
Theorem registry_frozen_once_non_empty (k : listing) :
  (∀ f x, ∃ s',
     zvec_list_registered k f initial_statics (Some x)
       = Some (to_int (length (registered k f)), Some (registered k f), s'))
  ∧
  (∀ f1 f2 s s1 s2 s3 out1 out2 n1 n2 names o2,
     rtc step initial_statics s →
     zvec_list_registered k f1 s out1 = Some (n1, Some names, s1) →
     names ≠ [] →
     rtc step s1 s2 →
     zvec_list_registered k f2 s2 out2 = Some (n2, o2, s3) →
     n2 = n1 ∧ o2 = Some names).
Proof.
  split.
  - intros f x. destruct k; eexists; reflexivity.
  - intros f1 f2 s s1 s2 s3 out1 out2 n1 n2 names o2
      Hreach Hfirst Hnames Hlater Hsecond.
    assert (Hs1 : rtc step initial_statics s1)
      by (eapply rtc_r; [exact Hreach|by econstructor]).
    pose proof (reachable_coherent s1 Hs1 k) as Hco.
    apply listing_call in Hfirst as (_ & _ & [= Ho1] & Hn1).
    apply listing_call in Hsecond as (Hk3 & _ & Ho2 & Hn2).
    assert (Hne : cached (registry_of k s1) ≠ [])
      by (by rewrite <- Hco, <- Ho1).
    rewrite (populate_registry_stable _ _) in Hk3
      by (by rewrite (steps_frozen k s1 s2)).
    rewrite (steps_frozen k s1 s2) in Hk3 by done.
    rewrite Hk3 in Ho2, Hn2. rewrite <- Ho1 in Ho2, Hn2, Hn1. by subst.
Qed.

(** [static_cast<int>] keeps a size below [2^31]. *)
Lemma to_int_small (n : nat) : Z.of_nat n < 2 ^ 31 → to_int n = Z.of_nat n.
Proof.
  intros Hn. unfold to_int.
  rewrite Z.mod_small by lia. lia.
Qed.

(** X15: in any state the statics can reach, a listing call with a non-null
    [out] answers with exactly the cached names of its listing, and with
    their number when that is below [2^31]; the answer is non-empty when the
    engine has something registered at the call (for the metrics: when
    [zvec_init] would return [true]); the statics of the three other listings
    are untouched. *)
Theorem listing_answers_its_cache (k : listing) (f : IndexFactory)
    (s s' : statics) (out : option (list string)) (n : Z)
    (o : option (list string)) :
  rtc step initial_statics s →
  zvec_list_registered k f s (Some out) = Some (n, o, s') →
  o = Some (cached (registry_of k s')) ∧
  (Z.of_nat (length (cached (registry_of k s'))) < 2 ^ 31 →
   n = Z.of_nat (length (cached (registry_of k s')))) ∧
  (registered k f ≠ [] → cached (registry_of k s') ≠ []) ∧
  (k = Metrics → zvec_init f = true → cached (registry_of k s') ≠ []) ∧
  (∀ k', k' ≠ k → registry_of k' s' = registry_of k' s).
Proof.
  intros Hreach Hcall.
  assert (Hs' : rtc step initial_statics s')
    by (eapply rtc_r; [exact Hreach|by econstructor]).
  pose proof (reachable_coherent s' Hs' k) as Hco.
  apply listing_call in Hcall as (Hk & Hother & -> & ->).
  rewrite Hco.
  assert (Hne : registered k f ≠ [] → cached (registry_of k s') ≠ []).
  { intros Hreg. rewrite Hk. unfold populate_registry.
    destruct (decide (cached (registry_of k s) = [])); done. }
  split_and!; [done|apply to_int_small|done| |done].
  intros -> Hinit. apply Hne. simpl. unfold zvec_init in Hinit.
  apply negb_true_iff, bool_decide_eq_false in Hinit. done.
Qed.

End Registries.

(** ** Runs on the example engine *)

(** The example engine keeps the contracts the statements assume. *)
Lemma example_engine_batch_contract :
  batch_contract (Eng := example_engine) Collection_Insert ∧
  batch_contract (Eng := example_engine) Collection_Upsert ∧
  batch_contract (Eng := example_engine) Collection_Update ∧
  batch_contract (Eng := example_engine) Collection_Delete.
Proof.
  repeat split; intros c xs e; simpl; unfold example_answer;
    destruct (decide (c = 1%positive)); simpl;
    solve [apply length_fmap | discriminate].
Defined.

Lemma example_engine_errors_not_OK :
  (∀ c ks e ds,
     error_not_OK (Collection_Fetch (Engine := example_engine) c ks e ds).1.1)
  ∧
  (∀ c vq e ds,
     error_not_OK (Collection_Query (Engine := example_engine) c vq e ds).1.1)
  ∧
  (∀ c gq e,
     error_not_OK
       (Collection_GroupByQuery (Engine := example_engine) c gq e).1).
Proof.
  repeat split; intros; simpl; unfold example_answer;
    destruct (decide (c = 1%positive)); simpl; solve [exact I | discriminate].
Defined.

(** Inserting the one document of the example world: one status comes
    back. *)
Lemma insert_one_document_witness :
  ∃ w' out',
    zvec_collection_insert (Eng := example_engine) example_collection
      (Some [Some 1%positive]) 1 (Some empty_write_results) example_world
      = Done (ok_status, out') w' ∧
    ∃ c, collection_and_ptr example_collection = Some c ∧
         length (take 1 [Some 1%positive]) = 1%nat ∧
         write_results_of (Eng := example_engine) Collection_Insert c
           (omap (designated example_world) (take 1 [Some 1%positive]))
           example_world w' out'.
Proof.
  eexists _, _. split; [reflexivity|].
  destruct example_engine_batch_contract as (Hi & Hu & Hp & Hd).
  destruct (write_results_one_per_submitted_element
              (Eng := example_engine) example_collection
              [Some 1%positive] [] 1 empty_write_results Hi Hu Hp Hd)
    as (Hinsert & _).
  eapply (Hinsert example_world); reflexivity.
Defined.

(** Against C1 as stated: a batch of two entries, the first of them null,
    returns OK with a single status. *)
Lemma insert_skips_null_documents :
  match zvec_collection_insert (Eng := example_engine) example_collection
          (Some [None; Some 1%positive]) 2 (Some empty_write_results)
          example_world with
  | Done (s, Some r) _ =>
      code s = ZVEC_STATUS_OK ∧ results_count r = 1%nat ∧
      results_count r ≠ 2%nat
  | _ => False
  end.
Proof. vm_compute. split_and!; [reflexivity..|discriminate]. Qed.

(** Against C2 as stated: the handle a fetch returns is flagged as not
    owned, and holds pointer [1], the one the caller's own handle holds. *)
Lemma fetch_handle_is_not_owned :
  match zvec_collection_fetch (Eng := example_engine) example_collection
          (Some [Some "k"]) 1 (Some empty_doc_map) example_world with
  | Done (s, Some m) w' =>
      code s = ZVEC_STATUS_OK ∧ map_count m = 1%nat ∧
      ∃ arr l d,
        map_docs m = Some arr ∧
        heap w' !! arr = Some (ODocArray [Some l]) ∧
        heap w' !! l = Some (ODoc d) ∧
        owned d = false ∧ ptr d = Some 1%positive
  | _ => False
  end.
Proof.
  vm_compute. split_and!; [reflexivity..|].
  eexists _, _, _. split_and!; reflexivity.
Qed.

(** Fetching one key on the example engine. *)
Lemma fetch_one_key_witness :
  ∃ s m w',
    zvec_collection_fetch (Eng := example_engine) example_collection
      (Some [Some "k"]) 1 (Some empty_doc_map) example_world
      = Done (s, Some m) w' ∧
    ∃ c cpp_pks doc_map e arr,
      collection_and_ptr example_collection = Some c ∧
      Collection_Fetch c cpp_pks (engine example_world) (docs example_world)
        = (RValue doc_map, e, docs w') ∧
      map_docs m = Some arr ∧ map_count m = length doc_map ∧
      filled (borrowed_from_map doc_map) arr (length doc_map)
        (length doc_map) w'.
Proof.
  eexists _, _, _. split; [reflexivity|].
  destruct example_engine_errors_not_OK as (Hf & Hq & Hg).
  destruct (fetch_returns_borrowed_handles (Eng := example_engine)
              example_collection Hf Hq Hg) as (Hfetch & _).
  eapply (Hfetch (Some [Some "k"]) 1%nat (Some empty_doc_map) _ _
            example_world); reflexivity.
Defined.

(** A query on the example engine, and the release of its list. *)
Lemma query_then_free_witness :
  ∃ s lst w1,
    zvec_collection_query (Eng := example_engine) example_collection
      example_query (Some empty_doc_list) example_world
      = Done (s, Some lst) w1 ∧
    ∃ hs w2,
      doc_list_in w1 lst hs ∧ Forall is_Some hs ∧
      zvec_doc_list_free (Some lst) w1
        = Done (Some {| list_docs := None; list_count := 0 |}) w2 ∧
      (∀ arr, list_docs lst = Some arr → heap w2 !! arr = None) ∧
      docs w2 = docs w1 ∧
      Forall (still_allocated w2) hs.
Proof.
  eexists _, _, _. split; [reflexivity|].
  destruct example_engine_errors_not_OK as (Hf & Hq & Hg).
  eapply (doc_list_free_keeps_wrappers (Eng := example_engine)
            example_collection example_query (Some empty_doc_list) _ _
            example_world);
    [exact Hq|reflexivity|reflexivity].
Defined.

(** Against C5 as stated: with capacity [0] the getter returns [0] for a
    vector of three elements. *)
Lemma get_vector_fp32_zero_capacity :
  fields_ (Doc_set Doc_new "v" (VVecFloat [1; 2; 3])) !! "v"
    = Some (VVecFloat [1; 2; 3]) ∧
  zvec_doc_get_vector_fp32 (Eng := example_engine) (Some 1%positive)
    (Some "v") (Some [0; 0; 0]) 0 example_world
    = Done (0%nat, Some [0; 0; 0]) example_world ∧
  0%nat ≠ length [1; 2; 3].
Proof. split_and!; [reflexivity..|discriminate]. Qed.

(** Capacity [2] for a vector of three elements: two are copied, three is
    returned. *)
Lemma get_vector_fp32_truncated_witness :
  zvec_doc_get_vector_fp32 (Eng := example_engine) (Some 1%positive)
    (Some "v") (Some [0; 0; 0]) 2 example_world
    = Done (3%nat, Some [1; 2; 0]) example_world.
Proof.
  apply (get_vector_fp32_reports_true_count (Eng := example_engine)
           1%positive (Doc_set Doc_new "v" (VVecFloat [1; 2; 3])) "v"
           [1; 2; 3] [0; 0; 0] 2 example_world);
    [reflexivity|reflexivity|simpl; lia].
Defined.



(** One index against two values, on the example document and query. *)
Lemma sparse_count_mismatch_witness :
  1%nat ≠ 2%nat ∧
  valid_handle example_world (Some 1%positive) ∧
  zvec_doc_set_sparse_vector_fp32 (Eng := example_engine) (Some 1%positive)
    (Some "s") (Some [7]) 1 (Some [1; 2]) 2 example_world
    = Done (invalid_argument "Invalid arguments") example_world ∧
  zvec_vector_query_set_sparse_vector_fp32 (Eng := example_engine)
    example_query (Some [7]) 1 (Some [1; 2]) 2 example_world
    = Done (invalid_argument "Invalid arguments", example_query)
        example_world.
Proof.
  assert (Hne : 1%nat ≠ 2%nat) by discriminate.
  assert (Hdoc : valid_handle example_world (Some 1%positive))
    by (eexists; reflexivity).
  split; [exact Hne|]. split; [exact Hdoc|].
  exact (proj2 (sparse_count_mismatch_rejected (Eng := example_engine)
                  (Some 1%positive) example_query (Some "s") (Some [7]) 1
                  (Some [1; 2]) 2 example_world Hne Hdoc)).
Defined.

(** The path of a collection the engine does not know: NOT_FOUND, and the
    caller's variable is as it was. *)
Lemma path_of_missing_collection_witness :
  ∃ s out' w',
    zvec_collection_path (Eng := example_engine) missing_collection
      (Some None) example_world = Done (s, out') w' ∧
    code s ≠ ZVEC_STATUS_OK ∧
    out' = Some None.
Proof.
  eexists _, _, _. split; [reflexivity|]. split; [discriminate|].
  destruct (out_parameter_untouched_on_failure (Eng := example_engine)
              missing_collection None None 0 None None) as (Hpath & _).
  eapply (Hpath (Some None) example_world); [reflexivity|discriminate].
Defined.

(** Against C9 as stated: a first call that finds nothing registered
    answers with the empty list, and the next call answers with what the
    engine has registered since. *)
Lemma registry_refilled_after_empty_answer :
  ∃ s1 s2,
    zvec_list_registered_metrics factory_before initial_statics (Some None)
      = Some (0, Some [], s1) ∧
    zvec_list_registered_metrics factory_after s1 (Some None)
      = Some (1, Some ["L2"], s2).
Proof. eexists _, _. split; reflexivity. Qed.

(** A first call that finds a metric keeps answering with it when the engine
    later reports none. *)
Lemma registry_frozen_witness :
  ∃ n1 s1 n2 o2 s3,
    zvec_list_registered Metrics factory_after initial_statics (Some None)
      = Some (n1, Some ["L2"], s1) ∧
    zvec_list_registered Metrics factory_before s1 (Some None)
      = Some (n2, o2, s3) ∧
    n2 = n1 ∧ o2 = Some ["L2"].
Proof.
  eexists _, _, _, _, _. split; [reflexivity|]. split; [reflexivity|].
  eapply (proj2 (registry_frozen_once_non_empty Metrics)
            factory_after factory_before initial_statics _ _ _
            (Some None) (Some None));
    [apply rtc_refl|reflexivity|discriminate|apply rtc_refl|reflexivity].
Defined.

(** ** More runs on the example engine *)

Lemma example_engine_answers_not_OK :
  (∀ c xs e,
     error_not_OK (Collection_Insert (Engine := example_engine) c xs e).1) ∧
  (∀ c xs e,
     error_not_OK (Collection_Upsert (Engine := example_engine) c xs e).1) ∧
  (∀ c xs e,
     error_not_OK (Collection_Update (Engine := example_engine) c xs e).1) ∧
  (∀ c xs e,
     error_not_OK (Collection_Delete (Engine := example_engine) c xs e).1) ∧
  (∀ c e,
     error_not_OK (Collection_Schema (Engine := example_engine) c e).1) ∧
  (∀ c e,
     error_not_OK (Collection_Options (Engine := example_engine) c e).1) ∧
  (∀ c e,
     error_not_OK (Collection_Stats (Engine := example_engine) c e).1).
Proof.
  repeat split; intros; simpl; unfold example_answer;
    destruct (decide (c = 1%positive)); simpl; solve [exact I | discriminate].
Defined.

Lemma example_storage_errors_not_OK :
  (∀ p sch o e,
     error_not_OK
       (Collection_CreateAndOpen (Storage := example_storage) p sch o e).1) ∧
  (∀ p o e,
     error_not_OK (Collection_Open (Storage := example_storage) p o e).1).
Proof.
  split; intros; simpl; destruct (decide (p = "/tmp/c")); simpl;
    solve [exact I | discriminate].
Defined.

(** An insert on the example engine, and the release of its statuses. *)
Lemma insert_then_release_witness :
  ∃ s out' w',
    zvec_collection_insert (Eng := example_engine) example_collection
      (Some [Some 1%positive]) 1 (Some empty_write_results) example_world
      = Done (s, out') w' ∧
    code s = ZVEC_STATUS_OK ∧
    released_to example_world w' out'.
Proof.
  eexists _, _, _. split; [reflexivity|]. split; [reflexivity|].
  destruct example_engine_answers_not_OK as (Hi & Hu & Hp & Hd & _).
  eapply (proj1 (write_results_release_restores_heap
                   (Eng := example_engine) example_collection
                   [Some 1%positive] [] 1 empty_write_results Hi Hu Hp Hd));
    reflexivity.
Defined.


(** An upsert of a null entry and the example document: the engine sees the
    document alone. *)
Lemma upsert_calls_engine_once_witness :
  ∃ s out' w',
    zvec_collection_upsert (Eng := example_engine) example_collection
      (Some [None; Some 1%positive]) 2 (Some empty_write_results)
      example_world
      = Done (s, out') w' ∧
    calls w'
      = calls example_world
        ++ [CallUpsert 1%positive
              (omap (designated example_world)
                 (take 2 [None; Some 1%positive]))] ∧
    engine w'
      = (Collection_Upsert (Engine := example_engine) 1%positive
           (omap (designated example_world) (take 2 [None; Some 1%positive]))
           (engine example_world)).2.
Proof.
  assert (Hsound : Forall (sound_handle example_world)
                     (take 2 [None; Some 1%positive])).
  { repeat constructor. eexists. split; [reflexivity|].
    intros r [= <-]. eexists. reflexivity. }
  exact (proj1 (proj2
           (write_calls_engine_once_with_valid_documents
              (Eng := example_engine) example_collection 1%positive
              [None; Some 1%positive] 2 (Some empty_write_results)
              example_world eq_refl ltac:(discriminate) ltac:(simpl; lia)
              Hsound))).
Defined.

(** A null second key. *)
Lemma null_key_witness :
  zvec_collection_delete (Eng := example_engine) example_collection
    (Some [Some "k"; None]) 2 (Some empty_write_results) example_world
    = Undefined ∧
  zvec_collection_fetch (Eng := example_engine) example_collection
    (Some [Some "k"; None]) 2 (Some empty_doc_map) example_world
    = Undefined.
Proof.
  apply (null_key_is_undefined_behaviour (Eng := example_engine)
           example_collection 1%positive [Some "k"; None] 2 1
           (Some empty_write_results) empty_doc_map example_world);
    [reflexivity|lia|reflexivity].
Defined.

(** The map of a fetch of one key on the example engine. *)
Lemma fetch_keys_parallel_witness :
  ∃ s m w',
    zvec_collection_fetch (Eng := example_engine) example_collection
      (Some [Some "k"]) 1 (Some empty_doc_map) example_world
      = Done (s, Some m) w' ∧
    code s = ZVEC_STATUS_OK ∧
    ∃ c a cpp_pks doc_map e ks hs,
      collection_and_ptr example_collection = Some c ∧
      Some [Some "k"] = Some a ∧ Some <$> cpp_pks = take 1 a ∧
      Collection_Fetch c cpp_pks (engine example_world) (docs example_world)
        = (RValue doc_map, e, docs w') ∧
      doc_map_in w' m ks hs ∧
      map_count m = length doc_map ∧
      (∀ i pk p, doc_map !! i = Some (pk, p) →
         ks !! i = Some (Some pk) ∧
         ∃ l d, hs !! i = Some (Some l) ∧ handle_doc w' (Some l) = Some d ∧
                ptr d = p ∧ owned d = false) ∧
      (∀ l o, heap example_world !! l = Some o → heap w' !! l = Some o).
Proof.
  eexists _, _, _. split; [reflexivity|]. split; [reflexivity|].
  destruct example_engine_errors_not_OK as (Hf & _).
  eapply (fetch_keys_parallel_to_documents (Eng := example_engine)
            example_collection (Some [Some "k"]) 1 (Some empty_doc_map)
            ok_status _ example_world _ Hf);
    reflexivity.
Defined.

(** The release of that map. *)
Lemma doc_map_free_witness :
  ∃ s m w1 ks hs,
    zvec_collection_fetch (Eng := example_engine) example_collection
      (Some [Some "k"]) 1 (Some empty_doc_map) example_world
      = Done (s, Some m) w1 ∧
    doc_map_in w1 m ks hs ∧
    ∃ w',
      zvec_doc_map_free (Some m) w1 = Done (Some zeroed_doc_map) w' ∧
      (∀ l, is_Some (heap w' !! l) ↔
            is_Some (heap w1 !! l) ∧ map_keys m ≠ Some l ∧
            map_docs m ≠ Some l) ∧
      docs w' = docs w1 ∧ engine w' = engine w1 ∧ calls w' = calls w1 ∧
      Forall (still_allocated w') hs ∧
      zvec_doc_map_free (Some zeroed_doc_map) w'
        = Done (Some zeroed_doc_map) w'.
Proof.
  eexists _, _, _, _, _. split; [reflexivity|].
  match goal with |- ?A ∧ _ => assert (Hin : A) end.
  { eexists _, _. split_and!; try reflexivity.
    repeat constructor. eexists. reflexivity. }
  split; [exact Hin|].
  exact (doc_map_free_releases_arrays_only (Eng := example_engine) _ _ _ _
           Hin).
Defined.

(** Reading the vector field of the example document as an [int32]: [false],
    and the caller's [7] is still there. *)
Lemma get_int32_of_vector_field_witness :
  sound_handle example_world (Some 1%positive) ∧
  ∃ b out',
    zvec_doc_get_int32 (Eng := example_engine) (Some 1%positive) (Some "v")
      (Some 7) example_world
      = Done (b, out') example_world ∧
    (b = false → out' = Some 7) ∧
    (b = true →
       ∃ D f v, designated example_world (Some 1%positive) = Some D ∧
                Some "v" = Some f ∧
                Doc_get_int32 D f = Some v ∧ out' = Some v ∧
                is_Some (Some 7)) ∧
    (Some 1%positive = None ∨ Some "v" = None ∨ Some 7 = None → b = false).
Proof.
  assert (Hs : sound_handle example_world (Some 1%positive)).
  { eexists. split; [reflexivity|]. intros r [= <-]. eexists. reflexivity. }
  split; [exact Hs|].
  exact (scalar_getters_read_only (Eng := example_engine) Doc_get_int32
           (Some 1%positive) (Some "v") (Some 7) example_world Hs).
Defined.

(** Capacity [2] again: the third slot of the buffer is as it was. *)
Lemma get_vector_fp32_buffer_witness :
  zvec_doc_get_vector_fp32 (Eng := example_engine) (Some 1%positive)
    (Some "v") (Some [0; 0; 9]) 2 example_world
    = Done (3%nat, Some [1; 2; 9]) example_world ∧
  example_world = example_world ∧
  ∃ buf', Some [1; 2; 9] = Some buf' ∧ length buf' = length [0; 0; 9] ∧
          drop (3 `min` 2) buf' = drop (3 `min` 2) [0; 0; 9] ∧
          (3 `min` 2 ≤ length [0; 0; 9])%nat ∧
          (3%nat = 0%nat → buf' = [0; 0; 9]).
Proof.
  split; [reflexivity|].
  apply (get_vector_fp32_stays_in_buffer (Eng := example_engine)
           (Some 1%positive) (Some "v") [0; 0; 9] 2 3 (Some [1; 2; 9])
           example_world example_world).
  reflexivity.
Defined.

(** Setting a boolean on the example document. *)
Lemma set_bool_changes_one_document_witness :
  ∃ w',
    run_setters (Eng := example_engine) (Some 1%positive)
      [set_bool (Some "x") true] example_world = Done () w' ∧
    same_but_document (handle_ptr example_world (Some 1%positive))
      example_world w' ∧
    (handle_ptr example_world None
       ≠ handle_ptr example_world (Some 1%positive) →
     designated w' None = designated example_world None) ∧
    (handle_ptr example_world None
       = handle_ptr example_world (Some 1%positive) →
     designated w' None = designated w' (Some 1%positive)).
Proof.
  eexists. split; [reflexivity|].
  eapply (setters_change_one_document (Eng := example_engine)
            (Some 1%positive) None [set_bool (Some "x") true]
            example_world).
  reflexivity.
Defined.

(** A document made and released in the example world. *)
Lemma new_document_released_witness :
  ∃ h w1 w2,
    zvec_doc_new (Eng := example_engine) example_world = Done h w1 ∧
    heap example_world !! h = None ∧
    designated w1 (Some h) = Some Doc_new ∧
    (∀ l o, heap example_world !! l = Some o → heap w1 !! l = Some o) ∧
    (∀ r D, docs example_world !! r = Some D → docs w1 !! r = Some D) ∧
    zvec_doc_free (Some h) w1 = Done () w2 ∧
    heap w2 = heap example_world ∧
    zvec_doc_free (Some h) w2 = Undefined ∧
    (∀ field, zvec_doc_has (Some h) field w2 = Undefined).
Proof. exact (doc_new_then_free (Eng := example_engine) example_world). Defined.

(** Two new documents, and an integer set on the first. *)
Lemma two_new_documents_witness :
  ∃ h1 w1 h2 w2 w3,
    zvec_doc_new (Eng := example_engine) example_world = Done h1 w1 ∧
    zvec_doc_new w1 = Done h2 w2 ∧
    run_setters (Some h1) [set_int32 (Some "n") 5] w2 = Done () w3 ∧
    h1 ≠ h2 ∧ designated w3 (Some h2) = Some Doc_new.
Proof.
  eexists _, _, _, _, _.
  split; [reflexivity|]. split; [reflexivity|]. split; [reflexivity|].
  match goal with
  | |- ?a ≠ ?b ∧ designated ?w3 _ = _ =>
      eapply (new_documents_are_independent (Eng := example_engine) a b
                [set_int32 (Some "n") 5] example_world _ _ w3)
  end; reflexivity.
Defined.

(** The schema snapshot of the example collection, and its release. *)
Lemma schema_snapshot_witness :
  ∃ out' w',
    zvec_collection_schema (Eng := example_engine) example_collection
      (Some None) example_world = Done (ok_status, out') w' ∧
    code ok_status = ZVEC_STATUS_OK ∧
    ∃ l w2, out' = Some (Some l) ∧ heap example_world !! l = None ∧
            zvec_collection_schema_free (Some l) w' = Done () w2 ∧
            heap w2 = heap example_world ∧ docs w2 = docs example_world.
Proof.
  eexists _, _. split; [reflexivity|]. split; [reflexivity|].
  destruct example_engine_answers_not_OK as (_ & _ & _ & _ & Hs & Ho & Ht).
  eapply (proj1 (snapshot_released_by_its_free (Eng := example_engine)
                   example_collection (Some None) ok_status _ example_world
                   _ Hs Ho Ht eq_refl)).
  reflexivity.
Defined.

(** One sparse entry set on the example query. *)
Lemma sparse_query_bytes_witness :
  (2 ≤ length [1; 2])%nat ∧ (1 ≤ length [7])%nat ∧ (1 ≤ length [3])%nat ∧
  ∃ h',
    zvec_vector_query_set_sparse_vector_fp32 (Eng := example_engine)
      example_query (Some [7]) 1 (Some [3]) 1 example_world
      = Done (ok_status, Some h') example_world ∧
    length (query_sparse_indices_ (query h')) = (4 * 1)%nat ∧
    length (query_sparse_values_ (query h')) = (4 * 1)%nat.
Proof.
  assert (H1 : (2 ≤ length [1; 2])%nat) by (simpl; lia).
  assert (H2 : (1 ≤ length [7])%nat) by (simpl; lia).
  assert (H3 : (1 ≤ length [3])%nat) by (simpl; lia).
  split; [exact H1|]. split; [exact H2|]. split; [exact H3|].
  destruct (query_vector_buffers_hold_four_bytes_per_element
              (Eng := example_engine)
              {| query := {| field_name_ := "v"; topk_ := 10; filter_ := "";
                             include_vector_ := false;
                             include_doc_id_ := false;
                             output_fields_ := []; query_params_ := None;
                             query_vector_ := [];
                             query_sparse_indices_ := [];
                             query_sparse_values_ := [] |} |}
              [1; 2] [3] [7] 2 1 example_world H1 H2 H3)
    as (_ & _ & h' & Hrun & Hi & Hv & _).
  exists h'. split; [exact Hrun|]. split; [exact Hi|exact Hv].
Defined.

(** Opening the storage of the example engine. *)
Lemma open_example_storage_witness :
  ∃ h s w',
    zvec_collection_open (Eng := example_engine) (Sto := example_storage)
      (Some "/tmp/c") None (Some ok_status) example_world
      = Done (h, Some s) w' ∧
    (is_Some h ↔ code s = ZVEC_STATUS_OK) ∧
    heap w' = heap example_world ∧ docs w' = docs example_world ∧
    calls w' = calls example_world ∧
    (Some "/tmp/c" = None →
     w' = example_world ∧ h = None ∧
     code s = ZVEC_STATUS_INVALID_ARGUMENT).
Proof.
  destruct example_storage_errors_not_OK as (Hc & Ho).
  exact (proj1 (proj2
           (open_returns_handle_iff_OK (Eng := example_engine)
              (Sto := example_storage) (Some "/tmp/c") None None ok_status
              example_world Hc Ho))).
Defined.

(** The first listing of the metrics, with one metric registered. *)
Lemma metrics_listing_witness :
  rtc step initial_statics initial_statics ∧
  ∃ n o s',
    zvec_list_registered Metrics factory_after initial_statics (Some None)
      = Some (n, o, s') ∧
    o = Some (cached (registry_of Metrics s')) ∧
    (Z.of_nat (length (cached (registry_of Metrics s'))) < 2 ^ 31 →
     n = Z.of_nat (length (cached (registry_of Metrics s')))) ∧
    (registered Metrics factory_after ≠ [] →
     cached (registry_of Metrics s') ≠ []) ∧
    (Metrics = Metrics → zvec_init factory_after = true →
     cached (registry_of Metrics s') ≠ []) ∧
    (∀ k', k' ≠ Metrics →
           registry_of k' s' = registry_of k' initial_statics).
Proof.
  split; [apply rtc_refl|]. eexists _, _, _. split; [reflexivity|].
  apply (listing_answers_its_cache Metrics factory_after initial_statics _
           None _ _ (rtc_refl _ _)).
  reflexivity.
Defined.

(** A group-by query on the example engine, and the release of its
    result. *)
Lemma group_results_free_witness :
  ∃ s res w1 G hss,
    zvec_collection_group_by_query (Eng := example_engine)
      example_collection example_group_query (Some zeroed_group_results)
      example_world
      = Done (s, Some res) w1 ∧
    groups_in w1 res G hss ∧
    ∃ w',
      zvec_group_results_free (Some res) w1
        = Done (Some zeroed_group_results) w' ∧
      (∀ arr, groups res = Some arr → heap w' !! arr = None) ∧
      (∀ g inner, g ∈ G → list_docs (group_docs g) = Some inner →
                  heap w' !! inner = None) ∧
      docs w' = docs w1 ∧ engine w' = engine w1 ∧ calls w' = calls w1 ∧
      Forall (Forall (still_allocated w')) hss.
Proof.
  eexists _, _, _, _, _. split; [reflexivity|].
  match goal with |- ?A ∧ _ => assert (Hin : A) end.
  { eexists. split; [reflexivity|]. split; [reflexivity|].
    split; [reflexivity|]. split.
    - repeat constructor. eexists. split_and!; try reflexivity.
      repeat constructor. eexists. reflexivity.
    - apply NoDup_singleton. }
  split; [exact Hin|].
  exact (group_results_free_releases_arrays_only (Eng := example_engine)
           _ _ _ _ Hin).
Defined.

(** The handles of that result are owned copies. *)
Lemma group_by_query_copies_witness :
  ∃ res w',
    zvec_collection_group_by_query (Eng := example_engine)
      example_collection example_group_query (Some zeroed_group_results)
      example_world
      = Done (ok_status, Some res) w' ∧
    code ok_status = ZVEC_STATUS_OK ∧
    ∃ c h gs e G hss,
      collection_and_ptr example_collection = Some c ∧
      example_group_query = Some h ∧
      Collection_GroupByQuery c (group_query h) (engine example_world)
        = (RValue gs, e) ∧
      groups_in w' res G hss ∧
      groups_count res = length gs ∧
      (∀ i g, gs !! i = Some g →
         ∃ gr hs, G !! i = Some gr ∧ hss !! i = Some hs ∧
                  group_by_value gr = Some (group_by_value_ g) ∧
                  Forall2 (copy_of example_world w') hs (docs_ g)) ∧
      grows example_world w'.
Proof.
  eexists _, _. split; [reflexivity|]. split; [reflexivity|].
  destruct example_engine_errors_not_OK as (_ & _ & Hg).
  eapply (group_by_query_returns_owned_copies (Eng := example_engine)
            example_collection example_group_query
            (Some zeroed_group_results) ok_status _ example_world _ Hg);
    reflexivity.
Defined.
